(** * SHA-1 of mango (source/mango/core/sha1.cpp): shallow embedding

    The portable backend [generic_sha1_transform] and the one-shot entry point
    [mango::sha1] are embedded as Rocq functions.  Unsigned 32-bit words are
    integers in [Z] with the wrap-around written out ([u32]); byte buffers are
    lists of integers; every read through the [data] pointer and every write
    into the scratch block is bounds-checked and lives in the [option] monad. *)

From Stdlib Require Import ZArith List Lia String Ascii.
From stdpp Require Import base option list numbers.

Local Open Scope Z_scope.

(** ** Machine integers *)

(** Conversion to [u32] / [u64]: the value modulo the width. *)
Definition u32 (x : Z) : Z := x mod 2 ^ 32.
Definition u64 (x : Z) : Z := x mod 2 ^ 64.

Definition K1 : Z := 0x5A827999.
Definition K2 : Z := 0x6ED9EBA1.
Definition K3 : Z := 0x8F1BBCDC.
Definition K4 : Z := 0xCA62C1D6.

(** [int] is 32 bits wide.  A product of two [int]s that leaves the range of
    [int] is undefined behaviour: the embedding fails there. *)
Definition int_mul (a b : Z) : option Z :=
  if decide (- 2 ^ 31 ≤ a * b < 2 ^ 31) then Some (a * b) else None.

(** ** Helpers of bits.hpp and endian.hpp *)

(** Modelled from the spec: bits.hpp is not under src/.  [u32_rol] is the
    spec's rotate_left on a 32-bit word, [(value << count) | (value >> (32 -
    count))] with the left shift truncated to 32 bits. *)
Definition u32_rol (value count : Z) : Z :=
  Z.lor (u32 (Z.shiftl value count)) (Z.shiftr value (32 - count)).

(** Modelled from the spec: bits.hpp is not under src/.  [u32_select mask a b]
    is the bitwise multiplexer "mask ? a : b", computed as
    [(mask & (a ^ b)) ^ b]; with it the source's [u32_select(B, C, D)] is the
    spec's round function of rounds 0-19. *)
Definition u32_select (mask a b : Z) : Z :=
  Z.lxor (Z.land mask (Z.lxor a b)) b.

(** Modelled from the spec: endian.hpp is not under src/.  [byteswap] is the
    byte-swap of a 32-bit word. *)
Definition byteswap (v : Z) : Z :=
  Z.lor (Z.lor (Z.lor (u32 (Z.shiftl v 24))
                      (Z.land (Z.shiftl v 8) 0x00FF0000))
               (Z.land (Z.shiftr v 8) 0x0000FF00))
        (Z.shiftr v 24).

(** Modelled from the spec: endian.hpp is not under src/.  [uload32be p off]
    is the big-endian load of the 32-bit word at [p + off]; each of the four
    byte reads is checked against the extent of [p]. *)
Definition uload32be (p : list Z) (off : nat) : option Z :=
  b0 ← p !! off;
  b1 ← p !! (off + 1)%nat;
  b2 ← p !! (off + 2)%nat;
  b3 ← p !! (off + 3)%nat;
  Some (Z.lor (Z.lor (Z.lor (Z.shiftl b0 24) (Z.shiftl b1 16)) (Z.shiftl b2 8)) b3).

(** A checked one-byte store [p[i] = v]. *)
Definition store8 (p : list Z) (i : nat) (v : Z) : option (list Z) :=
  if decide (i < length p)%nat then Some (<[i := v]> p) else None.

(** The eight bytes of a 64-bit value, most significant first. *)
Definition be64_bytes (v : Z) : list Z :=
  [ Z.land (Z.shiftr v 56) 0xFF; Z.land (Z.shiftr v 48) 0xFF;
    Z.land (Z.shiftr v 40) 0xFF; Z.land (Z.shiftr v 32) 0xFF;
    Z.land (Z.shiftr v 24) 0xFF; Z.land (Z.shiftr v 16) 0xFF;
    Z.land (Z.shiftr v 8) 0xFF;  Z.land v 0xFF ].

(** Modelled from the spec: endian.hpp is not under src/.  [ustore64be p off v]
    is the big-endian store of a 64-bit word at [p + off], eight checked byte
    stores. *)
Definition ustore64be (p : list Z) (off : nat) (v : Z) : option (list Z) :=
  p ← store8 p off (Z.land (Z.shiftr v 56) 0xFF);
  p ← store8 p (off + 1) (Z.land (Z.shiftr v 48) 0xFF);
  p ← store8 p (off + 2) (Z.land (Z.shiftr v 40) 0xFF);
  p ← store8 p (off + 3) (Z.land (Z.shiftr v 32) 0xFF);
  p ← store8 p (off + 4) (Z.land (Z.shiftr v 24) 0xFF);
  p ← store8 p (off + 5) (Z.land (Z.shiftr v 16) 0xFF);
  p ← store8 p (off + 6) (Z.land (Z.shiftr v 8) 0xFF);
  store8 p (off + 7) (Z.land v 0xFF).

(** [std::memcpy(dst, src, n)]: [n] bytes are read from [src] and written at
    the start of [dst], both checked. *)
Definition memcpy (dst src : list Z) (n : nat) : option (list Z) :=
  if decide (n ≤ length src ∧ n ≤ length dst)%nat
  then Some (take n src ++ drop n dst) else None.

(** [std::memset(dst + off, c, n)], checked. *)
Definition memset (dst : list Z) (off : nat) (c : Z) (n : nat) : option (list Z) :=
  if decide (off + n ≤ length dst)%nat
  then Some (take off dst ++ replicate n c ++ drop (off + n) dst) else None.

(** ** Generic C++ SHA1 *)

(** The four round helpers.  [B] and [E] are taken by reference in the
    source; the embedding returns the pair of their new values [(B, E)]. *)
Definition F1 (A B C D E msg : Z) : Z * Z :=
  let E := u32 (E + u32 (u32 (u32 (u32_select B C D + msg) + K1) + u32_rol A 5)) in
  let B := u32_rol B 30 in
  (B, E).

Definition F2 (A B C D E msg : Z) : Z * Z :=
  let E := u32 (E + u32 (u32 (u32 (Z.lxor (Z.lxor B C) D + msg) + K2) + u32_rol A 5)) in
  let B := u32_rol B 30 in
  (B, E).

Definition F3 (A B C D E msg : Z) : Z * Z :=
  let E := u32 (E + u32 (u32 (u32 (u32_select (Z.lxor B C) D C + msg) + K3) + u32_rol A 5)) in
  let B := u32_rol B 30 in
  (B, E).

Definition F4 (A B C D E msg : Z) : Z * Z :=
  let E := u32 (E + u32 (u32 (u32 (Z.lxor (Z.lxor B C) D + msg) + K4) + u32_rol A 5)) in
  let B := u32_rol B 30 in
  (B, E).

(** The five local registers of [generic_sha1_transform]. *)
Record regs : Type := Regs { rA : Z; rB : Z; rC : Z; rD : Z; rE : Z }.

(** The digest state [u32 data[5]], indexed by constants only. *)
Record SHA1 : Type := MkSHA1 { data0 : Z; data1 : Z; data2 : Z; data3 : Z; data4 : Z }.

Definition round_fn : Type := Z → Z → Z → Z → Z → Z → Z * Z.

(** The five argument orders in which the source calls a round helper.
    [F(A, B, C, D, E, m)] updates the variables passed second and fifth. *)
Definition call_ABCDE (F : round_fn) (r : regs) (m : Z) : regs :=
  let '(b, e) := F (rA r) (rB r) (rC r) (rD r) (rE r) m in
  Regs (rA r) b (rC r) (rD r) e.
Definition call_EABCD (F : round_fn) (r : regs) (m : Z) : regs :=
  let '(a, d) := F (rE r) (rA r) (rB r) (rC r) (rD r) m in
  Regs a (rB r) (rC r) d (rE r).
Definition call_DEABC (F : round_fn) (r : regs) (m : Z) : regs :=
  let '(e, c) := F (rD r) (rE r) (rA r) (rB r) (rC r) m in
  Regs (rA r) (rB r) c (rD r) e.
Definition call_CDEAB (F : round_fn) (r : regs) (m : Z) : regs :=
  let '(d, b) := F (rC r) (rD r) (rE r) (rA r) (rB r) m in
  Regs (rA r) b (rC r) d (rE r).
Definition call_BCDEA (F : round_fn) (r : regs) (m : Z) : regs :=
  let '(c, a) := F (rB r) (rC r) (rD r) (rE r) (rA r) m in
  Regs a (rB r) c (rD r) (rE r).

(** The eighty unrolled calls of one block, in source order. *)
Definition rounds (w : list Z) (r : regs) : regs :=
  let r := call_ABCDE F1 r (w !!! 0%nat) in
  let r := call_EABCD F1 r (w !!! 1%nat) in
  let r := call_DEABC F1 r (w !!! 2%nat) in
  let r := call_CDEAB F1 r (w !!! 3%nat) in
  let r := call_BCDEA F1 r (w !!! 4%nat) in
  let r := call_ABCDE F1 r (w !!! 5%nat) in
  let r := call_EABCD F1 r (w !!! 6%nat) in
  let r := call_DEABC F1 r (w !!! 7%nat) in
  let r := call_CDEAB F1 r (w !!! 8%nat) in
  let r := call_BCDEA F1 r (w !!! 9%nat) in
  let r := call_ABCDE F1 r (w !!! 10%nat) in
  let r := call_EABCD F1 r (w !!! 11%nat) in
  let r := call_DEABC F1 r (w !!! 12%nat) in
  let r := call_CDEAB F1 r (w !!! 13%nat) in
  let r := call_BCDEA F1 r (w !!! 14%nat) in
  let r := call_ABCDE F1 r (w !!! 15%nat) in
  let r := call_EABCD F1 r (w !!! 16%nat) in
  let r := call_DEABC F1 r (w !!! 17%nat) in
  let r := call_CDEAB F1 r (w !!! 18%nat) in
  let r := call_BCDEA F1 r (w !!! 19%nat) in
  let r := call_ABCDE F2 r (w !!! 20%nat) in
  let r := call_EABCD F2 r (w !!! 21%nat) in
  let r := call_DEABC F2 r (w !!! 22%nat) in
  let r := call_CDEAB F2 r (w !!! 23%nat) in
  let r := call_BCDEA F2 r (w !!! 24%nat) in
  let r := call_ABCDE F2 r (w !!! 25%nat) in
  let r := call_EABCD F2 r (w !!! 26%nat) in
  let r := call_DEABC F2 r (w !!! 27%nat) in
  let r := call_CDEAB F2 r (w !!! 28%nat) in
  let r := call_BCDEA F2 r (w !!! 29%nat) in
  let r := call_ABCDE F2 r (w !!! 30%nat) in
  let r := call_EABCD F2 r (w !!! 31%nat) in
  let r := call_DEABC F2 r (w !!! 32%nat) in
  let r := call_CDEAB F2 r (w !!! 33%nat) in
  let r := call_BCDEA F2 r (w !!! 34%nat) in
  let r := call_ABCDE F2 r (w !!! 35%nat) in
  let r := call_EABCD F2 r (w !!! 36%nat) in
  let r := call_DEABC F2 r (w !!! 37%nat) in
  let r := call_CDEAB F2 r (w !!! 38%nat) in
  let r := call_BCDEA F2 r (w !!! 39%nat) in
  let r := call_ABCDE F3 r (w !!! 40%nat) in
  let r := call_EABCD F3 r (w !!! 41%nat) in
  let r := call_DEABC F3 r (w !!! 42%nat) in
  let r := call_CDEAB F3 r (w !!! 43%nat) in
  let r := call_BCDEA F3 r (w !!! 44%nat) in
  let r := call_ABCDE F3 r (w !!! 45%nat) in
  let r := call_EABCD F3 r (w !!! 46%nat) in
  let r := call_DEABC F3 r (w !!! 47%nat) in
  let r := call_CDEAB F3 r (w !!! 48%nat) in
  let r := call_BCDEA F3 r (w !!! 49%nat) in
  let r := call_ABCDE F3 r (w !!! 50%nat) in
  let r := call_EABCD F3 r (w !!! 51%nat) in
  let r := call_DEABC F3 r (w !!! 52%nat) in
  let r := call_CDEAB F3 r (w !!! 53%nat) in
  let r := call_BCDEA F3 r (w !!! 54%nat) in
  let r := call_ABCDE F3 r (w !!! 55%nat) in
  let r := call_EABCD F3 r (w !!! 56%nat) in
  let r := call_DEABC F3 r (w !!! 57%nat) in
  let r := call_CDEAB F3 r (w !!! 58%nat) in
  let r := call_BCDEA F3 r (w !!! 59%nat) in
  let r := call_ABCDE F4 r (w !!! 60%nat) in
  let r := call_EABCD F4 r (w !!! 61%nat) in
  let r := call_DEABC F4 r (w !!! 62%nat) in
  let r := call_CDEAB F4 r (w !!! 63%nat) in
  let r := call_BCDEA F4 r (w !!! 64%nat) in
  let r := call_ABCDE F4 r (w !!! 65%nat) in
  let r := call_EABCD F4 r (w !!! 66%nat) in
  let r := call_DEABC F4 r (w !!! 67%nat) in
  let r := call_CDEAB F4 r (w !!! 68%nat) in
  let r := call_BCDEA F4 r (w !!! 69%nat) in
  let r := call_ABCDE F4 r (w !!! 70%nat) in
  let r := call_EABCD F4 r (w !!! 71%nat) in
  let r := call_DEABC F4 r (w !!! 72%nat) in
  let r := call_CDEAB F4 r (w !!! 73%nat) in
  let r := call_BCDEA F4 r (w !!! 74%nat) in
  let r := call_ABCDE F4 r (w !!! 75%nat) in
  let r := call_EABCD F4 r (w !!! 76%nat) in
  let r := call_DEABC F4 r (w !!! 77%nat) in
  let r := call_CDEAB F4 r (w !!! 78%nat) in
  let r := call_BCDEA F4 r (w !!! 79%nat) in
  r.

(** The values taken by [i] in [for (int i = start; i < stop; i += step)]. *)
Fixpoint for_indices (fuel : nat) (i stop step : nat) : list nat :=
  match fuel with
  | O => []
  | S fuel => if (i <? stop)%nat then i :: for_indices fuel (i + step) stop step else []
  end.

(** [u32 w[80]] is not initialised in the source: [stale] gives the
    indeterminate value each cell holds when the block's iteration starts. *)
Definition w_uninit (stale : nat → Z) : list Z := stale <$> seq 0 80.

(** The loading loop [for (int i = 0; i < 16; ++i) w[i] = uload32be(data + i * 4)]. *)
Definition load_words (data : list Z) (w : list Z) : option (list Z) :=
  foldl (λ ow i, w ← ow; v ← uload32be data (i * 4); Some (<[i := v]> w))
        (Some w) (for_indices 16 0 16 1).

(** One assignment of the expansion loop,
    [w[d] = u32_rol(w[a] ^ w[b] ^ w[c] ^ w[e], 1)]. *)
Definition w_assign (w : list Z) (d a b c e : nat) : list Z :=
  <[d := u32_rol (Z.lxor (Z.lxor (Z.lxor (w !!! a) (w !!! b)) (w !!! c)) (w !!! e)) 1]> w.

(** The body of the eight-way unrolled expansion loop. *)
Definition expand8 (w : list Z) (i : nat) : list Z :=
  let w := w_assign w (i + 0) (i - 3) (i - 8) (i - 14) (i - 16) in
  let w := w_assign w (i + 1) (i - 2) (i - 7) (i - 13) (i - 15) in
  let w := w_assign w (i + 2) (i - 1) (i - 6) (i - 12) (i - 14) in
  let w := w_assign w (i + 3) (i + 0) (i - 5) (i - 11) (i - 13) in
  let w := w_assign w (i + 4) (i + 1) (i - 4) (i - 10) (i - 12) in
  let w := w_assign w (i + 5) (i + 2) (i - 3) (i -  9) (i - 11) in
  let w := w_assign w (i + 6) (i + 3) (i - 2) (i -  8) (i - 10) in
  let w := w_assign w (i + 7) (i + 4) (i - 1) (i -  7) (i -  9) in
  w.

(** [for (int i = 16; i < 80; i += 8) { ... }]. *)
Definition expand_words (w : list Z) : list Z :=
  foldl expand8 w (for_indices 80 16 80 8).

(** The message schedule of the block at [data]. *)
Definition schedule (stale : nat → Z) (data : list Z) : option (list Z) :=
  w ← load_words data (w_uninit stale);
  Some (expand_words w).

(** What the [while] loop of [generic_sha1_transform] carries from one
    iteration to the next: the digest behind the pointer, the registers and
    the advancing [data] pointer. *)
Record loop_state : Type :=
  LoopState { ls_digest : SHA1; ls_regs : regs; ls_data : list Z }.

(** One iteration of [while (blocks-- > 0)]. *)
Definition transform_block (stale : nat → Z) (s : loop_state) : option loop_state :=
  let data := ls_data s in
  w ← schedule stale data;
  let data := drop 64 data in
  let r := rounds w (ls_regs s) in
  let digest := ls_digest s in
  let d0 := u32 (data0 digest + rA r) in
  let d1 := u32 (data1 digest + rB r) in
  let d2 := u32 (data2 digest + rC r) in
  let d3 := u32 (data3 digest + rD r) in
  let d4 := u32 (data4 digest + rE r) in
  Some (LoopState (MkSHA1 d0 d1 d2 d3 d4) (Regs d0 d1 d2 d3 d4) data).

Fixpoint transform_loop (stale : nat → Z) (n : nat) (s : loop_state) : option loop_state :=
  match n with
  | O => Some s
  | S n => s ← transform_block stale s; transform_loop stale n s
  end.

(** [void generic_sha1_transform(u32* digest, const u8* data, int blocks)];
    the result is the digest behind the pointer when the call returns, or
    [None] when a read left the extent of [data]. *)
Definition generic_sha1_transform (stale : nat → Z)
    (digest : SHA1) (data : list Z) (blocks : Z) : option SHA1 :=
  let r := Regs (data0 digest) (data1 digest) (data2 digest) (data3 digest) (data4 digest) in
  s ← transform_loop stale (Z.to_nat blocks) (LoopState digest r data);
  Some (ls_digest s).

(** ** mango::sha1 *)

(** [ConstMemory]: the bytes at [address]; [size] is their count.  [size_t]
    is taken 64 bits wide, as on the hosts the SHA extensions exist on. *)
Definition address (memory : list Z) : list Z := memory.
Definition size (memory : list Z) : Z := Z.of_nat (length memory).

Definition transform_fn : Type := SHA1 → list Z → Z → option SHA1.

(** [u8 block[64]] is not initialised either; [stale] gives its indeterminate
    first contents. *)
Definition block_uninit (stale : nat → Z) : list Z := stale <$> seq 0 64.

Definition sha1_init : SHA1 :=
  MkSHA1 0x67452301 0xefcdab89 0x98badcfe 0x10325476 0xc3d2e1f0.

(** The byte swaps under [#ifdef MANGO_LITTLE_ENDIAN]. *)
Definition sha1_encode (MANGO_LITTLE_ENDIAN : bool) (hash : SHA1) : SHA1 :=
  if MANGO_LITTLE_ENDIAN then
    let hash := MkSHA1 (byteswap (data0 hash)) (data1 hash) (data2 hash) (data3 hash) (data4 hash) in
    let hash := MkSHA1 (data0 hash) (byteswap (data1 hash)) (data2 hash) (data3 hash) (data4 hash) in
    let hash := MkSHA1 (data0 hash) (data1 hash) (byteswap (data2 hash)) (data3 hash) (data4 hash) in
    let hash := MkSHA1 (data0 hash) (data1 hash) (data2 hash) (byteswap (data3 hash)) (data4 hash) in
    let hash := MkSHA1 (data0 hash) (data1 hash) (data2 hash) (data3 hash) (byteswap (data4 hash)) in
    hash
  else hash.

(** The body of [SHA1 sha1(ConstMemory memory)] with the selected backend
    [transform] as a parameter, as the source holds it in a local function
    pointer.  [size_] is the local [u32 size]; [block_count] is an [int], and
    so is each product [block_count * 64]. *)
Definition sha1_with (MANGO_LITTLE_ENDIAN : bool) (transform : transform_fn)
    (stale : nat → Z) (memory : list Z) : option SHA1 :=
  let hash := sha1_init in
  (* u32 size = u32(memory.size); const u8* data = memory.address; *)
  let size_ := u32 (size memory) in
  let data := address memory in
  (* const int block_count = size / 64; transform(hash.data, data, block_count); *)
  let block_count := size_ / 64 in
  hash ← transform hash data block_count;
  (* data += block_count * 64; size -= block_count * 64; *)
  off ← int_mul block_count 64;
  let data := drop (Z.to_nat off) data in
  off ← int_mul block_count 64;
  let size_ := u32 (size_ - off) in
  (* u8 block[64]; std::memcpy(block, data, size); block[size++] = 0x80; *)
  let block := block_uninit stale in
  block ← memcpy block data (Z.to_nat size_);
  block ← store8 block (Z.to_nat size_) 0x80;
  let size_ := u32 (size_ + 1) in
  '(hash, block) ←
    (if size_ <=? 56 then
       (* std::memset(block + size, 0, 56 - size); *)
       block ← memset block (Z.to_nat size_) 0 (Z.to_nat (u32 (56 - size_)));
       Some (hash, block)
     else
       (* std::memset(block + size, 0, 64 - size); transform(hash.data, block, 1);
          std::memset(block, 0, 56); *)
       block ← memset block (Z.to_nat size_) 0 (Z.to_nat (u32 (64 - size_)));
       hash ← transform hash block 1;
       block ← memset block 0 0 56;
       Some (hash, block));
  (* ustore64be(block + 56, u64(memory.size * 8)); transform(hash.data, block, 1); *)
  block ← ustore64be block 56 (u64 (u64 (size memory * 8)));
  hash ← transform hash block 1;
  Some (sha1_encode MANGO_LITTLE_ENDIAN hash).

(** [sha1] on a build or host without the ARM and Intel SHA extensions: the
    dispatcher keeps its initial choice, [generic_sha1_transform]. *)
Definition sha1 (MANGO_LITTLE_ENDIAN : bool) (stale_w stale_block : nat → Z)
    (memory : list Z) : option SHA1 :=
  sha1_with MANGO_LITTLE_ENDIAN (generic_sha1_transform stale_w) stale_block memory.

(** ** Rendering a digest *)

(** The four bytes of a 32-bit word, most significant first. *)
Definition word_bytes_be (x : Z) : list Z :=
  [ Z.land (Z.shiftr x 24) 0xFF; Z.land (Z.shiftr x 16) 0xFF;
    Z.land (Z.shiftr x 8) 0xFF; Z.land x 0xFF ].

(** The bytes a 32-bit word occupies in the memory of the host, lowest
    address first. *)
Definition host_word_bytes (little_endian : bool) (x : Z) : list Z :=
  if little_endian then rev (word_bytes_be x) else word_bytes_be x.

(** The twenty bytes of the returned [SHA1] object, as they lie in memory. *)
Definition digest_bytes (little_endian : bool) (hash : SHA1) : list Z :=
  host_word_bytes little_endian (data0 hash) ++ host_word_bytes little_endian (data1 hash) ++
  host_word_bytes little_endian (data2 hash) ++ host_word_bytes little_endian (data3 hash) ++
  host_word_bytes little_endian (data4 hash).

Definition hex_digit (n : Z) : ascii :=
  ascii_of_nat (Z.to_nat (if n <? 10 then 48 + n else 87 + n)).

(** Lowercase hexadecimal, two characters per byte. *)
Fixpoint hex_of_bytes (bs : list Z) : string :=
  match bs with
  | [] => EmptyString
  | b :: bs => String (hex_digit (b / 16)) (String (hex_digit (b mod 16)) (hex_of_bytes bs))
  end.

(** A string literal as the buffer of its character codes. *)
Fixpoint bytes_of_string (s : string) : list Z :=
  match s with
  | EmptyString => []
  | String c s => Z.of_nat (nat_of_ascii c) :: bytes_of_string s
  end.

Definition sha1_hex (MANGO_LITTLE_ENDIAN : bool) (stale_w stale_block : nat → Z)
    (memory : list Z) : option string :=
  hash ← sha1 MANGO_LITTLE_ENDIAN stale_w stale_block memory;
  Some (hex_of_bytes (digest_bytes MANGO_LITTLE_ENDIAN hash)).

(** ** Reference definitions, following the words of the specification *)

(** The registers as loaded from the digest when a call starts. *)
Definition regs_of (digest : SHA1) : regs :=
  Regs (data0 digest) (data1 digest) (data2 digest) (data3 digest) (data4 digest).

(** "state[k] += register[k]". *)
Definition feed_forward (digest : SHA1) (r : regs) : SHA1 :=
  MkSHA1 (u32 (data0 digest + rA r)) (u32 (data1 digest + rB r))
         (u32 (data2 digest + rC r)) (u32 (data3 digest + rD r))
         (u32 (data4 digest + rE r)).

(** Processing exactly one block at [data], as the specification words it:
    schedule, eighty rounds from the current state, feed-forward. *)
Definition one_block (stale : nat → Z) (digest : SHA1) (data : list Z) : option SHA1 :=
  w ← schedule stale data;
  Some (feed_forward digest (rounds w (regs_of digest))).

(** Processing [n] blocks one at a time in input order. *)
Fixpoint blocks_one_at_a_time (stale : nat → Z) (n : nat) (digest : SHA1)
    (data : list Z) : option SHA1 :=
  match n with
  | O => Some digest
  | S n => digest ← one_block stale digest (take 64 data);
           blocks_one_at_a_time stale n digest (drop 64 data)
  end.

(** The recurrence "w[i] = rotate_left(w[i-3] xor w[i-8] xor w[i-14] xor
    w[i-16], 1)" read off an array [w]. *)
Definition schedule_word (w : list Z) (i : nat) : Z :=
  u32_rol (Z.lxor (Z.lxor (Z.lxor (w !!! (i - 3)%nat) (w !!! (i - 8)%nat))
                          (w !!! (i - 14)%nat)) (w !!! (i - 16)%nat)) 1.

(** One word of the canonical schedule: loaded big-endian for [i < 16], from
    the recurrence afterwards. *)
Definition next_word (data : list Z) (w : list Z) (i : nat) : option Z :=
  if (i <? 16)%nat then uload32be data (i * 4) else Some (schedule_word w i).

(** The canonical schedule, one word at a time: word [i] is appended to the
    [i] words before it, for [i] from 0 to 79. *)
Definition schedule_spec (data : list Z) : option (list Z) :=
  foldl (λ ow i, w ← ow; v ← next_word data w i; Some (w ++ [v])) (Some []) (seq 0 80).

(** The in-place counterpart of one step of [schedule_spec]. *)
Definition step_in_place (data : list Z) (ow : option (list Z)) (i : nat) :
    option (list Z) :=
  w ← ow; v ← next_word data w i; Some (<[i := v]> w).

Definition step_append (data : list Z) (ow : option (list Z)) (i : nat) :
    option (list Z) :=
  w ← ow; v ← next_word data w i; Some (w ++ [v]).

(** A value of type [u32]. *)
Definition u32_range (x : Z) : Prop := 0 ≤ x < 2 ^ 32.

Definition regs_ok (r : regs) : Prop :=
  u32_range (rA r) ∧ u32_range (rB r) ∧ u32_range (rC r) ∧ u32_range (rD r) ∧
  u32_range (rE r).

(** The complement of a 32-bit word. *)
Definition u32_not (x : Z) : Z := Z.lxor x 0xFFFFFFFF.

(** The round functions in the words of the specification. *)
Definition f_choose (B C D : Z) : Z := Z.lor (Z.land B C) (Z.land (u32_not B) D).
Definition f_parity (B C D : Z) : Z := Z.lxor (Z.lxor B C) D.
Definition f_majority (B C D : Z) : Z :=
  Z.lor (Z.lor (Z.land B C) (Z.land B D)) (Z.land C D).

Definition round_F (i : nat) : Z → Z → Z → Z :=
  if (i <? 20)%nat then f_choose
  else if (i <? 40)%nat then f_parity
  else if (i <? 60)%nat then f_majority
  else f_parity.

Definition round_K (i : nat) : Z :=
  if (i <? 20)%nat then 0x5A827999
  else if (i <? 40)%nat then 0x6ED9EBA1
  else if (i <? 60)%nat then 0x8F1BBCDC
  else 0xCA62C1D6.

(** Round [i] of the specification: "E' = E + F + w[i] + K +
    rotate_left(A,5)", then "(A,B,C,D,E) = (E', A, rotate_left(B,30), C, D)". *)
Definition spec_round (w : list Z) (r : regs) (i : nat) : regs :=
  let E' := u32 (rE r + round_F i (rB r) (rC r) (rD r) + w !!! i + round_K i
                 + u32_rol (rA r) 5) in
  Regs E' (rA r) (u32_rol (rB r) 30) (rC r) (rD r).

Definition spec_rounds (w : list Z) (r : regs) : regs :=
  foldl (spec_round w) r (seq 0 80).

(** A round helper applied to the registers in their canonical order, with
    the quintet rotated afterwards. *)
Definition rotating_call (F : round_fn) (r : regs) (m : Z) : regs :=
  let '(b, e) := F (rA r) (rB r) (rC r) (rD r) (rE r) m in
  Regs e (rA r) b (rC r) (rD r).

(** The helper the source uses in round [i]. *)
Definition code_F (i : nat) : round_fn :=
  if (i <? 20)%nat then F1
  else if (i <? 40)%nat then F2
  else if (i <? 60)%nat then F3
  else F4.

Definition code_round (w : list Z) (r : regs) (i : nat) : regs :=
  rotating_call (code_F i) r (w !!! i).

(** The canonical quintet as the source's variables hold it after 1, 2, 3
    and 4 rounds: the source renames instead of moving. *)
Definition view1 (r : regs) : regs := Regs (rE r) (rA r) (rB r) (rC r) (rD r).
Definition view2 (r : regs) : regs := Regs (rD r) (rE r) (rA r) (rB r) (rC r).
Definition view3 (r : regs) : regs := Regs (rC r) (rD r) (rE r) (rA r) (rB r).
Definition view4 (r : regs) : regs := Regs (rB r) (rC r) (rD r) (rE r) (rA r).

(** The final blocks in the words of the specification: the trailing bytes,
    one 0x80 byte, zeros, and the bit length big-endian at offsets 56..64. *)
Definition pad_single (tail : list Z) (bitlen : Z) : list Z :=
  tail ++ [0x80] ++ replicate (55 - length tail) 0 ++ be64_bytes bitlen.

Definition pad_first (tail : list Z) : list Z :=
  tail ++ [0x80] ++ replicate (63 - length tail) 0.

Definition pad_second (bitlen : Z) : list Z :=
  replicate 56 0 ++ be64_bytes bitlen.

(** The bytes [sha1] copies into its scratch block: the [size mod 64] bytes
    that follow the blocks given to the first [transform] call. *)
Definition sha1_tail (memory : list Z) : list Z :=
  take (Z.to_nat (size memory mod 64)) (drop (Z.to_nat (u32 (size memory) / 64 * 64)) memory).

(** A digest state all of whose words are 32-bit values. *)
Definition digest_ok (h : SHA1) : Prop :=
  u32_range (data0 h) ∧ u32_range (data1 h) ∧ u32_range (data2 h) ∧
  u32_range (data3 h) ∧ u32_range (data4 h).

(** The twenty bytes of a state, each word most significant byte first. *)
Definition state_bytes_be (h : SHA1) : list Z :=
  word_bytes_be (data0 h) ++ word_bytes_be (data1 h) ++ word_bytes_be (data2 h) ++
  word_bytes_be (data3 h) ++ word_bytes_be (data4 h).

(** A buffer of 4 GiB, the shortest whose size does not fit the [u32] that
    [sha1] copies it into. *)
Definition four_GiB_zeros : list Z := replicate (Z.to_nat (2 ^ 32)) 0.

(** A buffer of 4 GiB + 1 bytes whose first byte is 1 and whose last is 0. *)
Definition one_then_4GiB_zeros : list Z := 1 :: four_GiB_zeros.

(** A buffer of 2 GiB, the shortest for which [block_count * 64] leaves the
    range of [int]. *)
Definition two_GiB_zeros : list Z := replicate (Z.to_nat (2 ^ 31)) 0.

(** ** [sha1] on a store *)

(** The byte objects [sha1] holds pointers into: the caller's buffer behind
    [memory.address], and its own [u8 block[64]]. *)
Inductive u8_object : Type := Buffer | Block.

Record u8_store : Type := U8Store { st_buffer : list Z; st_block : list Z }.

(** A [u8*] or [const u8*]: an object and an offset into it. *)
Definition u8_ptr : Type := u8_object * nat.

Definition ptr_add (p : u8_ptr) (n : nat) : u8_ptr := (fst p, (snd p + n)%nat).

Definition st_object (s : u8_store) (o : u8_object) : list Z :=
  match o with Buffer => st_buffer s | Block => st_block s end.

Definition st_update (s : u8_store) (o : u8_object) (bytes : list Z) : u8_store :=
  match o with
  | Buffer => U8Store bytes (st_block s)
  | Block => U8Store (st_buffer s) bytes
  end.

(** What is read through a pointer: the bytes of its object from its offset
    on. *)
Definition st_view (s : u8_store) (p : u8_ptr) : list Z :=
  drop (snd p) (st_object s (fst p)).

(** The writes of [sha1], each through a [u8*]: the object the pointer points
    into is the one that changes; a write past its end fails. *)
Definition st_memcpy (s : u8_store) (dst src : u8_ptr) (n : nat) : option u8_store :=
  bytes ← memcpy (st_view s dst) (st_view s src) n;
  Some (st_update s (fst dst) (take (snd dst) (st_object s (fst dst)) ++ bytes)).

Definition st_store8 (s : u8_store) (p : u8_ptr) (i : nat) (v : Z) : option u8_store :=
  bytes ← store8 (st_object s (fst p)) (snd p + i) v;
  Some (st_update s (fst p) bytes).

Definition st_memset (s : u8_store) (p : u8_ptr) (c : Z) (n : nat) : option u8_store :=
  bytes ← memset (st_object s (fst p)) (snd p) c n;
  Some (st_update s (fst p) bytes).

Definition st_ustore64be (s : u8_store) (p : u8_ptr) (v : Z) : option u8_store :=
  bytes ← ustore64be (st_object s (fst p)) (snd p) v;
  Some (st_update s (fst p) bytes).

(** The body of [SHA1 sha1(ConstMemory memory)] once more, statement by
    statement as [sha1_with], on a store that holds the caller's buffer next
    to the scratch block: [data] and [block] are pointers, every write names
    the pointer it goes through, and the store is returned with the digest.
    The transform is handed what its [const u8*] lets it read; its own
    writes go to [hash.data] and to its local [w]. *)
Definition sha1_store (MANGO_LITTLE_ENDIAN : bool) (transform : transform_fn)
    (s : u8_store) : option (SHA1 * u8_store) :=
  let hash := sha1_init in
  (* u32 size = u32(memory.size); const u8* data = memory.address; *)
  let memory_size := size (st_buffer s) in
  let size_ := u32 memory_size in
  let data : u8_ptr := (Buffer, 0%nat) in
  (* const int block_count = size / 64; transform(hash.data, data, block_count); *)
  let block_count := size_ / 64 in
  hash ← transform hash (st_view s data) block_count;
  (* data += block_count * 64; size -= block_count * 64; *)
  off ← int_mul block_count 64;
  let data := ptr_add data (Z.to_nat off) in
  off ← int_mul block_count 64;
  let size_ := u32 (size_ - off) in
  (* u8 block[64]; std::memcpy(block, data, size); block[size++] = 0x80; *)
  let block : u8_ptr := (Block, 0%nat) in
  s ← st_memcpy s block data (Z.to_nat size_);
  s ← st_store8 s block (Z.to_nat size_) 0x80;
  let size_ := u32 (size_ + 1) in
  '(hash, s) ←
    (if size_ <=? 56 then
       (* std::memset(block + size, 0, 56 - size); *)
       s ← st_memset s (ptr_add block (Z.to_nat size_)) 0 (Z.to_nat (u32 (56 - size_)));
       Some (hash, s)
     else
       (* std::memset(block + size, 0, 64 - size); transform(hash.data, block, 1);
          std::memset(block, 0, 56); *)
       s ← st_memset s (ptr_add block (Z.to_nat size_)) 0 (Z.to_nat (u32 (64 - size_)));
       hash ← transform hash (st_view s block) 1;
       s ← st_memset s block 0 56;
       Some (hash, s));
  (* ustore64be(block + 56, u64(memory.size * 8)); transform(hash.data, block, 1); *)
  s ← st_ustore64be s (ptr_add block 56) (u64 (u64 (memory_size * 8)));
  hash ← transform hash (st_view s block) 1;
  Some (sha1_encode MANGO_LITTLE_ENDIAN hash, s).

(** The store [sha1] starts on: the caller's buffer, and the scratch block
    with its indeterminate first contents. *)
Definition sha1_store_init (stale_block : nat → Z) (memory : list Z) : u8_store :=
  U8Store memory (block_uninit stale_block).

(** ** SHA-1 as the standard defines it *)

(** The padded message: the message, one 0x80 byte, the least number of zero
    bytes that brings the length to 56 modulo 64, and the bit length of the
    message as a big-endian 64-bit value. *)
Definition sha1_pad (msg : list Z) : list Z :=
  msg ++ [0x80] ++ replicate (Z.to_nat ((55 - size msg) mod 64)) 0 ++
  be64_bytes ((size msg * 8) mod 2 ^ 64).

(** The compression function on one 64-byte block: canonical schedule,
    eighty canonical rounds, feed-forward. *)
Definition compress (h : SHA1) (block : list Z) : option SHA1 :=
  w ← schedule_spec block;
  Some (feed_forward h (spec_rounds w (regs_of h))).

Fixpoint hash_blocks (n : nat) (h : SHA1) (data : list Z) : option SHA1 :=
  match n with
  | O => Some h
  | S n => h ← compress h (take 64 data); hash_blocks n h (drop 64 data)
  end.

(** The final state of SHA-1 on [msg]: the blocks of the padded message
    compressed in order from the initial state. *)
Definition sha1_reference (msg : list Z) : option SHA1 :=
  hash_blocks (length (sha1_pad msg) / 64) sha1_init (sha1_pad msg).

(** A buffer of 4 GiB of bytes 1. *)
Definition four_GiB_ones : list Z := replicate (Z.to_nat (2 ^ 32)) 1.

(** ** Intel SHA extensions backend *)

(** [__m128i]: four 32-bit lanes, [lane0] the least significant (bits 31:0),
    [lane3] the most significant (bits 127:96). *)
Record m128i : Type := V4 { lane0 : Z; lane1 : Z; lane2 : Z; lane3 : Z }.

(** The 32-bit value of four bytes in memory order on x86 (little-endian),
    and the four bytes of a lane in memory order. *)
Definition le_combine (b0 b1 b2 b3 : Z) : Z :=
  Z.lor (Z.lor (Z.lor (Z.shiftl b3 24) (Z.shiftl b2 16)) (Z.shiftl b1 8)) b0.

Definition le_bytes (x : Z) : list Z :=
  [ Z.land x 0xFF; Z.land (Z.shiftr x 8) 0xFF;
    Z.land (Z.shiftr x 16) 0xFF; Z.land (Z.shiftr x 24) 0xFF ].

(** The sixteen bytes of a vector, byte 0 first, and back. *)
Definition m128i_bytes (a : m128i) : list Z :=
  le_bytes (lane0 a) ++ le_bytes (lane1 a) ++ le_bytes (lane2 a) ++ le_bytes (lane3 a).

Definition m128i_of_bytes (bs : list Z) : m128i :=
  V4 (le_combine (bs !!! 0%nat) (bs !!! 1%nat) (bs !!! 2%nat) (bs !!! 3%nat))
     (le_combine (bs !!! 4%nat) (bs !!! 5%nat) (bs !!! 6%nat) (bs !!! 7%nat))
     (le_combine (bs !!! 8%nat) (bs !!! 9%nat) (bs !!! 10%nat) (bs !!! 11%nat))
     (le_combine (bs !!! 12%nat) (bs !!! 13%nat) (bs !!! 14%nat) (bs !!! 15%nat)).

(** The intrinsics, after the operation sections of Intel's instruction-set
    reference; they are compiler built-ins, not code of the repository. *)

(** [_mm_set_epi64x(e1, e0)]: [e1] is the high quadword. *)
Definition _mm_set_epi64x (e1 e0 : Z) : m128i :=
  V4 (Z.land e0 0xFFFFFFFF) (Z.land (Z.shiftr e0 32) 0xFFFFFFFF)
     (Z.land e1 0xFFFFFFFF) (Z.land (Z.shiftr e1 32) 0xFFFFFFFF).

Definition _mm_setzero_si128 : m128i := V4 0 0 0 0.

(** [_mm_loadu_si128(p + off)]: sixteen bytes are read, checked. *)
Definition _mm_loadu_si128 (p : list Z) (off : nat) : option m128i :=
  if decide (off + 16 ≤ length p)%nat
  then Some (m128i_of_bytes (take 16 (drop off p))) else None.

(** [_mm_insert_epi32(a, i, 3)]. *)
Definition _mm_insert_epi32_3 (a : m128i) (i : Z) : m128i :=
  V4 (lane0 a) (lane1 a) (lane2 a) (u32 i).

(** [_mm_extract_epi32(a, 3)]. *)
Definition _mm_extract_epi32_3 (a : m128i) : Z := lane3 a.

Definition m128i_lane (a : m128i) (i : Z) : Z :=
  if i =? 0 then lane0 a else if i =? 1 then lane1 a
  else if i =? 2 then lane2 a else lane3 a.

(** [_mm_shuffle_epi32(a, imm8)]: lane [i] of the result is the lane of [a]
    selected by bits [2i+1:2i] of [imm8]. *)
Definition _mm_shuffle_epi32 (a : m128i) (imm8 : Z) : m128i :=
  V4 (m128i_lane a (Z.land imm8 3))
     (m128i_lane a (Z.land (Z.shiftr imm8 2) 3))
     (m128i_lane a (Z.land (Z.shiftr imm8 4) 3))
     (m128i_lane a (Z.land (Z.shiftr imm8 6) 3)).

Definition _mm_and_si128 (a b : m128i) : m128i :=
  V4 (Z.land (lane0 a) (lane0 b)) (Z.land (lane1 a) (lane1 b))
     (Z.land (lane2 a) (lane2 b)) (Z.land (lane3 a) (lane3 b)).

Definition _mm_xor_si128 (a b : m128i) : m128i :=
  V4 (Z.lxor (lane0 a) (lane0 b)) (Z.lxor (lane1 a) (lane1 b))
     (Z.lxor (lane2 a) (lane2 b)) (Z.lxor (lane3 a) (lane3 b)).

Definition _mm_add_epi32 (a b : m128i) : m128i :=
  V4 (u32 (lane0 a + lane0 b)) (u32 (lane1 a + lane1 b))
     (u32 (lane2 a + lane2 b)) (u32 (lane3 a + lane3 b)).

(** [_mm_shuffle_epi8(a, b)]: byte [i] of the result is 0 when bit 7 of byte
    [i] of [b] is set, else the byte of [a] indexed by the low four bits. *)
Definition _mm_shuffle_epi8 (a b : m128i) : m128i :=
  let bytes := m128i_bytes a in
  m128i_of_bytes
    ((λ m, if Z.testbit m 7 then 0 else bytes !!! Z.to_nat (Z.land m 15)) <$> m128i_bytes b).

(** The logic function and constant [SHA1RNDS4] selects by [imm8[1:0]]. *)
Definition sha1rnds4_f (func : Z) (B C D : Z) : Z :=
  if func =? 0 then Z.lxor (Z.land B C) (Z.land (u32_not B) D)
  else if func =? 1 then Z.lxor (Z.lxor B C) D
  else if func =? 2 then Z.lxor (Z.lxor (Z.land B C) (Z.land B D)) (Z.land C D)
  else Z.lxor (Z.lxor B C) D.

Definition sha1rnds4_K (func : Z) : Z :=
  if func =? 0 then 0x5A827999
  else if func =? 1 then 0x6ED9EBA1
  else if func =? 2 then 0x8F1BBCDC
  else 0xCA62C1D6.

(** [_mm_sha1rnds4_epu32(a, b, func)]: four rounds on A, B, C, D held in
    lanes 3, 2, 1, 0 of [a]; lane 3 of [b] is W0 with E already added, lanes
    2, 1, 0 are W1, W2, W3. *)
Definition _mm_sha1rnds4_epu32 (a b : m128i) (func : Z) : m128i :=
  let f := sha1rnds4_f (Z.land func 3) in
  let K := sha1rnds4_K (Z.land func 3) in
  let A := lane3 a in let B := lane2 a in let C := lane1 a in let D := lane0 a in
  let W0E := lane3 b in let W1 := lane2 b in let W2 := lane1 b in let W3 := lane0 b in
  let A1 := u32 (u32 (u32 (f B C D + u32_rol A 5) + W0E) + K) in
  let B1 := A in let C1 := u32_rol B 30 in let D1 := C in let E1 := D in
  let A2 := u32 (u32 (u32 (u32 (f B1 C1 D1 + u32_rol A1 5) + W1) + E1) + K) in
  let B2 := A1 in let C2 := u32_rol B1 30 in let D2 := C1 in let E2 := D1 in
  let A3 := u32 (u32 (u32 (u32 (f B2 C2 D2 + u32_rol A2 5) + W2) + E2) + K) in
  let B3 := A2 in let C3 := u32_rol B2 30 in let D3 := C2 in let E3 := D2 in
  let A4 := u32 (u32 (u32 (u32 (f B3 C3 D3 + u32_rol A3 5) + W3) + E3) + K) in
  let B4 := A3 in let C4 := u32_rol B3 30 in let D4 := C3 in
  V4 D4 C4 B4 A4.

(** [_mm_sha1nexte_epu32(a, b)]: lane 3 of [b] plus lane 3 of [a] rotated
    left by 30; the other lanes of [b]. *)
Definition _mm_sha1nexte_epu32 (a b : m128i) : m128i :=
  V4 (lane0 b) (lane1 b) (lane2 b) (u32 (lane3 b + u32_rol (lane3 a) 30)).

(** [_mm_sha1msg1_epu32(a, b)]: with W0..W3 in lanes 3..0 of [a] and W4, W5
    in lanes 3, 2 of [b]: W2^W0, W3^W1, W4^W2, W5^W3 in lanes 3..0. *)
Definition _mm_sha1msg1_epu32 (a b : m128i) : m128i :=
  let W0 := lane3 a in let W1 := lane2 a in let W2 := lane1 a in let W3 := lane0 a in
  let W4 := lane3 b in let W5 := lane2 b in
  V4 (Z.lxor W5 W3) (Z.lxor W4 W2) (Z.lxor W3 W1) (Z.lxor W2 W0).

(** [_mm_sha1msg2_epu32(a, b)]: with W13, W14, W15 in lanes 2, 1, 0 of [b]:
    W16 = (a3 ^ W13) rol 1, W17 = (a2 ^ W14) rol 1, W18 = (a1 ^ W15) rol 1,
    W19 = (a0 ^ W16) rol 1 in lanes 3..0. *)
Definition _mm_sha1msg2_epu32 (a b : m128i) : m128i :=
  let W13 := lane2 b in let W14 := lane1 b in let W15 := lane0 b in
  let W16 := u32_rol (Z.lxor (lane3 a) W13) 1 in
  let W17 := u32_rol (Z.lxor (lane2 a) W14) 1 in
  let W18 := u32_rol (Z.lxor (lane1 a) W15) 1 in
  let W19 := u32_rol (Z.lxor (lane0 a) W16) 1 in
  V4 W19 W18 W17 W16.

Definition e_mask : m128i := _mm_set_epi64x 0xffffffff00000000 0x0000000000000000.
Definition shuf_mask : m128i := _mm_set_epi64x 0x0001020304050607 0x08090a0b0c0d0e0f.

(** The vector variables of the loop body of [intel_sha1_transform]. *)
Record intel_vars : Type :=
  IntelVars { iv_abcd : m128i; iv_e0 : m128i; iv_e1 : m128i;
              iv_msg0 : m128i; iv_msg1 : m128i; iv_msg2 : m128i; iv_msg3 : m128i }.

(** [Rounds 0-3]; [e1] is declared without a value and first assigned here. *)
Definition intel_rounds_0_3 (abcd e0 msg0 msg1 msg2 msg3 : m128i) : intel_vars :=
  let msg0 := _mm_shuffle_epi8 msg0 shuf_mask in
  let e0 := _mm_add_epi32 e0 msg0 in
  let e1 := abcd in
  let abcd := _mm_sha1rnds4_epu32 abcd e0 0 in
  IntelVars abcd e0 e1 msg0 msg1 msg2 msg3.

(** [Rounds 4-7]. *)
Definition intel_rounds_4_7 (v : intel_vars) : intel_vars :=
  let '(IntelVars abcd e0 e1 msg0 msg1 msg2 msg3) := v in
  let msg1 := _mm_shuffle_epi8 msg1 shuf_mask in
  let e1 := _mm_sha1nexte_epu32 e1 msg1 in
  let e0 := abcd in
  let abcd := _mm_sha1rnds4_epu32 abcd e1 0 in
  let msg0 := _mm_sha1msg1_epu32 msg0 msg1 in
  IntelVars abcd e0 e1 msg0 msg1 msg2 msg3.

(** [Rounds 8-11]. *)
Definition intel_rounds_8_11 (v : intel_vars) : intel_vars :=
  let '(IntelVars abcd e0 e1 msg0 msg1 msg2 msg3) := v in
  let msg2 := _mm_shuffle_epi8 msg2 shuf_mask in
  let e0 := _mm_sha1nexte_epu32 e0 msg2 in
  let e1 := abcd in
  let abcd := _mm_sha1rnds4_epu32 abcd e0 0 in
  let msg1 := _mm_sha1msg1_epu32 msg1 msg2 in
  let msg0 := _mm_xor_si128 msg0 msg2 in
  IntelVars abcd e0 e1 msg0 msg1 msg2 msg3.

(** [Rounds 12-15]. *)
Definition intel_rounds_12_15 (v : intel_vars) : intel_vars :=
  let '(IntelVars abcd e0 e1 msg0 msg1 msg2 msg3) := v in
  let msg3 := _mm_shuffle_epi8 msg3 shuf_mask in
  let e1 := _mm_sha1nexte_epu32 e1 msg3 in
  let e0 := abcd in
  let msg0 := _mm_sha1msg2_epu32 msg0 msg3 in
  let abcd := _mm_sha1rnds4_epu32 abcd e1 0 in
  let msg2 := _mm_sha1msg1_epu32 msg2 msg3 in
  let msg1 := _mm_xor_si128 msg1 msg3 in
  IntelVars abcd e0 e1 msg0 msg1 msg2 msg3.

(** [Rounds 16-19]. *)
Definition intel_rounds_16_19 (v : intel_vars) : intel_vars :=
  let '(IntelVars abcd e0 e1 msg0 msg1 msg2 msg3) := v in
  let e0 := _mm_sha1nexte_epu32 e0 msg0 in
  let e1 := abcd in
  let msg1 := _mm_sha1msg2_epu32 msg1 msg0 in
  let abcd := _mm_sha1rnds4_epu32 abcd e0 0 in
  let msg3 := _mm_sha1msg1_epu32 msg3 msg0 in
  let msg2 := _mm_xor_si128 msg2 msg0 in
  IntelVars abcd e0 e1 msg0 msg1 msg2 msg3.

(** [Rounds 20-23]. *)
Definition intel_rounds_20_23 (v : intel_vars) : intel_vars :=
  let '(IntelVars abcd e0 e1 msg0 msg1 msg2 msg3) := v in
  let e1 := _mm_sha1nexte_epu32 e1 msg1 in
  let e0 := abcd in
  let msg2 := _mm_sha1msg2_epu32 msg2 msg1 in
  let abcd := _mm_sha1rnds4_epu32 abcd e1 1 in
  let msg0 := _mm_sha1msg1_epu32 msg0 msg1 in
  let msg3 := _mm_xor_si128 msg3 msg1 in
  IntelVars abcd e0 e1 msg0 msg1 msg2 msg3.

(** [Rounds 24-27]. *)
Definition intel_rounds_24_27 (v : intel_vars) : intel_vars :=
  let '(IntelVars abcd e0 e1 msg0 msg1 msg2 msg3) := v in
  let e0 := _mm_sha1nexte_epu32 e0 msg2 in
  let e1 := abcd in
  let msg3 := _mm_sha1msg2_epu32 msg3 msg2 in
  let abcd := _mm_sha1rnds4_epu32 abcd e0 1 in
  let msg1 := _mm_sha1msg1_epu32 msg1 msg2 in
  let msg0 := _mm_xor_si128 msg0 msg2 in
  IntelVars abcd e0 e1 msg0 msg1 msg2 msg3.

(** [Rounds 28-31]. *)
Definition intel_rounds_28_31 (v : intel_vars) : intel_vars :=
  let '(IntelVars abcd e0 e1 msg0 msg1 msg2 msg3) := v in
  let e1 := _mm_sha1nexte_epu32 e1 msg3 in
  let e0 := abcd in
  let msg0 := _mm_sha1msg2_epu32 msg0 msg3 in
  let abcd := _mm_sha1rnds4_epu32 abcd e1 1 in
  let msg2 := _mm_sha1msg1_epu32 msg2 msg3 in
  let msg1 := _mm_xor_si128 msg1 msg3 in
  IntelVars abcd e0 e1 msg0 msg1 msg2 msg3.

(** [Rounds 32-35]. *)
Definition intel_rounds_32_35 (v : intel_vars) : intel_vars :=
  let '(IntelVars abcd e0 e1 msg0 msg1 msg2 msg3) := v in
  let e0 := _mm_sha1nexte_epu32 e0 msg0 in
  let e1 := abcd in
  let msg1 := _mm_sha1msg2_epu32 msg1 msg0 in
  let abcd := _mm_sha1rnds4_epu32 abcd e0 1 in
  let msg3 := _mm_sha1msg1_epu32 msg3 msg0 in
  let msg2 := _mm_xor_si128 msg2 msg0 in
  IntelVars abcd e0 e1 msg0 msg1 msg2 msg3.

(** [Rounds 36-39]. *)
Definition intel_rounds_36_39 (v : intel_vars) : intel_vars :=
  let '(IntelVars abcd e0 e1 msg0 msg1 msg2 msg3) := v in
  let e1 := _mm_sha1nexte_epu32 e1 msg1 in
  let e0 := abcd in
  let msg2 := _mm_sha1msg2_epu32 msg2 msg1 in
  let abcd := _mm_sha1rnds4_epu32 abcd e1 1 in
  let msg0 := _mm_sha1msg1_epu32 msg0 msg1 in
  let msg3 := _mm_xor_si128 msg3 msg1 in
  IntelVars abcd e0 e1 msg0 msg1 msg2 msg3.

(** [Rounds 40-43]. *)
Definition intel_rounds_40_43 (v : intel_vars) : intel_vars :=
  let '(IntelVars abcd e0 e1 msg0 msg1 msg2 msg3) := v in
  let e0 := _mm_sha1nexte_epu32 e0 msg2 in
  let e1 := abcd in
  let msg3 := _mm_sha1msg2_epu32 msg3 msg2 in
  let abcd := _mm_sha1rnds4_epu32 abcd e0 2 in
  let msg1 := _mm_sha1msg1_epu32 msg1 msg2 in
  let msg0 := _mm_xor_si128 msg0 msg2 in
  IntelVars abcd e0 e1 msg0 msg1 msg2 msg3.

(** [Rounds 44-47]. *)
Definition intel_rounds_44_47 (v : intel_vars) : intel_vars :=
  let '(IntelVars abcd e0 e1 msg0 msg1 msg2 msg3) := v in
  let e1 := _mm_sha1nexte_epu32 e1 msg3 in
  let e0 := abcd in
  let msg0 := _mm_sha1msg2_epu32 msg0 msg3 in
  let abcd := _mm_sha1rnds4_epu32 abcd e1 2 in
  let msg2 := _mm_sha1msg1_epu32 msg2 msg3 in
  let msg1 := _mm_xor_si128 msg1 msg3 in
  IntelVars abcd e0 e1 msg0 msg1 msg2 msg3.

(** [Rounds 48-51]. *)
Definition intel_rounds_48_51 (v : intel_vars) : intel_vars :=
  let '(IntelVars abcd e0 e1 msg0 msg1 msg2 msg3) := v in
  let e0 := _mm_sha1nexte_epu32 e0 msg0 in
  let e1 := abcd in
  let msg1 := _mm_sha1msg2_epu32 msg1 msg0 in
  let abcd := _mm_sha1rnds4_epu32 abcd e0 2 in
  let msg3 := _mm_sha1msg1_epu32 msg3 msg0 in
  let msg2 := _mm_xor_si128 msg2 msg0 in
  IntelVars abcd e0 e1 msg0 msg1 msg2 msg3.

(** [Rounds 52-55]. *)
Definition intel_rounds_52_55 (v : intel_vars) : intel_vars :=
  let '(IntelVars abcd e0 e1 msg0 msg1 msg2 msg3) := v in
  let e1 := _mm_sha1nexte_epu32 e1 msg1 in
  let e0 := abcd in
  let msg2 := _mm_sha1msg2_epu32 msg2 msg1 in
  let abcd := _mm_sha1rnds4_epu32 abcd e1 2 in
  let msg0 := _mm_sha1msg1_epu32 msg0 msg1 in
  let msg3 := _mm_xor_si128 msg3 msg1 in
  IntelVars abcd e0 e1 msg0 msg1 msg2 msg3.

(** [Rounds 56-59]. *)
Definition intel_rounds_56_59 (v : intel_vars) : intel_vars :=
  let '(IntelVars abcd e0 e1 msg0 msg1 msg2 msg3) := v in
  let e0 := _mm_sha1nexte_epu32 e0 msg2 in
  let e1 := abcd in
  let msg3 := _mm_sha1msg2_epu32 msg3 msg2 in
  let abcd := _mm_sha1rnds4_epu32 abcd e0 2 in
  let msg1 := _mm_sha1msg1_epu32 msg1 msg2 in
  let msg0 := _mm_xor_si128 msg0 msg2 in
  IntelVars abcd e0 e1 msg0 msg1 msg2 msg3.

(** [Rounds 60-63]. *)
Definition intel_rounds_60_63 (v : intel_vars) : intel_vars :=
  let '(IntelVars abcd e0 e1 msg0 msg1 msg2 msg3) := v in
  let e1 := _mm_sha1nexte_epu32 e1 msg3 in
  let e0 := abcd in
  let msg0 := _mm_sha1msg2_epu32 msg0 msg3 in
  let abcd := _mm_sha1rnds4_epu32 abcd e1 3 in
  let msg2 := _mm_sha1msg1_epu32 msg2 msg3 in
  let msg1 := _mm_xor_si128 msg1 msg3 in
  IntelVars abcd e0 e1 msg0 msg1 msg2 msg3.

(** [Rounds 64-67]. *)
Definition intel_rounds_64_67 (v : intel_vars) : intel_vars :=
  let '(IntelVars abcd e0 e1 msg0 msg1 msg2 msg3) := v in
  let e0 := _mm_sha1nexte_epu32 e0 msg0 in
  let e1 := abcd in
  let msg1 := _mm_sha1msg2_epu32 msg1 msg0 in
  let abcd := _mm_sha1rnds4_epu32 abcd e0 3 in
  let msg3 := _mm_sha1msg1_epu32 msg3 msg0 in
  let msg2 := _mm_xor_si128 msg2 msg0 in
  IntelVars abcd e0 e1 msg0 msg1 msg2 msg3.

(** [Rounds 68-71]. *)
Definition intel_rounds_68_71 (v : intel_vars) : intel_vars :=
  let '(IntelVars abcd e0 e1 msg0 msg1 msg2 msg3) := v in
  let e1 := _mm_sha1nexte_epu32 e1 msg1 in
  let e0 := abcd in
  let msg2 := _mm_sha1msg2_epu32 msg2 msg1 in
  let abcd := _mm_sha1rnds4_epu32 abcd e1 3 in
  let msg3 := _mm_xor_si128 msg3 msg1 in
  IntelVars abcd e0 e1 msg0 msg1 msg2 msg3.

(** [Rounds 72-75]. *)
Definition intel_rounds_72_75 (v : intel_vars) : intel_vars :=
  let '(IntelVars abcd e0 e1 msg0 msg1 msg2 msg3) := v in
  let e0 := _mm_sha1nexte_epu32 e0 msg2 in
  let e1 := abcd in
  let msg3 := _mm_sha1msg2_epu32 msg3 msg2 in
  let abcd := _mm_sha1rnds4_epu32 abcd e0 3 in
  IntelVars abcd e0 e1 msg0 msg1 msg2 msg3.

(** [Rounds 76-79]. *)
Definition intel_rounds_76_79 (v : intel_vars) : intel_vars :=
  let '(IntelVars abcd e0 e1 msg0 msg1 msg2 msg3) := v in
  let e1 := _mm_sha1nexte_epu32 e1 msg3 in
  let e0 := abcd in
  let abcd := _mm_sha1rnds4_epu32 abcd e1 3 in
  IntelVars abcd e0 e1 msg0 msg1 msg2 msg3.

(** One iteration of [while (blocks-- > 0)]: the four loads, the twenty
    groups of four rounds, the addition of the saved state, on [abcd], [e0]
    and the [data] pointer. *)
Definition intel_block (abcd e0 : m128i) (data : list Z) : option (m128i * m128i * list Z) :=
  let abcd_save := abcd in
  let e_save := e0 in
  msg0 ← _mm_loadu_si128 data 0;
  msg1 ← _mm_loadu_si128 data 16;
  msg2 ← _mm_loadu_si128 data 32;
  msg3 ← _mm_loadu_si128 data 48;
  let v := intel_rounds_0_3 abcd e0 msg0 msg1 msg2 msg3 in
  let v := intel_rounds_4_7 v in
  let v := intel_rounds_8_11 v in
  let v := intel_rounds_12_15 v in
  let v := intel_rounds_16_19 v in
  let v := intel_rounds_20_23 v in
  let v := intel_rounds_24_27 v in
  let v := intel_rounds_28_31 v in
  let v := intel_rounds_32_35 v in
  let v := intel_rounds_36_39 v in
  let v := intel_rounds_40_43 v in
  let v := intel_rounds_44_47 v in
  let v := intel_rounds_48_51 v in
  let v := intel_rounds_52_55 v in
  let v := intel_rounds_56_59 v in
  let v := intel_rounds_60_63 v in
  let v := intel_rounds_64_67 v in
  let v := intel_rounds_68_71 v in
  let v := intel_rounds_72_75 v in
  let v := intel_rounds_76_79 v in
  let e0 := _mm_sha1nexte_epu32 (iv_e0 v) e_save in
  let abcd := _mm_add_epi32 (iv_abcd v) abcd_save in
  let data := drop 64 data in
  Some (abcd, e0, data).

Fixpoint intel_loop (n : nat) (abcd e0 : m128i) (data : list Z) :
    option (m128i * m128i * list Z) :=
  match n with
  | O => Some (abcd, e0, data)
  | S n => '(abcd, e0, data) ← intel_block abcd e0 data; intel_loop n abcd e0 data
  end.

(** [_mm_store_si128(p, a)]: an aligned store.  The address [p] has to be a
    multiple of 16; on any other address the instruction raises a
    general-protection fault, and the embedding fails. *)
Definition _mm_store_si128 (p : Z) (a : m128i) : option m128i :=
  if decide (p mod 16 = 0) then Some a else None.

(** [void intel_sha1_transform(u32* digest, const u8* data, int blocks)].
    [digest_addr] is the address the pointer [digest] holds.  The unaligned
    load from [digest] reads [digest[0..3]] into lanes 0..3; after the loop
    [_mm_store_si128] writes them back, whatever the block count was. *)
Definition intel_sha1_transform (digest_addr : Z) (digest : SHA1) (data : list Z)
    (blocks : Z) : option SHA1 :=
  let abcd := V4 (data0 digest) (data1 digest) (data2 digest) (data3 digest) in
  let e0 := _mm_setzero_si128 in
  let e0 := _mm_insert_epi32_3 e0 (data4 digest) in
  let abcd := _mm_shuffle_epi32 abcd 0x1b in
  let e0 := _mm_and_si128 e0 e_mask in
  '(abcd, e0, data) ← intel_loop (Z.to_nat blocks) abcd e0 data;
  let abcd := _mm_shuffle_epi32 abcd 0x1b in
  stored ← _mm_store_si128 digest_addr abcd;
  Some (MkSHA1 (lane0 stored) (lane1 stored) (lane2 stored) (lane3 stored)
               (_mm_extract_epi32_3 e0)).

(** *** Reference notions for the accelerated backends *)

(** Every element is a byte value. *)
Definition bytes_ok (data : list Z) : Prop := Forall (λ b, 0 ≤ b < 256) data.

(** One canonical round with message word [m], logic function [f] and
    constant [K]. *)
Definition round_step (f : Z → Z → Z → Z) (K : Z) (r : regs) (m : Z) : regs :=
  Regs (u32 (rE r + f (rB r) (rC r) (rD r) + m + K + u32_rol (rA r) 5))
       (rA r) (u32_rol (rB r) 30) (rC r) (rD r).

(** Four canonical rounds of stage [func] (0 to 3). *)
Definition round4 (func : nat) (r : regs) (m0 m1 m2 m3 : Z) : regs :=
  let f := round_F (20 * func) in
  let K := round_K (20 * func) in
  round_step f K (round_step f K (round_step f K (round_step f K r m0) m1) m2) m3.

(** The words [4g .. 4g+3] of a schedule as the Intel code holds them: the
    first word in lane 3. *)
Definition Wv (w : list Z) (g : nat) : m128i :=
  V4 (w !!! (4 * g + 3)%nat) (w !!! (4 * g + 2)%nat) (w !!! (4 * g + 1)%nat)
     (w !!! (4 * g)%nat).

(** A, B, C, D as the Intel code holds them: A in lane 3. *)
Definition vabcd (r : regs) : m128i := V4 (rD r) (rC r) (rB r) (rA r).

(** The registers after the first [4 * k] canonical rounds. *)
Definition rounds_upto (w : list Z) (r : regs) (k : nat) : regs :=
  foldl (spec_round w) r (seq 0 (4 * k)).

(** ** ARMv8 Crypto backend *)

(** [uint32x4_t]: four 32-bit lanes, [q0] lane 0 (bits 31:0). *)
Record uint32x4_t : Type := Q4 { q0 : Z; q1 : Z; q2 : Z; q3 : Z }.

(** The intrinsics, after the operation pseudo-code of the Arm architecture
    reference manual; they are compiler built-ins, not code of the
    repository. *)

(** The 32-bit value of four bytes in memory order on the host. *)
Definition host_combine (le : bool) (b0 b1 b2 b3 : Z) : Z :=
  if le then le_combine b0 b1 b2 b3 else le_combine b3 b2 b1 b0.

(** [vld1q_u32] on a [const uint32_t] pointer to [p + off]: four words in
    host byte order, sixteen bytes read, checked. *)
Definition vld1q_u32 (le : bool) (p : list Z) (off : nat) : option uint32x4_t :=
  if decide (off + 16 ≤ length p)%nat
  then let bs := take 16 (drop off p) in
       Some (Q4 (host_combine le (bs !!! 0%nat) (bs !!! 1%nat) (bs !!! 2%nat) (bs !!! 3%nat))
                (host_combine le (bs !!! 4%nat) (bs !!! 5%nat) (bs !!! 6%nat) (bs !!! 7%nat))
                (host_combine le (bs !!! 8%nat) (bs !!! 9%nat) (bs !!! 10%nat) (bs !!! 11%nat))
                (host_combine le (bs !!! 12%nat) (bs !!! 13%nat) (bs !!! 14%nat)
                              (bs !!! 15%nat)))
  else None.

(** [vreinterpretq_u8_u32] and [vreinterpretq_u32_u8] on a little-endian
    host; a [uint8x16_t] is its sixteen bytes, lane 0 first. *)
Definition vreinterpretq_u8_u32 (a : uint32x4_t) : list Z :=
  le_bytes (q0 a) ++ le_bytes (q1 a) ++ le_bytes (q2 a) ++ le_bytes (q3 a).

Definition vreinterpretq_u32_u8 (bs : list Z) : uint32x4_t :=
  Q4 (le_combine (bs !!! 0%nat) (bs !!! 1%nat) (bs !!! 2%nat) (bs !!! 3%nat))
     (le_combine (bs !!! 4%nat) (bs !!! 5%nat) (bs !!! 6%nat) (bs !!! 7%nat))
     (le_combine (bs !!! 8%nat) (bs !!! 9%nat) (bs !!! 10%nat) (bs !!! 11%nat))
     (le_combine (bs !!! 12%nat) (bs !!! 13%nat) (bs !!! 14%nat) (bs !!! 15%nat)).

(** [vrev32q_u8]: the bytes of each 32-bit word in reverse order. *)
Definition vrev32q_u8 (bs : list Z) : list Z :=
  [ bs !!! 3%nat; bs !!! 2%nat; bs !!! 1%nat; bs !!! 0%nat;
    bs !!! 7%nat; bs !!! 6%nat; bs !!! 5%nat; bs !!! 4%nat;
    bs !!! 11%nat; bs !!! 10%nat; bs !!! 9%nat; bs !!! 8%nat;
    bs !!! 15%nat; bs !!! 14%nat; bs !!! 13%nat; bs !!! 12%nat ].

Definition vdupq_n_u32 (x : Z) : uint32x4_t := Q4 (u32 x) (u32 x) (u32 x) (u32 x).

Definition vaddq_u32 (a b : uint32x4_t) : uint32x4_t :=
  Q4 (u32 (q0 a + q0 b)) (u32 (q1 a + q1 b)) (u32 (q2 a + q2 b)) (u32 (q3 a + q3 b)).

Definition vgetq_lane_u32 (a : uint32x4_t) (lane : Z) : Z :=
  if lane =? 0 then q0 a else if lane =? 1 then q1 a
  else if lane =? 2 then q2 a else q3 a.

(** [vsha1h_u32]: SHA1H, a rotation left by 30. *)
Definition vsha1h_u32 (hash_e : Z) : Z := u32_rol hash_e 30.

Definition SHAchoose (x y z : Z) : Z := Z.lxor (Z.land (Z.lxor y z) x) z.
Definition SHAparity (x y z : Z) : Z := Z.lxor (Z.lxor x y) z.
Definition SHAmajority (x y z : Z) : Z := Z.lor (Z.land x y) (Z.land (Z.lor x y) z).

(** One iteration of the loop of SHA1C, SHA1P and SHA1M:
    [t = f(X<63:32>, X<95:64>, X<127:96>)], [Y = Y + ROL(X<31:0>, 5) + t + W[e]],
    [X<63:32> = ROL(X<63:32>, 30)], then the 160 bits of [Y:X] rotated left
    by 32. *)
Definition sha1_hash_step (f : Z → Z → Z → Z) (XY : uint32x4_t * Z) (We : Z) :
    uint32x4_t * Z :=
  let '(X, Y) := XY in
  let t := f (q1 X) (q2 X) (q3 X) in
  let Y := u32 (Y + u32_rol (q0 X) 5 + t + We) in
  let X := Q4 (q0 X) (u32_rol (q1 X) 30) (q2 X) (q3 X) in
  (Q4 Y (q0 X) (q1 X) (q2 X), q3 X).

Definition sha1_hash (f : Z → Z → Z → Z) (hash_abcd : uint32x4_t) (hash_e : Z)
    (wk : uint32x4_t) : uint32x4_t :=
  fst (sha1_hash_step f (sha1_hash_step f (sha1_hash_step f
         (sha1_hash_step f (hash_abcd, hash_e) (q0 wk)) (q1 wk)) (q2 wk)) (q3 wk)).

Definition vsha1cq_u32 : uint32x4_t → Z → uint32x4_t → uint32x4_t := sha1_hash SHAchoose.
Definition vsha1pq_u32 : uint32x4_t → Z → uint32x4_t → uint32x4_t := sha1_hash SHAparity.
Definition vsha1mq_u32 : uint32x4_t → Z → uint32x4_t → uint32x4_t := sha1_hash SHAmajority.

(** [vsha1su0q_u32]: SHA1SU0, [operand2<63:0> : operand1<127:64>] xor
    [operand1] xor [operand3]. *)
Definition vsha1su0q_u32 (w0_3 w4_7 w8_11 : uint32x4_t) : uint32x4_t :=
  Q4 (Z.lxor (Z.lxor (q2 w0_3) (q0 w0_3)) (q0 w8_11))
     (Z.lxor (Z.lxor (q3 w0_3) (q1 w0_3)) (q1 w8_11))
     (Z.lxor (Z.lxor (q0 w4_7) (q2 w0_3)) (q2 w8_11))
     (Z.lxor (Z.lxor (q1 w4_7) (q3 w0_3)) (q3 w8_11)).

(** [vsha1su1q_u32]: SHA1SU1, [T = operand1 xor LSR(operand2, 32)], each lane
    of [T] rotated left by 1, lane 3 also xored with lane 0 of [T] rotated
    left by 2. *)
Definition vsha1su1q_u32 (tw0_3 w12_15 : uint32x4_t) : uint32x4_t :=
  let T0 := Z.lxor (q0 tw0_3) (q1 w12_15) in
  let T1 := Z.lxor (q1 tw0_3) (q2 w12_15) in
  let T2 := Z.lxor (q2 tw0_3) (q3 w12_15) in
  let T3 := Z.lxor (q3 tw0_3) 0 in
  Q4 (u32_rol T0 1) (u32_rol T1 1) (u32_rol T2 1)
     (Z.lxor (u32_rol T3 1) (u32_rol T0 2)).

(** The variables of the loop body of [arm_sha1_transform]. *)
Record arm_vars : Type :=
  ArmVars { av_ABCD : uint32x4_t; av_E0 : Z; av_E1 : Z;
            av_TMP0 : uint32x4_t; av_TMP1 : uint32x4_t;
            av_MSG0 : uint32x4_t; av_MSG1 : uint32x4_t;
            av_MSG2 : uint32x4_t; av_MSG3 : uint32x4_t }.

(** [Rounds 0-3]; [E1] is declared without a value and first assigned here. *)
Definition arm_rounds_0_3 (ABCD : uint32x4_t) (E0 : Z) (TMP0 TMP1 MSG0 MSG1 MSG2 MSG3 : uint32x4_t) :
    arm_vars :=
  let E1 := vsha1h_u32 (vgetq_lane_u32 ABCD 0) in
  let ABCD := vsha1cq_u32 ABCD E0 TMP0 in
  let TMP0 := vaddq_u32 MSG2 (vdupq_n_u32 K1) in
  let MSG0 := vsha1su0q_u32 MSG0 MSG1 MSG2 in
  ArmVars ABCD E0 E1 TMP0 TMP1 MSG0 MSG1 MSG2 MSG3.

(** [Rounds 4-7]. *)
Definition arm_rounds_4_7 (v : arm_vars) : arm_vars :=
  let '(ArmVars ABCD E0 E1 TMP0 TMP1 MSG0 MSG1 MSG2 MSG3) := v in
  let E0 := vsha1h_u32 (vgetq_lane_u32 ABCD 0) in
  let ABCD := vsha1cq_u32 ABCD E1 TMP1 in
  let TMP1 := vaddq_u32 MSG3 (vdupq_n_u32 K1) in
  let MSG0 := vsha1su1q_u32 MSG0 MSG3 in
  let MSG1 := vsha1su0q_u32 MSG1 MSG2 MSG3 in
  ArmVars ABCD E0 E1 TMP0 TMP1 MSG0 MSG1 MSG2 MSG3.

(** [Rounds 8-11]. *)
Definition arm_rounds_8_11 (v : arm_vars) : arm_vars :=
  let '(ArmVars ABCD E0 E1 TMP0 TMP1 MSG0 MSG1 MSG2 MSG3) := v in
  let E1 := vsha1h_u32 (vgetq_lane_u32 ABCD 0) in
  let ABCD := vsha1cq_u32 ABCD E0 TMP0 in
  let TMP0 := vaddq_u32 MSG0 (vdupq_n_u32 K1) in
  let MSG1 := vsha1su1q_u32 MSG1 MSG0 in
  let MSG2 := vsha1su0q_u32 MSG2 MSG3 MSG0 in
  ArmVars ABCD E0 E1 TMP0 TMP1 MSG0 MSG1 MSG2 MSG3.

(** [Rounds 12-15]. *)
Definition arm_rounds_12_15 (v : arm_vars) : arm_vars :=
  let '(ArmVars ABCD E0 E1 TMP0 TMP1 MSG0 MSG1 MSG2 MSG3) := v in
  let E0 := vsha1h_u32 (vgetq_lane_u32 ABCD 0) in
  let ABCD := vsha1cq_u32 ABCD E1 TMP1 in
  let TMP1 := vaddq_u32 MSG1 (vdupq_n_u32 K2) in
  let MSG2 := vsha1su1q_u32 MSG2 MSG1 in
  let MSG3 := vsha1su0q_u32 MSG3 MSG0 MSG1 in
  ArmVars ABCD E0 E1 TMP0 TMP1 MSG0 MSG1 MSG2 MSG3.

(** [Rounds 16-19]. *)
Definition arm_rounds_16_19 (v : arm_vars) : arm_vars :=
  let '(ArmVars ABCD E0 E1 TMP0 TMP1 MSG0 MSG1 MSG2 MSG3) := v in
  let E1 := vsha1h_u32 (vgetq_lane_u32 ABCD 0) in
  let ABCD := vsha1cq_u32 ABCD E0 TMP0 in
  let TMP0 := vaddq_u32 MSG2 (vdupq_n_u32 K2) in
  let MSG3 := vsha1su1q_u32 MSG3 MSG2 in
  let MSG0 := vsha1su0q_u32 MSG0 MSG1 MSG2 in
  ArmVars ABCD E0 E1 TMP0 TMP1 MSG0 MSG1 MSG2 MSG3.

(** [Rounds 20-23]. *)
Definition arm_rounds_20_23 (v : arm_vars) : arm_vars :=
  let '(ArmVars ABCD E0 E1 TMP0 TMP1 MSG0 MSG1 MSG2 MSG3) := v in
  let E0 := vsha1h_u32 (vgetq_lane_u32 ABCD 0) in
  let ABCD := vsha1pq_u32 ABCD E1 TMP1 in
  let TMP1 := vaddq_u32 MSG3 (vdupq_n_u32 K2) in
  let MSG0 := vsha1su1q_u32 MSG0 MSG3 in
  let MSG1 := vsha1su0q_u32 MSG1 MSG2 MSG3 in
  ArmVars ABCD E0 E1 TMP0 TMP1 MSG0 MSG1 MSG2 MSG3.

(** [Rounds 24-27]. *)
Definition arm_rounds_24_27 (v : arm_vars) : arm_vars :=
  let '(ArmVars ABCD E0 E1 TMP0 TMP1 MSG0 MSG1 MSG2 MSG3) := v in
  let E1 := vsha1h_u32 (vgetq_lane_u32 ABCD 0) in
  let ABCD := vsha1pq_u32 ABCD E0 TMP0 in
  let TMP0 := vaddq_u32 MSG0 (vdupq_n_u32 K2) in
  let MSG1 := vsha1su1q_u32 MSG1 MSG0 in
  let MSG2 := vsha1su0q_u32 MSG2 MSG3 MSG0 in
  ArmVars ABCD E0 E1 TMP0 TMP1 MSG0 MSG1 MSG2 MSG3.

(** [Rounds 28-31]. *)
Definition arm_rounds_28_31 (v : arm_vars) : arm_vars :=
  let '(ArmVars ABCD E0 E1 TMP0 TMP1 MSG0 MSG1 MSG2 MSG3) := v in
  let E0 := vsha1h_u32 (vgetq_lane_u32 ABCD 0) in
  let ABCD := vsha1pq_u32 ABCD E1 TMP1 in
  let TMP1 := vaddq_u32 MSG1 (vdupq_n_u32 K2) in
  let MSG2 := vsha1su1q_u32 MSG2 MSG1 in
  let MSG3 := vsha1su0q_u32 MSG3 MSG0 MSG1 in
  ArmVars ABCD E0 E1 TMP0 TMP1 MSG0 MSG1 MSG2 MSG3.

(** [Rounds 32-35]. *)
Definition arm_rounds_32_35 (v : arm_vars) : arm_vars :=
  let '(ArmVars ABCD E0 E1 TMP0 TMP1 MSG0 MSG1 MSG2 MSG3) := v in
  let E1 := vsha1h_u32 (vgetq_lane_u32 ABCD 0) in
  let ABCD := vsha1pq_u32 ABCD E0 TMP0 in
  let TMP0 := vaddq_u32 MSG2 (vdupq_n_u32 K3) in
  let MSG3 := vsha1su1q_u32 MSG3 MSG2 in
  let MSG0 := vsha1su0q_u32 MSG0 MSG1 MSG2 in
  ArmVars ABCD E0 E1 TMP0 TMP1 MSG0 MSG1 MSG2 MSG3.

(** [Rounds 36-39]. *)
Definition arm_rounds_36_39 (v : arm_vars) : arm_vars :=
  let '(ArmVars ABCD E0 E1 TMP0 TMP1 MSG0 MSG1 MSG2 MSG3) := v in
  let E0 := vsha1h_u32 (vgetq_lane_u32 ABCD 0) in
  let ABCD := vsha1pq_u32 ABCD E1 TMP1 in
  let TMP1 := vaddq_u32 MSG3 (vdupq_n_u32 K3) in
  let MSG0 := vsha1su1q_u32 MSG0 MSG3 in
  let MSG1 := vsha1su0q_u32 MSG1 MSG2 MSG3 in
  ArmVars ABCD E0 E1 TMP0 TMP1 MSG0 MSG1 MSG2 MSG3.

(** [Rounds 40-43]. *)
Definition arm_rounds_40_43 (v : arm_vars) : arm_vars :=
  let '(ArmVars ABCD E0 E1 TMP0 TMP1 MSG0 MSG1 MSG2 MSG3) := v in
  let E1 := vsha1h_u32 (vgetq_lane_u32 ABCD 0) in
  let ABCD := vsha1mq_u32 ABCD E0 TMP0 in
  let TMP0 := vaddq_u32 MSG0 (vdupq_n_u32 K3) in
  let MSG1 := vsha1su1q_u32 MSG1 MSG0 in
  let MSG2 := vsha1su0q_u32 MSG2 MSG3 MSG0 in
  ArmVars ABCD E0 E1 TMP0 TMP1 MSG0 MSG1 MSG2 MSG3.

(** [Rounds 44-47]. *)
Definition arm_rounds_44_47 (v : arm_vars) : arm_vars :=
  let '(ArmVars ABCD E0 E1 TMP0 TMP1 MSG0 MSG1 MSG2 MSG3) := v in
  let E0 := vsha1h_u32 (vgetq_lane_u32 ABCD 0) in
  let ABCD := vsha1mq_u32 ABCD E1 TMP1 in
  let TMP1 := vaddq_u32 MSG1 (vdupq_n_u32 K3) in
  let MSG2 := vsha1su1q_u32 MSG2 MSG1 in
  let MSG3 := vsha1su0q_u32 MSG3 MSG0 MSG1 in
  ArmVars ABCD E0 E1 TMP0 TMP1 MSG0 MSG1 MSG2 MSG3.

(** [Rounds 48-51]. *)
Definition arm_rounds_48_51 (v : arm_vars) : arm_vars :=
  let '(ArmVars ABCD E0 E1 TMP0 TMP1 MSG0 MSG1 MSG2 MSG3) := v in
  let E1 := vsha1h_u32 (vgetq_lane_u32 ABCD 0) in
  let ABCD := vsha1mq_u32 ABCD E0 TMP0 in
  let TMP0 := vaddq_u32 MSG2 (vdupq_n_u32 K3) in
  let MSG3 := vsha1su1q_u32 MSG3 MSG2 in
  let MSG0 := vsha1su0q_u32 MSG0 MSG1 MSG2 in
  ArmVars ABCD E0 E1 TMP0 TMP1 MSG0 MSG1 MSG2 MSG3.

(** [Rounds 52-55]. *)
Definition arm_rounds_52_55 (v : arm_vars) : arm_vars :=
  let '(ArmVars ABCD E0 E1 TMP0 TMP1 MSG0 MSG1 MSG2 MSG3) := v in
  let E0 := vsha1h_u32 (vgetq_lane_u32 ABCD 0) in
  let ABCD := vsha1mq_u32 ABCD E1 TMP1 in
  let TMP1 := vaddq_u32 MSG3 (vdupq_n_u32 K4) in
  let MSG0 := vsha1su1q_u32 MSG0 MSG3 in
  let MSG1 := vsha1su0q_u32 MSG1 MSG2 MSG3 in
  ArmVars ABCD E0 E1 TMP0 TMP1 MSG0 MSG1 MSG2 MSG3.

(** [Rounds 56-59]. *)
Definition arm_rounds_56_59 (v : arm_vars) : arm_vars :=
  let '(ArmVars ABCD E0 E1 TMP0 TMP1 MSG0 MSG1 MSG2 MSG3) := v in
  let E1 := vsha1h_u32 (vgetq_lane_u32 ABCD 0) in
  let ABCD := vsha1mq_u32 ABCD E0 TMP0 in
  let TMP0 := vaddq_u32 MSG0 (vdupq_n_u32 K4) in
  let MSG1 := vsha1su1q_u32 MSG1 MSG0 in
  let MSG2 := vsha1su0q_u32 MSG2 MSG3 MSG0 in
  ArmVars ABCD E0 E1 TMP0 TMP1 MSG0 MSG1 MSG2 MSG3.

(** [Rounds 60-63]. *)
Definition arm_rounds_60_63 (v : arm_vars) : arm_vars :=
  let '(ArmVars ABCD E0 E1 TMP0 TMP1 MSG0 MSG1 MSG2 MSG3) := v in
  let E0 := vsha1h_u32 (vgetq_lane_u32 ABCD 0) in
  let ABCD := vsha1pq_u32 ABCD E1 TMP1 in
  let TMP1 := vaddq_u32 MSG1 (vdupq_n_u32 K4) in
  let MSG2 := vsha1su1q_u32 MSG2 MSG1 in
  let MSG3 := vsha1su0q_u32 MSG3 MSG0 MSG1 in
  ArmVars ABCD E0 E1 TMP0 TMP1 MSG0 MSG1 MSG2 MSG3.

(** [Rounds 64-67]. *)
Definition arm_rounds_64_67 (v : arm_vars) : arm_vars :=
  let '(ArmVars ABCD E0 E1 TMP0 TMP1 MSG0 MSG1 MSG2 MSG3) := v in
  let E1 := vsha1h_u32 (vgetq_lane_u32 ABCD 0) in
  let ABCD := vsha1pq_u32 ABCD E0 TMP0 in
  let TMP0 := vaddq_u32 MSG2 (vdupq_n_u32 K4) in
  let MSG3 := vsha1su1q_u32 MSG3 MSG2 in
  let MSG0 := vsha1su0q_u32 MSG0 MSG1 MSG2 in
  ArmVars ABCD E0 E1 TMP0 TMP1 MSG0 MSG1 MSG2 MSG3.

(** [Rounds 68-71]. *)
Definition arm_rounds_68_71 (v : arm_vars) : arm_vars :=
  let '(ArmVars ABCD E0 E1 TMP0 TMP1 MSG0 MSG1 MSG2 MSG3) := v in
  let E0 := vsha1h_u32 (vgetq_lane_u32 ABCD 0) in
  let ABCD := vsha1pq_u32 ABCD E1 TMP1 in
  let TMP1 := vaddq_u32 MSG3 (vdupq_n_u32 K4) in
  let MSG0 := vsha1su1q_u32 MSG0 MSG3 in
  ArmVars ABCD E0 E1 TMP0 TMP1 MSG0 MSG1 MSG2 MSG3.

(** [Rounds 72-75]. *)
Definition arm_rounds_72_75 (v : arm_vars) : arm_vars :=
  let '(ArmVars ABCD E0 E1 TMP0 TMP1 MSG0 MSG1 MSG2 MSG3) := v in
  let E1 := vsha1h_u32 (vgetq_lane_u32 ABCD 0) in
  let ABCD := vsha1pq_u32 ABCD E0 TMP0 in
  ArmVars ABCD E0 E1 TMP0 TMP1 MSG0 MSG1 MSG2 MSG3.

(** [Rounds 76-79]. *)
Definition arm_rounds_76_79 (v : arm_vars) : arm_vars :=
  let '(ArmVars ABCD E0 E1 TMP0 TMP1 MSG0 MSG1 MSG2 MSG3) := v in
  let E0 := vsha1h_u32 (vgetq_lane_u32 ABCD 0) in
  let ABCD := vsha1pq_u32 ABCD E1 TMP1 in
  ArmVars ABCD E0 E1 TMP0 TMP1 MSG0 MSG1 MSG2 MSG3.

(** The reversal under [MANGO_LITTLE_ENDIAN]. *)
Definition arm_reverse (le : bool) (MSG : uint32x4_t) : uint32x4_t :=
  if le then vreinterpretq_u32_u8 (vrev32q_u8 (vreinterpretq_u8_u32 MSG)) else MSG.

(** One iteration of [while (blocks-- > 0)]: the four loads, the reversal on
    a little-endian host, the twenty groups of four rounds, the addition of
    the saved state, on [ABCD], [E0] and the [data] pointer. *)
Definition arm_block (le : bool) (ABCD : uint32x4_t) (E0 : Z) (data : list Z) :
    option (uint32x4_t * Z * list Z) :=
  let ABCD_SAVED := ABCD in
  let E0_SAVED := E0 in
  MSG0 ← vld1q_u32 le data 0;
  MSG1 ← vld1q_u32 le data 16;
  MSG2 ← vld1q_u32 le data 32;
  MSG3 ← vld1q_u32 le data 48;
  let data := drop 64 data in
  let MSG0 := arm_reverse le MSG0 in
  let MSG1 := arm_reverse le MSG1 in
  let MSG2 := arm_reverse le MSG2 in
  let MSG3 := arm_reverse le MSG3 in
  let TMP0 := vaddq_u32 MSG0 (vdupq_n_u32 K1) in
  let TMP1 := vaddq_u32 MSG1 (vdupq_n_u32 K1) in
  let v := arm_rounds_0_3 ABCD E0 TMP0 TMP1 MSG0 MSG1 MSG2 MSG3 in
  let v := arm_rounds_4_7 v in
  let v := arm_rounds_8_11 v in
  let v := arm_rounds_12_15 v in
  let v := arm_rounds_16_19 v in
  let v := arm_rounds_20_23 v in
  let v := arm_rounds_24_27 v in
  let v := arm_rounds_28_31 v in
  let v := arm_rounds_32_35 v in
  let v := arm_rounds_36_39 v in
  let v := arm_rounds_40_43 v in
  let v := arm_rounds_44_47 v in
  let v := arm_rounds_48_51 v in
  let v := arm_rounds_52_55 v in
  let v := arm_rounds_56_59 v in
  let v := arm_rounds_60_63 v in
  let v := arm_rounds_64_67 v in
  let v := arm_rounds_68_71 v in
  let v := arm_rounds_72_75 v in
  let v := arm_rounds_76_79 v in
  let E0 := u32 (av_E0 v + E0_SAVED) in
  let ABCD := vaddq_u32 ABCD_SAVED (av_ABCD v) in
  Some (ABCD, E0, data).

Fixpoint arm_loop (le : bool) (n : nat) (ABCD : uint32x4_t) (E0 : Z) (data : list Z) :
    option (uint32x4_t * Z * list Z) :=
  match n with
  | O => Some (ABCD, E0, data)
  | S n => '(ABCD, E0, data) ← arm_block le ABCD E0 data; arm_loop le n ABCD E0 data
  end.

(** [void arm_sha1_transform(u32 state[5], const u8* data, int blocks)]. *)
Definition arm_sha1_transform (le : bool) (state : SHA1) (data : list Z) (blocks : Z) :
    option SHA1 :=
  let ABCD := Q4 (data0 state) (data1 state) (data2 state) (data3 state) in
  let E0 := data4 state in
  '(ABCD, E0, data) ← arm_loop le (Z.to_nat blocks) ABCD E0 data;
  Some (MkSHA1 (q0 ABCD) (q1 ABCD) (q2 ABCD) (q3 ABCD) E0).

(** The words [4g .. 4g+3] of a schedule as the ARM code holds them: the
    first word in lane 0. *)
Definition Wq (w : list Z) (g : nat) : uint32x4_t :=
  Q4 (w !!! (4 * g)%nat) (w !!! (4 * g + 1)%nat) (w !!! (4 * g + 2)%nat)
     (w !!! (4 * g + 3)%nat).

(** A, B, C, D as the ARM code holds them: A in lane 0. *)
Definition qabcd (r : regs) : uint32x4_t := Q4 (rA r) (rB r) (rC r) (rD r).

(** ** Backend selection *)

(** The transform [sha1] selects ("select implementation"): the portable one,
    replaced under [__ARM_FEATURE_CRYPTO] by the ARM one when the CPU flags
    have [ARM_SHA1], else under [MANGO_ENABLE_SHA] by the Intel one when they
    have [INTEL_SHA].  [getCPUFlags()] and the two masks come from
    cpuinfo.hpp, not under src/: they are the parameters [cpu_flags],
    [ARM_SHA1] and [INTEL_SHA].  [hash_addr] is the address of [hash.data],
    the pointer every call of the transform is given. *)
Definition select_transform (ARM_FEATURE_CRYPTO MANGO_ENABLE_SHA MANGO_LITTLE_ENDIAN : bool)
    (cpu_flags ARM_SHA1 INTEL_SHA hash_addr : Z) (stale_w : nat → Z) : transform_fn :=
  let transform := generic_sha1_transform stale_w in
  if ARM_FEATURE_CRYPTO then
    if negb (Z.land cpu_flags ARM_SHA1 =? 0)
    then arm_sha1_transform MANGO_LITTLE_ENDIAN else transform
  else if MANGO_ENABLE_SHA then
    if negb (Z.land cpu_flags INTEL_SHA =? 0)
    then intel_sha1_transform hash_addr else transform
  else transform.

(** [SHA1 sha1(ConstMemory memory)] on any build and host. *)
Definition sha1_selected (ARM_FEATURE_CRYPTO MANGO_ENABLE_SHA MANGO_LITTLE_ENDIAN : bool)
    (cpu_flags ARM_SHA1 INTEL_SHA hash_addr : Z) (stale_w stale_block : nat → Z)
    (memory : list Z) : option SHA1 :=
  sha1_with MANGO_LITTLE_ENDIAN
    (select_transform ARM_FEATURE_CRYPTO MANGO_ENABLE_SHA MANGO_LITTLE_ENDIAN
                      cpu_flags ARM_SHA1 INTEL_SHA hash_addr stale_w)
    stale_block memory.

(** The build and the CPU flags make [sha1] select the Intel transform. *)
Definition intel_selected (ARM_FEATURE_CRYPTO MANGO_ENABLE_SHA : bool)
    (cpu_flags INTEL_SHA : Z) : bool :=
  negb ARM_FEATURE_CRYPTO && MANGO_ENABLE_SHA && negb (Z.land cpu_flags INTEL_SHA =? 0).

(** * Properties *)

(** ** The option monad and checked accesses *)

Lemma uload32be_is_Some (p : list Z) (off : nat) :
  is_Some (uload32be p off) ↔ (off + 3 < length p)%nat.
Proof.
  unfold uload32be. split.
  - intros [v Hv].
    destruct (p !! off) as [b0|] eqn:E0; simpl in Hv; [|discriminate].
    destruct (p !! (off + 1)%nat) as [b1|] eqn:E1; simpl in Hv; [|discriminate].
    destruct (p !! (off + 2)%nat) as [b2|] eqn:E2; simpl in Hv; [|discriminate].
    destruct (p !! (off + 3)%nat) as [b3|] eqn:E3; simpl in Hv; [|discriminate].
    apply lookup_lt_Some in E3. exact E3.
  - intros Hlt.
    destruct (lookup_lt_is_Some_2 p off) as [b0 E0]; [lia|].
    destruct (lookup_lt_is_Some_2 p (off + 1)) as [b1 E1]; [lia|].
    destruct (lookup_lt_is_Some_2 p (off + 2)) as [b2 E2]; [lia|].
    destruct (lookup_lt_is_Some_2 p (off + 3)) as [b3 E3]; [lia|].
    rewrite E0, E1, E2, E3. simpl. eauto.
Qed.

(** A load only looks at the four bytes it names. *)
Lemma uload32be_take (p : list Z) (off n : nat) :
  (off + 3 < n)%nat → uload32be (take n p) off = uload32be p off.
Proof.
  intros Hlt. unfold uload32be.
  rewrite !lookup_take_lt by lia. reflexivity.
Qed.

Lemma uload32be_app_l (p q : list Z) (off : nat) :
  (off + 3 < length p)%nat → uload32be (p ++ q) off = uload32be p off.
Proof.
  intros Hlt. unfold uload32be.
  rewrite !lookup_app_l by lia. reflexivity.
Qed.

(** ** The message schedule *)

Lemma foldl_None {A B} (f : option A → B → option A) (l : list B) :
  (∀ b, f None b = None) → foldl f None l = None.
Proof. intros Hf. induction l as [|b l IH]; simpl; [reflexivity|]. rewrite Hf. exact IH. Qed.

Lemma foldl_ext_in {A B} (f g : A → B → A) (l : list B) (a : A) :
  (∀ a b, b ∈ l → f a b = g a b) → foldl f a l = foldl g a l.
Proof.
  revert a. induction l as [|b l IH]; intros a Hfg; simpl; [reflexivity|].
  rewrite Hfg by (left). apply IH. intros a' b' Hin. apply Hfg. right. exact Hin.
Qed.

Lemma foldl_Some_lift {A B} (f : A → B → A) (l : list B) (a : A) :
  foldl (λ oa b, a ← oa; Some (f a b)) (Some a) l = Some (foldl f a l).
Proof. revert a. induction l as [|b l IH]; intros a; simpl; [reflexivity|]. apply IH. Qed.

(** The loading loop is the first sixteen in-place steps. *)
Lemma load_words_steps (data w : list Z) :
  load_words data w = foldl (step_in_place data) (Some w) (seq 0 16).
Proof.
  unfold load_words. change (for_indices 16 0 16 1) with (seq 0 16).
  apply foldl_ext_in. intros ow i Hin.
  apply elem_of_seq in Hin. unfold step_in_place, next_word.
  destruct (Nat.ltb_spec i 16); [reflexivity | lia].
Qed.

(** One pass of the unrolled body is eight consecutive single steps: the
    words [w[i+0]] to [w[i+4]] it reads back are the ones just stored. *)
Lemma expand8_steps (w : list Z) (i : nat) :
  (16 ≤ i)%nat →
  expand8 w i = foldl (λ w j, <[j := schedule_word w j]> w) w (seq i 8).
Proof.
  intros Hi. unfold expand8.
  change (λ w j, <[j := schedule_word w j]> w)
    with (λ w j, w_assign w j (j - 3) (j - 8) (j - 14) (j - 16)).
  cbn [seq foldl]. repeat (f_equal; try lia).
Qed.

Lemma expand_words_steps (w : list Z) :
  expand_words w = foldl (λ w j, <[j := schedule_word w j]> w) w (seq 16 64).
Proof.
  unfold expand_words.
  change (for_indices 80 16 80 8) with [16; 24; 32; 40; 48; 56; 64; 72]%nat.
  change (seq 16 64) with
    (seq 16 8 ++ seq 24 8 ++ seq 32 8 ++ seq 40 8 ++ seq 48 8 ++ seq 56 8 ++
     seq 64 8 ++ seq 72 8).
  rewrite !foldl_app. cbn [foldl].
  rewrite !expand8_steps by lia. reflexivity.
Qed.

(** The two loops of the source together are eighty in-place steps. *)
Lemma schedule_steps (stale : nat → Z) (data : list Z) :
  schedule stale data = foldl (step_in_place data) (Some (w_uninit stale)) (seq 0 80).
Proof.
  unfold schedule. rewrite load_words_steps.
  change (seq 0 80) with (seq 0 16 ++ seq 16 64). rewrite foldl_app.
  destruct (foldl (step_in_place data) (Some (w_uninit stale)) (seq 0 16)) as [w|];
    cbn [mbind option_bind].
  - rewrite expand_words_steps, <- foldl_Some_lift.
    apply foldl_ext_in. intros ow i Hin. apply elem_of_seq in Hin.
    unfold step_in_place, next_word.
    destruct (Nat.ltb_spec i 16); [lia | reflexivity].
  - symmetry. apply foldl_None. reflexivity.
Qed.

Lemma schedule_word_app (p q : list Z) (i : nat) :
  (16 ≤ i ≤ length p)%nat → schedule_word (p ++ q) i = schedule_word p i.
Proof.
  intros Hi. unfold schedule_word.
  rewrite !lookup_total_app_l by lia. reflexivity.
Qed.

Lemma next_word_app (data p q : list Z) (i : nat) :
  (i ≤ length p)%nat → next_word data (p ++ q) i = next_word data p i.
Proof.
  intros Hi. unfold next_word. destruct (Nat.ltb_spec i 16); [reflexivity|].
  rewrite schedule_word_app by lia. reflexivity.
Qed.

Lemma spec_prefix_length (data : list Z) (k : nat) (p : list Z) :
  foldl (step_append data) (Some []) (seq 0 k) = Some p → length p = k.
Proof.
  revert p. induction k as [|k IH]; intros p.
  - simpl. intros [= <-]. reflexivity.
  - rewrite seq_S, foldl_app. simpl.
    destruct (foldl (step_append data) (Some []) (seq 0 k)) as [p'|]; simpl; [|discriminate].
    destruct (next_word data p' k) as [v|]; simpl; [|discriminate].
    intros [= <-]. rewrite length_app, (IH p' eq_refl). simpl. lia.
Qed.

(** After [k] steps the array holds the [k] words of the canonical schedule,
    followed by what is left of its first contents. *)
Lemma steps_in_place_append (data w0 : list Z) (k : nat) :
  (k ≤ length w0)%nat →
  foldl (step_in_place data) (Some w0) (seq 0 k) =
  (p ← foldl (step_append data) (Some []) (seq 0 k); Some (p ++ drop k w0)).
Proof.
  induction k as [|k IH]; intros Hk.
  - simpl. rewrite drop_0. reflexivity.
  - rewrite seq_S, !foldl_app. rewrite IH by lia. simpl.
    destruct (foldl (step_append data) (Some []) (seq 0 k)) as [p|] eqn:Ep; simpl; [|reflexivity].
    pose proof (spec_prefix_length _ _ _ Ep) as Hp.
    rewrite next_word_app by lia.
    destruct (next_word data p k) as [v|]; simpl; [|reflexivity].
    f_equal. rewrite <- Hp at 1.
    rewrite (insert_app_r_alt p) by lia. rewrite Nat.sub_diag.
    destruct (drop k w0) as [|x rest] eqn:Ed.
    { apply (f_equal length) in Ed. rewrite length_drop in Ed. simpl in Ed. lia. }
    simpl. rewrite <- app_assoc. simpl. do 2 f_equal.
    rewrite <- Nat.add_1_r, <- drop_drop, Ed. reflexivity.
Qed.

Lemma length_w_uninit (stale : nat → Z) : length (w_uninit stale) = 80%nat.
Proof. unfold w_uninit. rewrite length_fmap, length_seq. reflexivity. Qed.

(** The schedule of the source is the canonical one, whatever the array held
    before. *)
Lemma schedule_is_spec (stale : nat → Z) (data : list Z) :
  schedule stale data = schedule_spec data.
Proof.
  rewrite schedule_steps, steps_in_place_append by (rewrite length_w_uninit; lia).
  unfold schedule_spec. fold (step_append data).
  destruct (foldl (step_append data) (Some []) (seq 0 80)) as [p|] eqn:Ep;
    cbn [mbind option_bind]; [|reflexivity].
  rewrite drop_ge by (rewrite length_w_uninit; lia).
  rewrite app_nil_r. reflexivity.
Qed.

Lemma spec_prefix_is_Some (data : list Z) (k : nat) :
  (64 ≤ length data)%nat → is_Some (foldl (step_append data) (Some []) (seq 0 k)).
Proof.
  intros Hlen. induction k as [|k [p Hp]].
  - simpl. eauto.
  - rewrite seq_S, foldl_app, Hp. simpl. unfold next_word.
    destruct (Nat.ltb_spec k 16) as [Hk|Hk]; simpl; [|eauto].
    destruct (proj2 (uload32be_is_Some data (k * 4))) as [v Hv]; [lia|].
    rewrite Hv. simpl. eauto.
Qed.

Lemma spec_prefix_words (data : list Z) (k : nat) (p : list Z) :
  foldl (step_append data) (Some []) (seq 0 k) = Some p →
  (∀ i, (i < k)%nat → (i < 16)%nat → uload32be data (i * 4) = Some (p !!! i)) ∧
  (∀ i, (16 ≤ i < k)%nat → p !!! i = schedule_word p i).
Proof.
  revert p. induction k as [|k IH]; intros p.
  - intros _. split; intros; lia.
  - rewrite seq_S, foldl_app. simpl.
    destruct (foldl (step_append data) (Some []) (seq 0 k)) as [p'|] eqn:Ep; simpl; [|discriminate].
    pose proof (spec_prefix_length _ _ _ Ep) as Hlen.
    destruct (IH p' eq_refl) as [IHl IHr].
    destruct (next_word data p' k) as [v|] eqn:Ev; simpl; [|discriminate].
    intros [= <-]. split.
    + intros i Hi Hi16. destruct (decide (i = k)) as [->|Hne].
      * rewrite <- Hlen at 2. rewrite list_lookup_total_middle by reflexivity.
        unfold next_word in Ev. destruct (Nat.ltb_spec k 16); [exact Ev | lia].
      * rewrite lookup_total_app_l by lia. apply IHl; lia.
    + intros i Hi. rewrite schedule_word_app by lia.
      destruct (decide (i = k)) as [->|Hne].
      * rewrite <- Hlen at 1. rewrite list_lookup_total_middle by reflexivity.
        unfold next_word in Ev. destruct (Nat.ltb_spec k 16); [lia|].
        congruence.
      * rewrite lookup_total_app_l by lia. apply IHr; lia.
Qed.

(** C3. For every block the schedule built by the two loops of
    [generic_sha1_transform] is the canonical SHA-1 schedule computed one word
    at a time; it exists as soon as the block has its 64 bytes; its first 16
    words are the big-endian words of the block and every word from 16 to 79
    is rotate_left(w[i-3] xor w[i-8] xor w[i-14] xor w[i-16], 1). *)
Theorem schedule_recurrence (stale : nat → Z) (data : list Z) :
  schedule stale data = schedule_spec data ∧
  ((64 ≤ length data)%nat → is_Some (schedule stale data)) ∧
  (∀ w, schedule stale data = Some w →
     length w = 80%nat ∧
     (∀ i, (i < 16)%nat → uload32be data (i * 4) = Some (w !!! i)) ∧
     (∀ i, (16 ≤ i < 80)%nat →
        w !!! i = u32_rol (Z.lxor (Z.lxor (Z.lxor (w !!! (i - 3)%nat) (w !!! (i - 8)%nat))
                                           (w !!! (i - 14)%nat)) (w !!! (i - 16)%nat)) 1)).
Proof.
  split; [apply schedule_is_spec|].
  rewrite schedule_is_spec. unfold schedule_spec. fold (step_append data).
  split.
  - apply spec_prefix_is_Some.
  - intros w Hw. split; [exact (spec_prefix_length _ _ _ Hw)|].
    destruct (spec_prefix_words _ _ _ Hw) as [Hl Hr]. split.
    + intros i Hi. apply Hl; lia.
    + intros i Hi. apply Hr. exact Hi.
Qed.

Lemma schedule_recurrence_block :
  (64 ≤ length (replicate 64 97))%nat ∧ is_Some (schedule (λ _, 0) (replicate 64 97)).
Proof.
  split; [vm_compute; lia|].
  exact (proj1 (proj2 (schedule_recurrence (λ _, 0) (replicate 64 97)))
           ltac:(vm_compute; lia)).
Defined.

(** ** The block loop *)

(* The eighty rounds stay folded while the loop is reasoned about. *)
Opaque rounds.

Lemma schedule_take (stale : nat → Z) (data : list Z) :
  schedule stale (take 64 data) = schedule stale data.
Proof.
  rewrite !schedule_is_spec. unfold schedule_spec.
  apply foldl_ext_in. intros ow i Hin. apply elem_of_seq in Hin.
  destruct ow as [w|]; cbn [mbind option_bind]; [|reflexivity].
  unfold next_word. destruct (Nat.ltb_spec i 16); [|reflexivity].
  rewrite uload32be_take by lia. reflexivity.
Qed.

Lemma one_block_take (stale : nat → Z) (digest : SHA1) (data : list Z) :
  one_block stale digest (take 64 data) = one_block stale digest data.
Proof. unfold one_block. rewrite schedule_take. reflexivity. Qed.

Lemma transform_block_one_block (stale : nat → Z) (digest : SHA1) (data : list Z) :
  transform_block stale (LoopState digest (regs_of digest) data) =
  (digest' ← one_block stale digest data;
   Some (LoopState digest' (regs_of digest') (drop 64 data))).
Proof.
  unfold transform_block, one_block. cbn [ls_data ls_regs ls_digest].
  destruct (schedule stale data) as [w|]; reflexivity.
Qed.

(** The loop processes the blocks one at a time, in input order; the
    registers it carries are the digest it has just stored. *)
Lemma transform_loop_one_at_a_time (stale : nat → Z) (n : nat) :
  ∀ (digest : SHA1) (data : list Z),
    transform_loop stale n (LoopState digest (regs_of digest) data) =
    (digest' ← blocks_one_at_a_time stale n digest data;
     Some (LoopState digest' (regs_of digest') (drop (64 * n) data))).
Proof.
  induction n as [|n IH]; intros digest data.
  - cbn [transform_loop blocks_one_at_a_time Nat.add mbind option_bind].
    rewrite drop_0. reflexivity.
  - cbn [transform_loop blocks_one_at_a_time].
    rewrite transform_block_one_block, one_block_take.
    destruct (one_block stale digest data) as [digest'|]; cbn [mbind option_bind]; [|reflexivity].
    rewrite IH.
    destruct (blocks_one_at_a_time stale n digest' (drop 64 data)) as [d|]; cbn [mbind option_bind]; [|reflexivity].
    rewrite drop_drop. do 3 f_equal. lia.
Qed.

Lemma transform_one_at_a_time (stale : nat → Z) (digest : SHA1) (data : list Z) (blocks : Z) :
  generic_sha1_transform stale digest data blocks =
  blocks_one_at_a_time stale (Z.to_nat blocks) digest data.
Proof.
  unfold generic_sha1_transform. fold (regs_of digest).
  rewrite transform_loop_one_at_a_time.
  destruct (blocks_one_at_a_time stale (Z.to_nat blocks) digest data); reflexivity.
Qed.

Lemma blocks_one_at_a_time_app (stale : nat → Z) (m n : nat) :
  ∀ (digest : SHA1) (data : list Z),
    blocks_one_at_a_time stale (m + n) digest data =
    (digest' ← blocks_one_at_a_time stale m digest data;
     blocks_one_at_a_time stale n digest' (drop (64 * m) data)).
Proof.
  induction m as [|m IH]; intros digest data.
  - cbn [transform_loop blocks_one_at_a_time Nat.add mbind option_bind].
    rewrite drop_0. reflexivity.
  - cbn [Nat.add blocks_one_at_a_time].
    destruct (one_block stale digest (take 64 data)) as [digest'|]; cbn [mbind option_bind]; [|reflexivity].
    rewrite IH.
    destruct (blocks_one_at_a_time stale m digest' (drop 64 data)) as [d|]; cbn [mbind option_bind]; [|reflexivity].
    rewrite drop_drop. do 2 f_equal. lia.
Qed.


Lemma schedule_is_Some (stale : nat → Z) (data : list Z) :
  is_Some (schedule stale data) ↔ (64 ≤ length data)%nat.
Proof.
  rewrite schedule_is_spec. unfold schedule_spec. fold (step_append data). split.
  - intros [w Hw]. destruct (spec_prefix_words _ _ _ Hw) as [Hl _].
    assert (is_Some (uload32be data (15 * 4))) as Hs by (rewrite Hl by lia; eauto).
    apply uload32be_is_Some in Hs. lia.
  - apply spec_prefix_is_Some.
Qed.

Lemma one_block_is_Some (stale : nat → Z) (digest : SHA1) (data : list Z) :
  is_Some (one_block stale digest data) ↔ (64 ≤ length data)%nat.
Proof.
  rewrite <- (schedule_is_Some stale). unfold one_block.
  destruct (schedule stale data) as [w|]; cbn [mbind option_bind]; split;
    intros [x Hx]; try discriminate; eauto.
Qed.

Lemma blocks_is_Some (stale : nat → Z) (n : nat) :
  ∀ (digest : SHA1) (data : list Z),
    (64 * n ≤ length data)%nat → is_Some (blocks_one_at_a_time stale n digest data).
Proof.
  induction n as [|n IH]; intros digest data Hlen; cbn [blocks_one_at_a_time].
  - eauto.
  - rewrite one_block_take.
    destruct (proj2 (one_block_is_Some stale digest data)) as [d Hd]; [lia|].
    rewrite Hd. cbn [mbind option_bind]. apply IH. rewrite length_drop. lia.
Qed.

(** With too few bytes behind the pointer a checked read does fail. *)
Lemma blocks_short_None (stale : nat → Z) (n : nat) :
  ∀ (digest : SHA1) (data : list Z),
    (length data < 64 * n)%nat → blocks_one_at_a_time stale n digest data = None.
Proof.
  induction n as [|n IH]; intros digest data Hlen; cbn [blocks_one_at_a_time]; [lia|].
  rewrite one_block_take.
  destruct (one_block stale digest data) as [d|] eqn:Ed; cbn [mbind option_bind]; [|reflexivity].
  assert (64 ≤ length data)%nat by (apply (one_block_is_Some stale digest); eauto).
  apply IH. rewrite length_drop. lia.
Qed.

Lemma blocks_take (stale : nat → Z) (n : nat) :
  ∀ (digest : SHA1) (data : list Z) (k : nat),
    (64 * n ≤ k)%nat →
    blocks_one_at_a_time stale n digest (take k data) = blocks_one_at_a_time stale n digest data.
Proof.
  induction n as [|n IH]; intros digest data k Hk; cbn [blocks_one_at_a_time]; [reflexivity|].
  rewrite take_take, Nat.min_l by lia.
  destruct (one_block stale digest (take 64 data)) as [d|]; cbn [mbind option_bind]; [|reflexivity].
  replace k with (64 + (k - 64))%nat at 1 by lia.
  rewrite <- take_drop_commute. apply IH. lia.
Qed.

(** C9. With [block_count * 64] bytes behind [data], no checked read of the
    generic backend fails: the call returns a state, and it returns the same
    state when everything after the first [block_count * 64] bytes is cut
    off, so no read reaches an index at or beyond that bound. *)
Theorem transform_reads_in_bounds (stale : nat → Z) (digest : SHA1) (data : list Z) (blocks : Z) :
  64 * blocks ≤ Z.of_nat (length data) →
  is_Some (generic_sha1_transform stale digest data blocks) ∧
  generic_sha1_transform stale digest (take (Z.to_nat (64 * blocks)) data) blocks =
  generic_sha1_transform stale digest data blocks.
Proof.
  intros Hlen. rewrite !transform_one_at_a_time. split.
  - apply blocks_is_Some. lia.
  - apply blocks_take. lia.
Qed.

Lemma transform_reads_in_bounds_abc :
  64 * 1 ≤ Z.of_nat (length (replicate 64 97)) ∧
  is_Some (generic_sha1_transform (λ _, 0) sha1_init (replicate 64 97) 1) ∧
  generic_sha1_transform (λ _, 0) sha1_init (take (Z.to_nat (64 * 1)) (replicate 64 97)) 1 =
  generic_sha1_transform (λ _, 0) sha1_init (replicate 64 97) 1.
Proof.
  split; [vm_compute; discriminate|].
  apply (transform_reads_in_bounds (λ _, 0) sha1_init (replicate 64 97) 1).
  vm_compute. discriminate.
Defined.

(** C7. A call with [m + n] blocks is a call with the first [m] blocks
    followed by a call on the resulting state with the remaining [n], and both
    are the blocks processed one at a time in input order, each block adding
    the registers after its eighty rounds into the state it started from. *)
Theorem transform_split (stale : nat → Z) (digest : SHA1) (data : list Z) (m n : Z) :
  0 ≤ m → 0 ≤ n →
  generic_sha1_transform stale digest data (m + n) =
    (digest' ← generic_sha1_transform stale digest data m;
     generic_sha1_transform stale digest' (drop (Z.to_nat (64 * m)) data) n) ∧
  generic_sha1_transform stale digest data (m + n) =
    blocks_one_at_a_time stale (Z.to_nat (m + n)) digest data ∧
  generic_sha1_transform stale digest data 1 =
    (w ← schedule stale data;
     let r := rounds w (Regs (data0 digest) (data1 digest) (data2 digest)
                             (data3 digest) (data4 digest)) in
     Some (MkSHA1 (u32 (data0 digest + rA r)) (u32 (data1 digest + rB r))
                  (u32 (data2 digest + rC r)) (u32 (data3 digest + rD r))
                  (u32 (data4 digest + rE r)))).
Proof.
  intros Hm Hn. split; [|split].
  - rewrite transform_one_at_a_time, Z2Nat.inj_add, blocks_one_at_a_time_app by lia.
    rewrite transform_one_at_a_time.
    destruct (blocks_one_at_a_time stale (Z.to_nat m) digest data) as [d|];
      cbn [mbind option_bind]; [|reflexivity].
    rewrite transform_one_at_a_time. do 2 f_equal. lia.
  - apply transform_one_at_a_time.
  - rewrite transform_one_at_a_time.
    change (Z.to_nat 1) with 1%nat. cbn [blocks_one_at_a_time].
    rewrite one_block_take. unfold one_block.
    destruct (schedule stale data) as [w|]; reflexivity.
Qed.

Lemma transform_split_two_blocks :
  0 ≤ 1 ∧ 0 ≤ 1 ∧
  generic_sha1_transform (λ _, 0) sha1_init (replicate 128 97) (1 + 1) =
    (digest' ← generic_sha1_transform (λ _, 0) sha1_init (replicate 128 97) 1;
     generic_sha1_transform (λ _, 0) digest' (drop (Z.to_nat (64 * 1)) (replicate 128 97)) 1).
Proof.
  split; [lia|]. split; [lia|].
  exact (proj1 (transform_split (λ _, 0) sha1_init (replicate 128 97) 1 1
                  ltac:(lia) ltac:(lia))).
Defined.

(** ** The eighty rounds *)

Transparent rounds.

Lemma u32_range_u32 (x : Z) : u32_range (u32 x).
Proof. unfold u32_range, u32. apply Z.mod_pos_bound. reflexivity. Qed.

Lemma u32_range_high (x : Z) (n : Z) : u32_range x → 32 ≤ n → Z.testbit x n = false.
Proof.
  intros Hx Hn. rewrite <- (Z.mod_small x (2 ^ 32)) by exact Hx.
  apply Z.mod_pow2_bits_high. lia.
Qed.

Lemma u32_range_bits (x : Z) :
  0 ≤ x → (∀ n, 32 ≤ n → Z.testbit x n = false) → u32_range x.
Proof.
  intros H0 Hhigh. split; [exact H0|].
  destruct (Z.eq_dec x 0) as [->|Hne]; [reflexivity|].
  apply Z.log2_lt_pow2; [lia|].
  destruct (Z_lt_le_dec (Z.log2 x) 32) as [Hlt|Hge]; [exact Hlt|].
  pose proof (Z.bit_log2 x ltac:(lia)) as Hb. rewrite Hhigh in Hb by exact Hge. discriminate.
Qed.

Lemma u32_rol_range (x c : Z) : u32_range x → 0 < c < 32 → u32_range (u32_rol x c).
Proof.
  intros Hx Hc. unfold u32_rol. apply u32_range_bits.
  - apply Z.lor_nonneg. split.
    + apply Z.mod_pos_bound. reflexivity.
    + apply Z.shiftr_nonneg. apply Hx.
  - intros n Hn. rewrite Z.lor_spec.
    rewrite (u32_range_high _ n (u32_range_u32 _) Hn).
    rewrite Z.shiftr_spec by lia.
    rewrite (u32_range_high x) by (assumption || lia). reflexivity.
Qed.

Lemma u32_add_chain (e f m k r : Z) :
  u32 (e + u32 (u32 (u32 (f + m) + k) + r)) = u32 (e + f + m + k + r).
Proof.
  unfold u32. change (2 ^ 32) with 4294967296.
  Z.div_mod_to_equations. lia.
Qed.

(** [u32_select(B, C, D)] is "(B and C) or ((not B) and D)". *)
Lemma u32_select_choose (B C D : Z) :
  u32_range D → u32_select B C D = f_choose B C D.
Proof.
  intros HD. unfold u32_select, f_choose, u32_not.
  apply Z.bits_inj'. intros n Hn.
  rewrite Z.lxor_spec, Z.land_spec, Z.lxor_spec, Z.lor_spec, !Z.land_spec, Z.lxor_spec.
  destruct (Z_lt_le_dec n 32) as [Hlt|Hge].
  - change 0xFFFFFFFF with (Z.ones 32). rewrite Z.ones_spec_low by lia.
    destruct (Z.testbit B n), (Z.testbit C n), (Z.testbit D n); reflexivity.
  - rewrite (u32_range_high D n HD Hge).
    destruct (Z.testbit B n), (Z.testbit C n); simpl; try reflexivity.
    all: rewrite ?Bool.andb_false_r; reflexivity.
Qed.

(** [u32_select(B ^ C, D, C)] is "(B and C) or (B and D) or (C and D)". *)
Lemma u32_select_majority (B C D : Z) :
  u32_select (Z.lxor B C) D C = f_majority B C D.
Proof.
  unfold u32_select, f_majority.
  apply Z.bits_inj'. intros n Hn.
  rewrite !Z.lxor_spec, !Z.lor_spec, !Z.land_spec, !Z.lxor_spec.
  destruct (Z.testbit B n), (Z.testbit C n), (Z.testbit D n); reflexivity.
Qed.

Lemma view1_call (F : round_fn) (r : regs) (m : Z) :
  view1 (call_ABCDE F r m) = rotating_call F r m.
Proof.
  unfold call_ABCDE, rotating_call, view1.
  destruct (F (rA r) (rB r) (rC r) (rD r) (rE r) m) as [x y]. reflexivity.
Qed.

Lemma view2_call (F : round_fn) (r : regs) (m : Z) :
  view2 (call_EABCD F r m) = rotating_call F (view1 r) m.
Proof.
  unfold call_EABCD, rotating_call, view1, view2. cbn [rA rB rC rD rE].
  destruct (F (rE r) (rA r) (rB r) (rC r) (rD r) m) as [x y]. reflexivity.
Qed.

Lemma view3_call (F : round_fn) (r : regs) (m : Z) :
  view3 (call_DEABC F r m) = rotating_call F (view2 r) m.
Proof.
  unfold call_DEABC, rotating_call, view2, view3. cbn [rA rB rC rD rE].
  destruct (F (rD r) (rE r) (rA r) (rB r) (rC r) m) as [x y]. reflexivity.
Qed.

Lemma view4_call (F : round_fn) (r : regs) (m : Z) :
  view4 (call_CDEAB F r m) = rotating_call F (view3 r) m.
Proof.
  unfold call_CDEAB, rotating_call, view3, view4. cbn [rA rB rC rD rE].
  destruct (F (rC r) (rD r) (rE r) (rA r) (rB r) m) as [x y]. reflexivity.
Qed.

Lemma view0_call (F : round_fn) (r : regs) (m : Z) :
  call_BCDEA F r m = rotating_call F (view4 r) m.
Proof.
  unfold call_BCDEA, rotating_call, view4. cbn [rA rB rC rD rE].
  destruct (F (rB r) (rC r) (rD r) (rE r) (rA r) m) as [x y]. reflexivity.
Qed.

(** The eighty calls, with their five argument orders, are eighty rounds on a
    rotating quintet. *)
Lemma rounds_rotating (w : list Z) (r : regs) :
  rounds w r = foldl (code_round w) r (seq 0 80).
Proof.
  unfold rounds.
  rewrite !view0_call, !view4_call, !view3_call, !view2_call, !view1_call.
  cbv [seq foldl code_round code_F Nat.ltb Nat.leb]. reflexivity.
Qed.

Lemma code_round_is_spec_round (w : list Z) (r : regs) (i : nat) :
  regs_ok r → code_round w r i = spec_round w r i ∧ regs_ok (spec_round w r i).
Proof.
  intros (HA & HB & HC & HD & HE). split.
  - unfold code_round, spec_round, rotating_call, code_F, round_F, round_K.
    destruct (i <? 20)%nat; [|destruct (i <? 40)%nat; [|destruct (i <? 60)%nat]].
    + unfold F1, K1. rewrite u32_add_chain, u32_select_choose by exact HD. reflexivity.
    + unfold F2, K2, f_parity. rewrite u32_add_chain. reflexivity.
    + unfold F3, K3. rewrite u32_add_chain, u32_select_majority. reflexivity.
    + unfold F4, K4, f_parity. rewrite u32_add_chain. reflexivity.
  - unfold spec_round, regs_ok. cbn [rA rB rC rD rE].
    split; [apply u32_range_u32|]. split; [exact HA|].
    split; [apply u32_rol_range; [exact HB | lia]|]. split; assumption.
Qed.

Lemma foldl_code_round_is_spec (w : list Z) (l : list nat) :
  ∀ r, regs_ok r → foldl (code_round w) r l = foldl (spec_round w) r l.
Proof.
  induction l as [|i l IH]; intros r Hr; cbn [foldl]; [reflexivity|].
  destruct (code_round_is_spec_round w r i Hr) as [-> Hok]. apply IH. exact Hok.
Qed.

Lemma regs_ok_init : regs_ok (regs_of sha1_init).
Proof. unfold regs_ok, u32_range, regs_of, sha1_init. cbn [rA rB rC rD rE data0 data1 data2 data3 data4]. lia. Qed.

(** C2. On registers holding 32-bit values, the eighty unrolled calls of the
    generic backend are the eighty rounds of the specification, round [i]
    computing E' = E + F + w[i] + K + rotate_left(A,5) modulo 2^32 and moving
    the quintet to (E', A, rotate_left(B,30), C, D), with F and K those of the
    stage of [i]; each helper [F1] to [F4], with its [u32_select] expression,
    computes the specification's F of its stage; and so a call of the backend
    on one block adds the outcome of those eighty rounds to the state. *)
Theorem rounds_are_spec_rounds (w : list Z) (r : regs) :
  regs_ok r →
  rounds w r = spec_rounds w r ∧
  (∀ A B C D E msg, u32_range D →
     F1 A B C D E msg =
     (u32_rol B 30,
      u32 (E + Z.lor (Z.land B C) (Z.land (u32_not B) D) + msg + 0x5A827999 + u32_rol A 5))) ∧
  (∀ A B C D E msg,
     F2 A B C D E msg =
     (u32_rol B 30, u32 (E + Z.lxor (Z.lxor B C) D + msg + 0x6ED9EBA1 + u32_rol A 5))) ∧
  (∀ A B C D E msg,
     F3 A B C D E msg =
     (u32_rol B 30,
      u32 (E + Z.lor (Z.lor (Z.land B C) (Z.land B D)) (Z.land C D) + msg + 0x8F1BBCDC
           + u32_rol A 5))) ∧
  (∀ A B C D E msg,
     F4 A B C D E msg =
     (u32_rol B 30, u32 (E + Z.lxor (Z.lxor B C) D + msg + 0xCA62C1D6 + u32_rol A 5))) ∧
  (∀ stale digest data,
     digest_ok digest →
     generic_sha1_transform stale digest data 1 =
     (w ← schedule stale data;
      Some (feed_forward digest (spec_rounds w (regs_of digest))))).
Proof.
  intros Hr. split; [|split; [|split; [|split; [|split]]]].
  - rewrite rounds_rotating. unfold spec_rounds.
    apply foldl_code_round_is_spec. exact Hr.
  - intros A B C D E msg HD. unfold F1, K1.
    rewrite u32_add_chain, u32_select_choose by exact HD. reflexivity.
  - intros A B C D E msg. unfold F2, K2. rewrite u32_add_chain. reflexivity.
  - intros A B C D E msg. unfold F3, K3.
    rewrite u32_add_chain, u32_select_majority. reflexivity.
  - intros A B C D E msg. unfold F4, K4. rewrite u32_add_chain. reflexivity.
  - intros stale digest data Hd.
    rewrite transform_one_at_a_time. change (Z.to_nat 1) with 1%nat.
    cbn [blocks_one_at_a_time]. rewrite one_block_take. unfold one_block.
    destruct (schedule stale data) as [w'|]; cbn [mbind option_bind]; [|reflexivity].
    rewrite rounds_rotating. unfold spec_rounds.
    rewrite foldl_code_round_is_spec by exact Hd. reflexivity.
Qed.

Lemma rounds_are_spec_rounds_init :
  regs_ok (regs_of sha1_init) ∧
  rounds (replicate 80 0) (regs_of sha1_init) = spec_rounds (replicate 80 0) (regs_of sha1_init).
Proof.
  split; [exact regs_ok_init|].
  exact (proj1 (rounds_are_spec_rounds (replicate 80 0) (regs_of sha1_init) regs_ok_init)).
Defined.

Opaque rounds.

(** ** Padding and finalization *)

Lemma memcpy_Some (dst src : list Z) (n : nat) :
  (n ≤ length src)%nat → (n ≤ length dst)%nat →
  memcpy dst src n = Some (take n src ++ drop n dst).
Proof. intros H1 H2. unfold memcpy. case_decide; [reflexivity | lia]. Qed.

Lemma store8_Some (p : list Z) (i : nat) (v : Z) :
  (i < length p)%nat → store8 p i v = Some (<[i := v]> p).
Proof. intros H. unfold store8. case_decide; [reflexivity | lia]. Qed.

Lemma memset_Some (dst : list Z) (off : nat) (c : Z) (n : nat) :
  (off + n ≤ length dst)%nat →
  memset dst off c n = Some (take off dst ++ replicate n c ++ drop (off + n) dst).
Proof. intros H. unfold memset. case_decide; [reflexivity | lia]. Qed.

Lemma length_block_uninit (stale : nat → Z) : length (block_uninit stale) = 64%nat.
Proof. unfold block_uninit. rewrite length_fmap, length_seq. reflexivity. Qed.

Lemma length_be64_bytes (v : Z) : length (be64_bytes v) = 8%nat.
Proof. reflexivity. Qed.

(** A 64-bit store at offset 56 of a 64-byte block replaces its last eight
    bytes. *)
Lemma ustore64be_last (p q : list Z) (v : Z) :
  length p = 56%nat → length q = 8%nat →
  ustore64be (p ++ q) 56 v = Some (p ++ be64_bytes v).
Proof.
  intros Hp Hq.
  destruct q as [|q0 [|q1 [|q2 [|q3 [|q4 [|q5 [|q6 [|q7 [|]]]]]]]]]; try discriminate.
  unfold ustore64be, be64_bytes.
  repeat (rewrite store8_Some by (rewrite ?length_app, ?length_insert, Hp; cbn [length]; lia);
          cbn [mbind option_bind];
          rewrite insert_app_r_alt by (rewrite Hp; lia);
          rewrite Hp; cbn [Nat.add Nat.sub insert list_insert]).
  reflexivity.
Qed.

Lemma sha1_sizes (L : Z) :
  0 ≤ L →
  0 ≤ u32 L / 64 ∧ u32 L / 64 * 64 + L mod 64 ≤ L ∧
  u32 (u32 L - u32 L / 64 * 64) = L mod 64 ∧ 0 ≤ L mod 64 < 64.
Proof.
  intros HL. unfold u32. change (2 ^ 32) with 4294967296.
  assert ((L mod 4294967296 - L mod 4294967296 / 64 * 64) = L mod 64) as Hrem.
  { Z.div_mod_to_equations. lia. }
  rewrite Hrem. rewrite (Z.mod_small (L mod 64)) by (Z.div_mod_to_equations; lia).
  Z.div_mod_to_equations. lia.
Qed.

Lemma insert_after_tail (b0 tail : list Z) (n : nat) (v : Z) :
  length tail = n → (n < length b0)%nat →
  <[n := v]> (tail ++ drop n b0) = (tail ++ [v]) ++ drop (S n) b0.
Proof.
  intros <- Hlt. rewrite insert_app_r_alt by lia. rewrite Nat.sub_diag.
  destruct (drop (length tail) b0) as [|x rest] eqn:Ed.
  { apply (f_equal length) in Ed. rewrite length_drop in Ed. cbn [length] in Ed. lia. }
  cbn [insert list_insert]. rewrite <- app_assoc. cbn [app]. do 2 f_equal.
  rewrite <- Nat.add_1_r, <- drop_drop, Ed. reflexivity.
Qed.

(** The scratch block when the remainder and the 0x80 byte leave room for the
    length field. *)
Lemma scratch_single (b0 data : list Z) (n : nat) (v : Z) :
  length b0 = 64%nat → (n ≤ 55)%nat → (n ≤ length data)%nat →
  (block ← memcpy b0 data n;
   block ← store8 block n 0x80;
   block ← memset block (n + 1) 0 (55 - n);
   ustore64be block 56 v) = Some (pad_single (take n data) v).
Proof.
  intros Hb Hn Hd.
  assert (length (take n data) = n) as Ht by (rewrite length_take; lia).
  rewrite memcpy_Some by lia. cbn [mbind option_bind].
  rewrite store8_Some by (rewrite length_app, length_drop, Ht; lia).
  cbn [mbind option_bind].
  rewrite (insert_after_tail b0 _ n) by lia.
  rewrite memset_Some by (rewrite !length_app, length_drop, Ht; cbn [length]; lia).
  cbn [mbind option_bind].
  rewrite take_app_length' by (rewrite length_app, Ht; cbn [length]; lia).
  rewrite drop_app, drop_ge by (rewrite length_app, Ht; cbn [length]; lia).
  rewrite length_app, Ht, drop_drop. cbn [length app].
  replace (S n + (n + 1 + (55 - n) - (n + 1)))%nat with 56%nat by lia.
  rewrite !app_assoc.
  rewrite ustore64be_last.
  - unfold pad_single. rewrite Ht, <- !app_assoc. reflexivity.
  - rewrite !length_app, length_replicate, Ht. cbn [length]. lia.
  - rewrite length_drop. lia.
Qed.

(** The first of two final blocks. *)
Lemma scratch_first (b0 data : list Z) (n : nat) :
  length b0 = 64%nat → (56 ≤ n ≤ 63)%nat → (n ≤ length data)%nat →
  (block ← memcpy b0 data n;
   block ← store8 block n 0x80;
   memset block (n + 1) 0 (63 - n)) = Some (pad_first (take n data)).
Proof.
  intros Hb Hn Hd.
  assert (length (take n data) = n) as Ht by (rewrite length_take; lia).
  rewrite memcpy_Some by lia. cbn [mbind option_bind].
  rewrite store8_Some by (rewrite length_app, length_drop, Ht; lia).
  cbn [mbind option_bind].
  rewrite (insert_after_tail b0 _ n) by lia.
  rewrite memset_Some by (rewrite !length_app, length_drop, Ht; cbn [length]; lia).
  rewrite take_app_length' by (rewrite length_app, Ht; cbn [length]; lia).
  rewrite (drop_ge _ (n + 1 + (63 - n)))
    by (rewrite !length_app, length_drop, Ht; cbn [length]; lia).
  unfold pad_first. rewrite Ht, app_nil_r, <- !app_assoc. reflexivity.
Qed.

(** The second of two final blocks. *)
Lemma scratch_second (block : list Z) (v : Z) :
  length block = 64%nat →
  (block ← memset block 0 0 56; ustore64be block 56 v) = Some (pad_second v).
Proof.
  intros Hb. rewrite memset_Some by lia. cbn [mbind option_bind take app Nat.add].
  rewrite app_assoc. cbn [app].
  rewrite ustore64be_last.
  - reflexivity.
  - apply length_replicate.
  - rewrite length_drop. lia.
Qed.

Lemma length_pad_first (tail : list Z) :
  (56 ≤ length tail ≤ 63)%nat → length (pad_first tail) = 64%nat.
Proof.
  intros H. unfold pad_first. rewrite !length_app, length_replicate. cbn [length]. lia.
Qed.

Lemma size_nonneg (memory : list Z) : 0 ≤ size memory.
Proof. unfold size. lia. Qed.

Lemma length_sha1_tail (memory : list Z) :
  length (sha1_tail memory) = Z.to_nat (size memory mod 64).
Proof.
  destruct (sha1_sizes (size memory) (size_nonneg memory)) as (Hbc & Hle & _ & Hrng).
  unfold sha1_tail. rewrite length_take, length_drop. unfold size in *. lia.
Qed.

Lemma int_mul_blocks (L : Z) :
  0 ≤ L → u32 L < 2 ^ 31 → int_mul (u32 L / 64) 64 = Some (u32 L / 64 * 64).
Proof.
  intros HL Hsafe. unfold int_mul, u32 in *.
  change (2 ^ 32) with 4294967296 in *. change (2 ^ 31) with 2147483648 in *.
  case_decide as Hd; [reflexivity|].
  exfalso. apply Hd. Z.div_mod_to_equations. lia.
Qed.

Lemma int_mul_blocks_overflow (L : Z) :
  0 ≤ L → 2 ^ 31 ≤ u32 L → int_mul (u32 L / 64) 64 = None.
Proof.
  intros HL Hbig. unfold int_mul, u32 in *.
  change (2 ^ 32) with 4294967296 in *. change (2 ^ 31) with 2147483648 in *.
  case_decide as Hd; [|reflexivity].
  exfalso. revert Hd. Z.div_mod_to_equations. lia.
Qed.

(** What [sha1] does, for any backend: one call on the buffer with
    [u32(size) / 64] blocks, the product [block_count * 64] in [int], then one
    or two calls on padded blocks, then the encoding of the digest. *)
Lemma sha1_with_unfold (le : bool) (T : transform_fn) (stale : nat → Z) (memory : list Z) :
  sha1_with le T stale memory =
  (hash ← T sha1_init memory (u32 (size memory) / 64);
   off ← int_mul (u32 (size memory) / 64) 64;
   hash ← (if size memory mod 64 + 1 <=? 56
           then T hash (pad_single (sha1_tail memory) (u64 (size memory * 8))) 1
           else hash ← T hash (pad_first (sha1_tail memory)) 1;
                T hash (pad_second (u64 (size memory * 8))) 1);
   Some (sha1_encode le hash)).
Proof.
  destruct (sha1_sizes (size memory) (size_nonneg memory)) as (Hbc & Hle & Hrem & Hrng).
  pose proof (length_sha1_tail memory) as Htail.
  unfold sha1_with. cbv zeta. unfold address.
  destruct (T sha1_init memory (u32 (size memory) / 64)) as [hash|];
    cbn [mbind option_bind]; [|reflexivity].
  destruct (int_mul (u32 (size memory) / 64) 64) as [off|] eqn:Eoff;
    cbn [mbind option_bind]; [|reflexivity].
  assert (off = u32 (size memory) / 64 * 64) as ->.
  { unfold int_mul in Eoff. case_decide; congruence. }
  rewrite Hrem.
  unfold sha1_tail in *.
  set (data := drop (Z.to_nat (u32 (size memory) / 64 * 64)) memory) in *.
  set (n := Z.to_nat (size memory mod 64)) in *.
  assert (n ≤ length data)%nat as Hd.
  { subst data n. rewrite length_drop. unfold size in *. lia. }
  assert (u32 (size memory mod 64 + 1) = size memory mod 64 + 1) as Hs1.
  { unfold u32. apply Z.mod_small. change (2 ^ 32) with 4294967296. lia. }
  rewrite Hs1.
  replace (Z.to_nat (size memory mod 64 + 1)) with (n + 1)%nat by (subst n; lia).
  replace (u64 (u64 (size memory * 8))) with (u64 (size memory * 8))
    by (unfold u64; rewrite Z.mod_mod by lia; reflexivity).
  pose proof (length_block_uninit stale) as Hb.
  destruct (Z.leb_spec (size memory mod 64 + 1) 56) as [Hcase|Hcase].
  - replace (Z.to_nat (u32 (56 - (size memory mod 64 + 1)))) with (55 - n)%nat.
    2:{ unfold u32. rewrite Z.mod_small by (change (2 ^ 32) with 4294967296; lia).
        subst n. lia. }
    pose proof (scratch_single (block_uninit stale) data n (u64 (size memory * 8))
                  Hb ltac:(subst n; lia) Hd) as H.
    destruct (memcpy (block_uninit stale) data n) as [b1|];
      cbn [mbind option_bind] in *; [|discriminate].
    destruct (store8 b1 n 128) as [b2|]; cbn [mbind option_bind] in *; [|discriminate].
    destruct (memset b2 (n + 1) 0 (55 - n)) as [b3|];
      cbn [mbind option_bind] in *; [|discriminate].
    rewrite H. cbn [mbind option_bind]. reflexivity.
  - replace (Z.to_nat (u32 (64 - (size memory mod 64 + 1)))) with (63 - n)%nat.
    2:{ unfold u32. rewrite Z.mod_small by (change (2 ^ 32) with 4294967296; lia).
        subst n. lia. }
    pose proof (scratch_first (block_uninit stale) data n
                  Hb ltac:(subst n; lia) Hd) as H.
    destruct (memcpy (block_uninit stale) data n) as [b1|];
      cbn [mbind option_bind] in *; [|discriminate].
    destruct (store8 b1 n 128) as [b2|]; cbn [mbind option_bind] in *; [|discriminate].
    rewrite H. cbn [mbind option_bind].
    destruct (T hash (pad_first (take n data)) 1) as [hash'|];
      cbn [mbind option_bind]; [|reflexivity].
    pose proof (scratch_second (pad_first (take n data)) (u64 (size memory * 8))
                  ltac:(apply length_pad_first; rewrite Htail; subst n; lia)) as H2.
    destruct (memset (pad_first (take n data)) 0 0 56) as [b4|];
      cbn [mbind option_bind] in *; [|discriminate].
    rewrite H2. cbn [mbind option_bind]. reflexivity.
Qed.

(** ** Digest encoding *)

Lemma testbit_u32 (a n : Z) : Z.testbit (u32 a) n = (n <? 32) && Z.testbit a n.
Proof.
  unfold u32. destruct (Z.ltb_spec n 32).
  - rewrite Z.mod_pow2_bits_low by lia. reflexivity.
  - rewrite Z.mod_pow2_bits_high by lia. reflexivity.
Qed.

Lemma testbit_low_byte (a n : Z) :
  0 ≤ n → Z.testbit (Z.land a 0xFF) n = Z.testbit a n && (n <? 8).
Proof.
  intros Hn. rewrite Z.land_spec. change 0xFF with (Z.ones 8).
  destruct (Z.ltb_spec n 8).
  - rewrite Z.ones_spec_low by lia. reflexivity.
  - rewrite Z.ones_spec_high by lia. reflexivity.
Qed.

Lemma testbit_mask_16_24 (n : Z) :
  0 ≤ n → Z.testbit 0x00FF0000 n = (16 <=? n) && (n <? 24).
Proof.
  intros Hn. change 0x00FF0000 with (Z.shiftl (Z.ones 8) 16).
  rewrite Z.shiftl_spec by lia.
  destruct (Z.leb_spec 16 n), (Z.ltb_spec n 24); cbn [andb].
  - apply Z.ones_spec_low. lia.
  - apply Z.ones_spec_high. lia.
  - apply Z.testbit_neg_r. lia.
  - apply Z.testbit_neg_r. lia.
Qed.

Lemma testbit_mask_8_16 (n : Z) :
  0 ≤ n → Z.testbit 0x0000FF00 n = (8 <=? n) && (n <? 16).
Proof.
  intros Hn. change 0x0000FF00 with (Z.shiftl (Z.ones 8) 8).
  rewrite Z.shiftl_spec by lia.
  destruct (Z.leb_spec 8 n), (Z.ltb_spec n 16); cbn [andb].
  - apply Z.ones_spec_low. lia.
  - apply Z.ones_spec_high. lia.
  - apply Z.testbit_neg_r. lia.
  - apply Z.testbit_neg_r. lia.
Qed.

(** Bit [m] of the swapped word is the bit of the mirrored byte. *)
Lemma testbit_byteswap (x m : Z) :
  u32_range x → 0 ≤ m →
  Z.testbit (byteswap x) m =
  if m <? 8 then Z.testbit x (m + 24)
  else if m <? 16 then Z.testbit x (m + 8)
  else if m <? 24 then Z.testbit x (m - 8)
  else if m <? 32 then Z.testbit x (m - 24)
  else false.
Proof.
  intros Hx Hm. unfold byteswap.
  rewrite !Z.lor_spec, !Z.land_spec, testbit_u32.
  rewrite !Z.shiftl_spec, !Z.shiftr_spec by lia.
  rewrite testbit_mask_16_24, testbit_mask_8_16 by lia.
  destruct (Z.ltb_spec m 8), (Z.ltb_spec m 16), (Z.ltb_spec m 24), (Z.ltb_spec m 32),
    (Z.leb_spec 8 m), (Z.leb_spec 16 m); try lia; cbn [andb orb];
    repeat match goal with
      | |- context [Z.testbit x ?k] =>
          first [ rewrite (Z.testbit_neg_r x k) by lia
                | rewrite (u32_range_high x k Hx) by lia
                | generalize (Z.testbit x k); intro ]
      end;
    repeat match goal with b : bool |- _ => destruct b end; reflexivity.
Qed.

Lemma host_bytes_byteswap (x : Z) :
  u32_range x → host_word_bytes true (byteswap x) = word_bytes_be x.
Proof.
  intros Hx. unfold host_word_bytes, word_bytes_be. cbn [rev app].
  f_equal; [|f_equal; [|f_equal; [|f_equal]]].
  all: apply Z.bits_inj'; intros n Hn; rewrite !testbit_low_byte by lia.
  all: destruct (Z.ltb_spec n 8); rewrite ?Bool.andb_false_r; [|reflexivity].
  all: rewrite ?Bool.andb_true_r, ?Z.shiftr_spec by lia.
  all: rewrite testbit_byteswap by (assumption || lia).
  - destruct (Z.ltb_spec n 8); [reflexivity | lia].
  - destruct (Z.ltb_spec (n + 8) 8), (Z.ltb_spec (n + 8) 16); try lia.
    f_equal. lia.
  - destruct (Z.ltb_spec (n + 16) 8), (Z.ltb_spec (n + 16) 16), (Z.ltb_spec (n + 16) 24);
      try lia.
    f_equal. lia.
  - destruct (Z.ltb_spec (n + 24) 8), (Z.ltb_spec (n + 24) 16), (Z.ltb_spec (n + 24) 24),
      (Z.ltb_spec (n + 24) 32); try lia.
    replace (n + 24 - 24) with n by lia. reflexivity.
Qed.

Lemma digest_bytes_encode (le : bool) (h : SHA1) :
  digest_ok h → digest_bytes le (sha1_encode le h) = state_bytes_be h.
Proof.
  intros (H0 & H1 & H2 & H3 & H4). destruct le.
  - unfold sha1_encode, digest_bytes, state_bytes_be.
    cbn [data0 data1 data2 data3 data4].
    rewrite !host_bytes_byteswap by assumption. reflexivity.
  - reflexivity.
Qed.

Lemma length_digest_bytes (le : bool) (h : SHA1) : length (digest_bytes le h) = 20%nat.
Proof. destruct le; reflexivity. Qed.

Lemma one_block_digest_ok (stale : nat → Z) (d d' : SHA1) (data : list Z) :
  one_block stale d data = Some d' → digest_ok d'.
Proof.
  unfold one_block. destruct (schedule stale data) as [w|]; cbn [mbind option_bind];
    [|discriminate].
  intros [= <-]. unfold feed_forward, digest_ok. cbn [data0 data1 data2 data3 data4].
  repeat split; apply u32_range_u32.
Qed.

Lemma transform_one_digest_ok (stale : nat → Z) (d d' : SHA1) (data : list Z) :
  generic_sha1_transform stale d data 1 = Some d' → digest_ok d'.
Proof.
  rewrite transform_one_at_a_time. change (Z.to_nat 1) with 1%nat.
  cbn [blocks_one_at_a_time].
  destruct (one_block stale d (take 64 data)) as [d1|] eqn:E; cbn [mbind option_bind];
    [|discriminate].
  intros [= <-]. exact (one_block_digest_ok _ _ _ _ E).
Qed.

Lemma transform_is_Some (stale : nat → Z) (d : SHA1) (data : list Z) (blocks : Z) :
  64 * blocks ≤ Z.of_nat (length data) → is_Some (generic_sha1_transform stale d data blocks).
Proof. intros H. rewrite transform_one_at_a_time. apply blocks_is_Some. lia. Qed.

Lemma length_pad_single (tail : list Z) (v : Z) :
  (length tail ≤ 55)%nat → length (pad_single tail v) = 64%nat.
Proof.
  intros H. unfold pad_single.
  rewrite !length_app, length_replicate, length_be64_bytes. cbn [length]. lia.
Qed.

Lemma length_pad_second (v : Z) : length (pad_second v) = 64%nat.
Proof. reflexivity. Qed.

(** Below 2 GiB (modulo 2^32) [sha1] has no failing path: every checked read
    and write stays inside its object, no [int] overflows, and the state it
    encodes comes out of a one-block call. *)
Lemma sha1_total (le : bool) (sw sb : nat → Z) (memory : list Z) :
  u32 (size memory) < 2 ^ 31 →
  ∃ h, sha1 le sw sb memory = Some (sha1_encode le h).
Proof.
  intros Hsafe. unfold sha1. rewrite !sha1_with_unfold.
  destruct (sha1_sizes (size memory) (size_nonneg memory)) as (Hbc & Hle & _ & Hrng).
  pose proof (length_sha1_tail memory) as Htail.
  destruct (transform_is_Some sw sha1_init memory (u32 (size memory) / 64)) as [h0 E0].
  { unfold size in *. lia. }
  rewrite E0, (int_mul_blocks _ (size_nonneg memory) Hsafe). cbn [mbind option_bind].
  destruct (Z.leb_spec (size memory mod 64 + 1) 56) as [Hcase|Hcase].
  - destruct (transform_is_Some sw h0
                (pad_single (sha1_tail memory) (u64 (size memory * 8))) 1) as [h1 E1].
    { rewrite length_pad_single by lia. lia. }
    rewrite E1. cbn [mbind option_bind]. eauto.
  - destruct (transform_is_Some sw h0 (pad_first (sha1_tail memory)) 1) as [h1 E1].
    { rewrite length_pad_first by lia. lia. }
    rewrite E1. cbn [mbind option_bind].
    destruct (transform_is_Some sw h1 (pad_second (u64 (size memory * 8))) 1) as [h2 E2].
    { rewrite length_pad_second. lia. }
    rewrite E2. cbn [mbind option_bind]. eauto.
Qed.

(** Whatever [sha1] returns is the encoding of a state of 32-bit words, the
    one returned when the swaps are compiled out. *)
Lemma sha1_returns_encoded (le : bool) (sw sb : nat → Z) (memory : list Z) (h : SHA1) :
  sha1 false sw sb memory = Some h →
  digest_ok h ∧ sha1 le sw sb memory = Some (sha1_encode le h).
Proof.
  unfold sha1. rewrite !sha1_with_unfold.
  destruct (generic_sha1_transform sw sha1_init memory (u32 (size memory) / 64)) as [h0|];
    cbn [mbind option_bind]; [|discriminate].
  destruct (int_mul (u32 (size memory) / 64) 64) as [off|];
    cbn [mbind option_bind]; [|discriminate].
  destruct (size memory mod 64 + 1 <=? 56).
  - destruct (generic_sha1_transform sw h0 _ 1) as [h1|] eqn:E1;
      cbn [mbind option_bind]; [|discriminate].
    intros [= <-]. split; [exact (transform_one_digest_ok _ _ _ _ E1) | reflexivity].
  - destruct (generic_sha1_transform sw h0 _ 1) as [h1|];
      cbn [mbind option_bind]; [|discriminate].
    destruct (generic_sha1_transform sw h1 _ 1) as [h2|] eqn:E2;
      cbn [mbind option_bind]; [|discriminate].
    intros [= <-]. split; [exact (transform_one_digest_ok _ _ _ _ E2) | reflexivity].
Qed.

(** ** The one-shot function *)

Lemma one_block_stale_irrelevant (sw sw' : nat → Z) (d : SHA1) (data : list Z) :
  one_block sw d data = one_block sw' d data.
Proof. unfold one_block. rewrite !schedule_is_spec. reflexivity. Qed.

Lemma transform_stale_irrelevant (sw sw' : nat → Z) (d : SHA1) (data : list Z) (blocks : Z) :
  generic_sha1_transform sw d data blocks = generic_sha1_transform sw' d data blocks.
Proof.
  rewrite !transform_one_at_a_time. generalize (Z.to_nat blocks). intros n.
  revert d data. induction n as [|n IH]; intros d data; cbn [blocks_one_at_a_time];
    [reflexivity|].
  rewrite (one_block_stale_irrelevant sw sw').
  destruct (one_block sw' d (take 64 data)) as [d'|]; cbn [mbind option_bind];
    [apply IH | reflexivity].
Qed.

(** The digest depends on the buffer only, not on what the two uninitialised
    arrays held. *)
Lemma sha1_stale_irrelevant (le : bool) (sw sw' sb sb' : nat → Z) (memory : list Z) :
  sha1 le sw sb memory = sha1 le sw' sb' memory.
Proof.
  unfold sha1. rewrite !sha1_with_unfold.
  rewrite (transform_stale_irrelevant sw sw').
  destruct (generic_sha1_transform sw' sha1_init memory (u32 (size memory) / 64)) as [h0|];
    cbn [mbind option_bind]; [|reflexivity].
  destruct (int_mul (u32 (size memory) / 64) 64) as [off|];
    cbn [mbind option_bind]; [|reflexivity].
  destruct (size memory mod 64 + 1 <=? 56).
  - rewrite (transform_stale_irrelevant sw sw'). reflexivity.
  - rewrite (transform_stale_irrelevant sw sw').
    destruct (generic_sha1_transform sw' h0 (pad_first (sha1_tail memory)) 1) as [h1|];
      cbn [mbind option_bind]; [|reflexivity].
    rewrite (transform_stale_irrelevant sw sw'). reflexivity.
Qed.

Lemma sha1_tail_small (memory : list Z) :
  size memory < 2 ^ 32 →
  sha1_tail memory = drop (Z.to_nat (size memory - size memory mod 64)) memory.
Proof.
  intros Hsmall. pose proof (size_nonneg memory) as H0.
  unfold sha1_tail, u32. change (2 ^ 32) with 4294967296 in *.
  rewrite (Z.mod_small (size memory) 4294967296) by lia.
  replace (size memory / 64 * 64) with (size memory - size memory mod 64)
    by (Z.div_mod_to_equations; lia).
  apply take_ge. rewrite length_drop. unfold size in *.
  assert (0 ≤ Z.of_nat (length memory) mod 64 < 64) by (apply Z.mod_pos_bound; lia).
  lia.
Qed.

(** Up to 4 GiB the first call receives every complete block of the buffer. *)
Lemma sha1_block_count_small (memory : list Z) :
  size memory < 2 ^ 32 → u32 (size memory) / 64 = size memory / 64.
Proof.
  intros Hsmall. pose proof (size_nonneg memory). unfold u32.
  change (2 ^ 32) with 4294967296 in *. rewrite Z.mod_small by lia. reflexivity.
Qed.

(** Finalization, for any backend [T] and any buffer of [L] bytes: after
    the call on the complete blocks and the advance of the pointer, the
    [L mod 64] bytes that follow them
    (the last bytes of the buffer whenever [L < 2^32]) are followed by one
    0x80 byte; if [L mod 64 + 1 <= 56] zeros fill the block up to offset 56,
    the big-endian 64-bit value [L * 8 mod 2^64] takes offsets 56..64 and
    exactly one final block is transformed; otherwise zeros fill the block to
    64 bytes, it is transformed, and a second block of 56 zeros and the same
    length field is transformed. *)
Lemma sha1_padding (le : bool) (T : transform_fn) (stale : nat → Z) (memory : list Z) :
  length (sha1_tail memory) = Z.to_nat (size memory mod 64) ∧
  (size memory < 2 ^ 32 →
   sha1_tail memory = drop (Z.to_nat (size memory - size memory mod 64)) memory) ∧
  sha1_with le T stale memory =
  (hash ← T sha1_init memory (u32 (size memory) / 64);
   off ← int_mul (u32 (size memory) / 64) 64;
   hash ← (if size memory mod 64 + 1 <=? 56
           then T hash (sha1_tail memory ++ [0x80] ++
                        replicate (Z.to_nat (55 - size memory mod 64)) 0 ++
                        be64_bytes ((size memory * 8) mod 2 ^ 64)) 1
           else hash ← T hash (sha1_tail memory ++ [0x80] ++
                               replicate (Z.to_nat (63 - size memory mod 64)) 0) 1;
                T hash (replicate 56 0 ++ be64_bytes ((size memory * 8) mod 2 ^ 64)) 1);
   Some (sha1_encode le hash)).
Proof.
  pose proof (length_sha1_tail memory) as Htail.
  destruct (sha1_sizes (size memory) (size_nonneg memory)) as (_ & _ & _ & Hrng).
  split; [exact Htail|]. split; [apply sha1_tail_small|].
  rewrite sha1_with_unfold. unfold pad_single, pad_first, pad_second, u64.
  rewrite Htail.
  replace (55 - Z.to_nat (size memory mod 64))%nat
    with (Z.to_nat (55 - size memory mod 64)) by lia.
  replace (63 - Z.to_nat (size memory mod 64))%nat
    with (Z.to_nat (63 - size memory mod 64)) by lia.
  reflexivity.
Qed.

(** Below 2 GiB [sha1] feeds [floor(L / 64)] blocks and pads the last
    [L mod 64] bytes of the buffer. *)
Lemma sha1_below_2GiB (le : bool) (T : transform_fn) (stale : nat → Z) (memory : list Z) :
  size memory < 2 ^ 31 →
  sha1_with le T stale memory =
  (hash ← T sha1_init memory (size memory / 64);
   hash ← (if size memory mod 64 + 1 <=? 56
           then T hash (drop (Z.to_nat (size memory - size memory mod 64)) memory ++
                        [0x80] ++ replicate (Z.to_nat (55 - size memory mod 64)) 0 ++
                        be64_bytes ((size memory * 8) mod 2 ^ 64)) 1
           else hash ← T hash (drop (Z.to_nat (size memory - size memory mod 64)) memory ++
                               [0x80] ++
                               replicate (Z.to_nat (63 - size memory mod 64)) 0) 1;
                T hash (replicate 56 0 ++ be64_bytes ((size memory * 8) mod 2 ^ 64)) 1);
   Some (sha1_encode le hash)).
Proof.
  intros Hsmall. pose proof (size_nonneg memory) as H0.
  assert (size memory < 2 ^ 32) as Hsmall32.
  { change (2 ^ 31) with 2147483648 in Hsmall. change (2 ^ 32) with 4294967296. lia. }
  destruct (sha1_padding le T stale memory) as (_ & _ & ->).
  rewrite int_mul_blocks.
  - rewrite sha1_block_count_small, sha1_tail_small by exact Hsmall32.
    destruct (T sha1_init memory (size memory / 64)); reflexivity.
  - exact H0.
  - unfold u32. rewrite Z.mod_small; [exact Hsmall|].
    change (2 ^ 32) with 4294967296 in *. lia.
Qed.

Lemma length_four_GiB_zeros : length four_GiB_zeros = Z.to_nat (2 ^ 32).
Proof. unfold four_GiB_zeros. apply length_replicate. Qed.

Lemma size_four_GiB_zeros : size four_GiB_zeros = 2 ^ 32.
Proof.
  unfold size. rewrite length_four_GiB_zeros. apply Z2Nat.id. discriminate.
Qed.

Lemma size_two_GiB_zeros : size two_GiB_zeros = 2 ^ 31.
Proof.
  unfold size, two_GiB_zeros. rewrite length_replicate. apply Z2Nat.id. discriminate.
Qed.

(** C5, at a buffer of 2^32 bytes: the buffer has 67108864 complete blocks,
    yet [sha1] calls the backend on it with a block count of 0 and pads an
    empty remainder, so none of its blocks is fed; and at a buffer of 2^31
    bytes the product [block_count * 64] overflows [int], so that no digest
    is defined. *)
Theorem sha1_4GiB_feeds_no_block (le : bool) (T : transform_fn) (stale : nat → Z) :
  size four_GiB_zeros = 2 ^ 32 ∧
  size four_GiB_zeros / 64 = 67108864 ∧
  u32 (size four_GiB_zeros) / 64 = 0 ∧
  sha1_with le T stale four_GiB_zeros =
  (hash ← T sha1_init four_GiB_zeros 0;
   hash ← T hash ([0x80] ++ replicate 55 0 ++ be64_bytes (2 ^ 35)) 1;
   Some (sha1_encode le hash)) ∧
  size two_GiB_zeros = 2 ^ 31 ∧
  sha1_with le T stale two_GiB_zeros =
  (hash ← T sha1_init two_GiB_zeros 33554432; None).
Proof.
  pose proof size_four_GiB_zeros as Hsize.
  pose proof size_two_GiB_zeros as Hsize2.
  split; [exact Hsize|]. rewrite !sha1_with_unfold. unfold sha1_tail.
  rewrite !Hsize, !Hsize2.
  split; [reflexivity|]. split; [reflexivity|]. split; [|split; [reflexivity|]].
  - change (u32 (2 ^ 32) / 64) with 0.
    change (int_mul 0 64) with (Some 0).
    change (2 ^ 32 mod 64 + 1 <=? 56) with true.
    change (Z.to_nat (2 ^ 32 mod 64)) with 0%nat.
    change (u64 (2 ^ 32 * 8)) with (2 ^ 35).
    rewrite take_0. reflexivity.
  - change (u32 (2 ^ 31) / 64) with 33554432.
    change (int_mul 33554432 64) with (@None Z).
    destruct (T sha1_init two_GiB_zeros 33554432); reflexivity.
Qed.

Lemma drop_cons_replicate (n : nat) (x y : Z) :
  drop (S n) (x :: replicate (S n) y) = [y].
Proof.
  cbn [drop]. rewrite drop_replicate.
  replace (S n - n)%nat with 1%nat by lia. reflexivity.
Qed.

Lemma size_one_then_4GiB_zeros : size one_then_4GiB_zeros = 2 ^ 32 + 1.
Proof.
  unfold size, one_then_4GiB_zeros.
  rewrite length_cons, length_four_GiB_zeros, Nat2Z.inj_succ, Z2Nat.id by discriminate.
  reflexivity.
Qed.

(** C4, at a buffer of 2^32 + 1 bytes, first byte 1 and all others 0: the
    one trailing byte (length mod 64 = 1) is the 0 at offset 2^32, yet the
    byte [sha1] copies into its scratch block and pads is the 1 at offset 0;
    the 0x80 byte, the zero fill and the big-endian bit length 2^35 + 8 are
    then laid out as for any buffer. *)
Theorem sha1_4GiB_pads_first_byte (le : bool) (T : transform_fn) (stale : nat → Z) :
  size one_then_4GiB_zeros = 2 ^ 32 + 1 ∧
  drop (Z.to_nat (size one_then_4GiB_zeros - size one_then_4GiB_zeros mod 64))
       one_then_4GiB_zeros = [0] ∧
  sha1_tail one_then_4GiB_zeros = [1] ∧
  sha1_with le T stale one_then_4GiB_zeros =
  (hash ← T sha1_init one_then_4GiB_zeros 0;
   hash ← T hash ([1] ++ [0x80] ++ replicate 54 0 ++ be64_bytes (2 ^ 35 + 8)) 1;
   Some (sha1_encode le hash)).
Proof.
  pose proof size_one_then_4GiB_zeros as Hsize.
  assert (sha1_tail one_then_4GiB_zeros = [1]) as Htail.
  { unfold sha1_tail. rewrite Hsize.
    change (Z.to_nat ((2 ^ 32 + 1) mod 64)) with 1%nat.
    change (Z.to_nat (u32 (2 ^ 32 + 1) / 64 * 64)) with 0%nat.
    unfold one_then_4GiB_zeros. cbn [drop take]. rewrite take_0. reflexivity. }
  split; [exact Hsize|]. split; [|split; [exact Htail|]].
  - rewrite Hsize. change (2 ^ 32 + 1 - (2 ^ 32 + 1) mod 64) with (2 ^ 32).
    unfold one_then_4GiB_zeros, four_GiB_zeros.
    assert (2 ^ 32 = Z.succ (2 ^ 32 - 1)) as -> by reflexivity.
    rewrite Z2Nat.inj_succ by discriminate.
    apply drop_cons_replicate.
  - rewrite sha1_with_unfold, Htail, Hsize.
    change (u32 (2 ^ 32 + 1) / 64) with 0.
    change (int_mul 0 64) with (Some 0).
    change ((2 ^ 32 + 1) mod 64 + 1 <=? 56) with true.
    change (u64 ((2 ^ 32 + 1) * 8)) with (2 ^ 35 + 8).
    reflexivity.
Qed.

(** C6. Digest encoding happens once, after the last transform: for any
    backend the result on a little-endian host is the result without the
    swaps with each of the five words byte-swapped once, so no backend call
    ever sees a swapped state; and with the generic backend the twenty bytes
    of a returned digest, as they lie in host memory, are the five final
    state words most significant byte first, on either byte order; a digest
    is returned for every buffer whose size does not overflow [int]. *)
Theorem sha1_digest_encoding (le : bool) (T : transform_fn) (sw sb : nat → Z)
    (memory : list Z) :
  sha1_with le T sb memory = (sha1_encode le <$> sha1_with false T sb memory) ∧
  (∀ h, sha1_encode false h = h ∧
        sha1_encode true h =
        MkSHA1 (byteswap (data0 h)) (byteswap (data1 h)) (byteswap (data2 h))
               (byteswap (data3 h)) (byteswap (data4 h))) ∧
  (∀ h, sha1 false sw sb memory = Some h →
        sha1 le sw sb memory = Some (sha1_encode le h) ∧
        digest_bytes le (sha1_encode le h) = state_bytes_be h ∧
        length (digest_bytes le (sha1_encode le h)) = 20%nat) ∧
  (u32 (size memory) < 2 ^ 31 → is_Some (sha1 le sw sb memory)).
Proof.
  split; [|split; [|split]].
  - rewrite !sha1_with_unfold.
    destruct (T sha1_init memory (u32 (size memory) / 64)) as [h0|];
      cbn [mbind option_bind fmap option_fmap option_map]; [|reflexivity].
    destruct (int_mul (u32 (size memory) / 64) 64) as [off|];
      cbn [mbind option_bind fmap option_fmap option_map]; [|reflexivity].
    destruct (size memory mod 64 + 1 <=? 56).
    + destruct (T h0 _ 1) as [h1|]; reflexivity.
    + destruct (T h0 _ 1) as [h1|]; cbn [mbind option_bind]; [|reflexivity].
      destruct (T h1 _ 1) as [h2|]; reflexivity.
  - intros h. split; reflexivity.
  - intros h Hraw.
    destruct (sha1_returns_encoded le sw sb memory h Hraw) as [Hok Henc].
    split; [exact Henc|].
    split; [apply digest_bytes_encode; exact Hok | apply length_digest_bytes].
  - intros Hsafe. destruct (sha1_total le sw sb memory Hsafe) as [h Hh]. eauto.
Qed.

Lemma sha1_digest_encoding_abc :
  u32 (size (bytes_of_string "abc")) < 2 ^ 31 ∧
  is_Some (sha1 true (λ _, 0) (λ _, 0) (bytes_of_string "abc")).
Proof.
  split; [reflexivity|].
  exact (proj2 (proj2 (proj2 (sha1_digest_encoding true (generic_sha1_transform (λ _, 0))
                                (λ _, 0) (λ _, 0) (bytes_of_string "abc")))) eq_refl).
Defined.

(** ** [sha1] on a store *)

Ltac st_norm :=
  unfold st_view, st_update, st_object, ptr_add;
  cbn [mbind option_bind fmap option_fmap option_map st_buffer st_block fst snd Nat.add];
  repeat match goal with
         | |- context [drop 0 ?x] => change (drop 0 x) with x
         | |- context [take 0 ?x ++ ?y] => change (take 0 x ++ y) with y
         end.

Ltac st_case t x :=
  destruct t as [x|]; st_norm; [|split; [reflexivity|discriminate]].

(** [sha1] on the store returns what [sha1_with] returns, and the store it
    leaves holds the buffer it was given: every write went through a pointer
    into the scratch block. *)
Lemma sha1_store_runs (le : bool) (T : transform_fn) (stale : nat → Z) (memory : list Z) :
  (fst <$> sha1_store le T (sha1_store_init stale memory)) = sha1_with le T stale memory ∧
  (∀ hash s', sha1_store le T (sha1_store_init stale memory) = Some (hash, s') →
              st_buffer s' = memory).
Proof.
  unfold sha1_store, sha1_with, sha1_store_init, address. cbv zeta.
  unfold st_memcpy, st_store8, st_memset, st_ustore64be. st_norm.
  st_case (T sha1_init memory (u32 (size memory) / 64)) h0.
  st_case (int_mul (u32 (size memory) / 64) 64) off.
  st_case (memcpy (block_uninit stale) (drop (Z.to_nat off) memory)
             (Z.to_nat (u32 (u32 (size memory) - off)))) b1.
  st_case (store8 b1 (Z.to_nat (u32 (u32 (size memory) - off))) 128) b2.
  destruct (u32 (u32 (u32 (size memory) - off) + 1) <=? 56).
  - st_case (memset b2 (Z.to_nat (u32 (u32 (u32 (size memory) - off) + 1))) 0
               (Z.to_nat (u32 (56 - u32 (u32 (u32 (size memory) - off) + 1))))) b3.
    st_case (ustore64be b3 56 (u64 (u64 (size memory * 8)))) b4.
    st_case (T h0 b4 1) h1.
    split; [reflexivity|]. intros hash s' [= <- <-]. reflexivity.
  - st_case (memset b2 (Z.to_nat (u32 (u32 (u32 (size memory) - off) + 1))) 0
               (Z.to_nat (u32 (64 - u32 (u32 (u32 (size memory) - off) + 1))))) b3.
    st_case (T h0 b3 1) h1.
    st_case (memset b3 0 0 56) b4.
    st_case (ustore64be b4 56 (u64 (u64 (size memory * 8)))) b5.
    st_case (T h1 b5 1) h2.
    split; [reflexivity|]. intros hash s' [= <- <-]. reflexivity.
Qed.

(** C8. What [sha1] returns is a function of the buffer contents alone:
    whatever the uninitialised schedule array and scratch block held, two
    invocations on the same contents give the same result, and that result is
    a digest for every buffer whose size does not overflow [int].  An
    invocation does not write to the buffer: run on a store that holds the
    buffer and the scratch block, [sha1] returns the same result and leaves a
    store whose buffer is the one it was given. *)
Theorem sha1_deterministic (le : bool) (sw sw' sb sb' : nat → Z) (memory : list Z) :
  sha1 le sw sb memory = sha1 le sw' sb' memory ∧
  (u32 (size memory) < 2 ^ 31 → is_Some (sha1 le sw sb memory)) ∧
  (fst <$> sha1_store le (generic_sha1_transform sw) (sha1_store_init sb memory)) =
    sha1 le sw sb memory ∧
  (∀ hash s',
     sha1_store le (generic_sha1_transform sw) (sha1_store_init sb memory) = Some (hash, s') →
     st_buffer s' = memory).
Proof.
  split; [apply sha1_stale_irrelevant|]. split.
  - intros Hsafe. destruct (sha1_total le sw sb memory Hsafe) as [h Hh]. eauto.
  - apply sha1_store_runs.
Qed.

Lemma sha1_deterministic_abc :
  u32 (size (bytes_of_string "abc")) < 2 ^ 31 ∧
  is_Some (sha1 false (λ _, 1) (λ _, 2) (bytes_of_string "abc")).
Proof.
  split; [reflexivity|].
  exact (proj1 (proj2 (sha1_deterministic false (λ _, 1) (λ _, 3) (λ _, 2) (λ _, 4)
                         (bytes_of_string "abc"))) eq_refl).
Defined.

Lemma size_small_mod (memory : list Z) :
  size memory < 64 →
  u32 (size memory) / 64 = 0 ∧ size memory mod 64 = size memory ∧
  u64 (size memory * 8) = size memory * 8 ∧ sha1_tail memory = memory.
Proof.
  intros Hsmall. pose proof (size_nonneg memory) as H0.
  assert (u32 (size memory) / 64 = 0) as Hbc.
  { unfold u32. change (2 ^ 32) with 4294967296. Z.div_mod_to_equations. lia. }
  assert (size memory mod 64 = size memory) as Hrem by (apply Z.mod_small; lia).
  split; [exact Hbc|]. split; [exact Hrem|]. split.
  - unfold u64. apply Z.mod_small. change (2 ^ 64) with 18446744073709551616. lia.
  - unfold sha1_tail. rewrite Hbc, Hrem. cbn [Z.mul Z.to_nat drop].
    apply take_ge. unfold size. lia.
Qed.

(** C10. A call of the generic backend with a block count of 0 returns the
    state it was given; so for a buffer shorter than 64 bytes the first call
    of [sha1] leaves the initial state as it is, and the digest is the
    encoding of what the one or two padding blocks make of that initial
    state. *)
Theorem transform_zero_blocks (stale : nat → Z) (digest : SHA1) (data : list Z) :
  generic_sha1_transform stale digest data 0 = Some digest ∧
  ∀ (le : bool) (sb : nat → Z) (memory : list Z),
    size memory < 64 →
    generic_sha1_transform stale sha1_init memory (u32 (size memory) / 64) = Some sha1_init ∧
    sha1 le stale sb memory =
    (hash ← (if size memory + 1 <=? 56
             then generic_sha1_transform stale sha1_init
                    (pad_single memory (size memory * 8)) 1
             else hash ← generic_sha1_transform stale sha1_init (pad_first memory) 1;
                  generic_sha1_transform stale hash (pad_second (size memory * 8)) 1);
     Some (sha1_encode le hash)).
Proof.
  split; [reflexivity|].
  intros le sb memory Hsmall.
  destruct (size_small_mod memory Hsmall) as (Hbc & Hrem & Hlen & Htail).
  unfold sha1. rewrite sha1_with_unfold, Hbc, Hrem, Hlen, Htail.
  change (int_mul 0 64) with (Some 0).
  split; reflexivity.
Qed.

Lemma transform_zero_blocks_abc :
  size (bytes_of_string "abc") < 64 ∧
  generic_sha1_transform (λ _, 0) sha1_init (bytes_of_string "abc")
    (u32 (size (bytes_of_string "abc")) / 64) = Some sha1_init.
Proof.
  split; [reflexivity|].
  exact (proj1 (proj2 (transform_zero_blocks (λ _, 0) sha1_init []) true (λ _, 0)
                  (bytes_of_string "abc") eq_refl)).
Defined.

Local Open Scope string_scope.

(** C1. The three NIST vectors, on either byte order and whatever the
    uninitialised arrays held: the digest of the empty buffer, of "abc" and
    of the 56-byte message, as 40 lowercase hexadecimal characters. *)
Theorem sha1_nist_vectors (le : bool) (sw sb : nat → Z) :
  sha1_hex le sw sb (bytes_of_string "") =
    Some "da39a3ee5e6b4b0d3255bfef95601890afd80709" ∧
  sha1_hex le sw sb (bytes_of_string "abc") =
    Some "a9993e364706816aba3e25717850c26c9cd0d89d" ∧
  sha1_hex le sw sb
    (bytes_of_string "abcdbcdecdefdefgefghfghighijhijkijkljklmklmnlmnomnopnopq") =
    Some "84983e441c3bd26ebaae4aa1f95129e5e54670f1".
Proof.
  unfold sha1_hex.
  rewrite !(sha1_stale_irrelevant le sw (λ _, 0) sb (λ _, 0)).
  destruct le; repeat split; vm_compute; reflexivity.
Qed.

(** * Further properties of the generic backend and of [sha1] *)

Local Close Scope string_scope.

Lemma digest_ok_init : digest_ok sha1_init.
Proof. exact regs_ok_init. Qed.

(** On a state of 32-bit words one block of the source is one application of
    the compression function. *)
Lemma one_block_compress (stale : nat → Z) (h : SHA1) (data : list Z) :
  digest_ok h → one_block stale h data = compress h data.
Proof.
  intros Hh. unfold one_block, compress. rewrite schedule_is_spec.
  destruct (schedule_spec data) as [w|]; cbn [mbind option_bind]; [|reflexivity].
  rewrite rounds_rotating. unfold spec_rounds.
  rewrite foldl_code_round_is_spec by exact Hh. reflexivity.
Qed.

Lemma blocks_hash_blocks (stale : nat → Z) (n : nat) :
  ∀ (h : SHA1) (data : list Z),
    digest_ok h → blocks_one_at_a_time stale n h data = hash_blocks n h data.
Proof.
  induction n as [|n IH]; intros h data Hh; cbn [blocks_one_at_a_time hash_blocks];
    [reflexivity|].
  rewrite <- (one_block_compress stale) by exact Hh.
  destruct (one_block stale h (take 64 data)) as [h'|] eqn:E; cbn [mbind option_bind];
    [|reflexivity].
  apply IH. exact (one_block_digest_ok _ _ _ _ E).
Qed.

Lemma blocks_digest_ok (stale : nat → Z) (n : nat) :
  ∀ (h h' : SHA1) (data : list Z),
    digest_ok h → blocks_one_at_a_time stale n h data = Some h' → digest_ok h'.
Proof.
  induction n as [|n IH]; intros h h' data Hh; cbn [blocks_one_at_a_time].
  - intros [= <-]. exact Hh.
  - destruct (one_block stale h (take 64 data)) as [h1|] eqn:E; cbn [mbind option_bind];
      [|discriminate].
    apply IH. exact (one_block_digest_ok _ _ _ _ E).
Qed.

Lemma blocks_app (stale : nat → Z) (n : nat) (h : SHA1) (a b : list Z) :
  length a = (64 * n)%nat →
  blocks_one_at_a_time stale n h (a ++ b) = blocks_one_at_a_time stale n h a.
Proof.
  intros Ha. rewrite <- (blocks_take stale n h (a ++ b) (64 * n)) by lia.
  rewrite take_app_length' by lia. reflexivity.
Qed.

Lemma sha1_pad_split (memory : list Z) :
  sha1_pad memory =
  take (Z.to_nat (size memory - size memory mod 64)) memory ++
  (if size memory mod 64 + 1 <=? 56
   then pad_single (drop (Z.to_nat (size memory - size memory mod 64)) memory)
                   ((size memory * 8) mod 2 ^ 64)
   else pad_first (drop (Z.to_nat (size memory - size memory mod 64)) memory) ++
        pad_second ((size memory * 8) mod 2 ^ 64)).
Proof.
  pose proof (size_nonneg memory) as H0.
  assert (0 ≤ size memory mod 64 < 64) as Hrem by (apply Z.mod_pos_bound; lia).
  assert (size memory mod 64 ≤ size memory) as Hle by (apply Z.mod_le; lia).
  set (k := Z.to_nat (size memory - size memory mod 64)).
  assert (length (drop k memory) = Z.to_nat (size memory mod 64)) as Hlen.
  { rewrite length_drop. subst k. unfold size in *. lia. }
  unfold sha1_pad. rewrite <- (take_drop k memory) at 1. rewrite <- app_assoc. f_equal.
  destruct (Z.leb_spec (size memory mod 64 + 1) 56) as [Hcase|Hcase].
  - unfold pad_single. rewrite Hlen. do 3 f_equal. f_equal.
    replace ((55 - size memory) mod 64) with (55 - size memory mod 64)
      by (Z.div_mod_to_equations; lia).
    lia.
  - unfold pad_first, pad_second. rewrite Hlen, <- !app_assoc. do 2 f_equal.
    rewrite app_assoc, <- replicate_add. do 2 f_equal.
    replace ((55 - size memory) mod 64) with (119 - size memory mod 64)
      by (Z.div_mod_to_equations; lia).
    lia.
Qed.

Lemma hash_blocks_sha1_pad (stale : nat → Z) (memory : list Z) :
  sha1_reference memory =
  (h ← blocks_one_at_a_time stale (Z.to_nat (size memory / 64)) sha1_init memory;
   if size memory mod 64 + 1 <=? 56
   then blocks_one_at_a_time stale 1 h
          (pad_single (drop (Z.to_nat (size memory - size memory mod 64)) memory)
                      ((size memory * 8) mod 2 ^ 64))
   else h ← blocks_one_at_a_time stale 1 h
              (pad_first (drop (Z.to_nat (size memory - size memory mod 64)) memory));
        blocks_one_at_a_time stale 1 h (pad_second ((size memory * 8) mod 2 ^ 64))).
Proof.
  pose proof (size_nonneg memory) as H0.
  assert (0 ≤ size memory mod 64 < 64) as Hrem by (apply Z.mod_pos_bound; lia).
  assert (size memory mod 64 ≤ size memory) as Hle by (apply Z.mod_le; lia).
  set (bc := Z.to_nat (size memory / 64)).
  assert (Z.to_nat (size memory - size memory mod 64) = 64 * bc)%nat as Hk.
  { subst bc. Z.div_mod_to_equations. lia. }
  set (tail := drop (Z.to_nat (size memory - size memory mod 64)) memory).
  assert (length tail = Z.to_nat (size memory mod 64)) as Hlen.
  { subst tail. rewrite length_drop. unfold size in *. lia. }
  assert (length (take (64 * bc) memory) = (64 * bc)%nat) as Htk.
  { rewrite length_take. unfold size in *. lia. }
  unfold sha1_reference. rewrite <- (blocks_hash_blocks stale) by exact digest_ok_init.
  rewrite sha1_pad_split. fold tail. rewrite Hk.
  rewrite <- (blocks_take stale bc sha1_init memory (64 * bc)) by lia.
  destruct (Z.leb_spec (size memory mod 64 + 1) 56) as [Hcase|Hcase].
  - rewrite length_app, Htk, length_pad_single by lia.
    replace ((64 * bc + 64) / 64)%nat with (bc + 1)%nat
      by (apply (Nat.div_unique _ 64 _ 0); lia).
    rewrite blocks_one_at_a_time_app, blocks_app by exact Htk.
    rewrite drop_app_length' by lia. reflexivity.
  - rewrite !length_app, Htk, length_pad_first, length_pad_second by lia.
    replace ((64 * bc + (64 + 64)) / 64)%nat with (bc + 2)%nat
      by (apply (Nat.div_unique _ 64 _ 0); lia).
    rewrite blocks_one_at_a_time_app, blocks_app by exact Htk.
    rewrite drop_app_length' by lia.
    destruct (blocks_one_at_a_time stale bc sha1_init (take (64 * bc) memory)) as [h|];
      cbn [mbind option_bind]; [|reflexivity].
    rewrite (blocks_one_at_a_time_app stale 1 1).
    rewrite blocks_app by (rewrite length_pad_first by lia; reflexivity).
    rewrite drop_app_length' by (rewrite length_pad_first by lia; reflexivity).
    reflexivity.
Qed.

(** The swaps are one final step, for any backend. *)
Lemma sha1_with_encode (le : bool) (T : transform_fn) (sb : nat → Z) (memory : list Z) :
  sha1_with le T sb memory = (sha1_encode le <$> sha1_with false T sb memory).
Proof.
  rewrite !sha1_with_unfold.
  destruct (T sha1_init memory (u32 (size memory) / 64)) as [h0|];
    cbn [mbind option_bind fmap option_fmap option_map]; [|reflexivity].
  destruct (int_mul (u32 (size memory) / 64) 64) as [off|];
    cbn [mbind option_bind fmap option_fmap option_map]; [|reflexivity].
  destruct (size memory mod 64 + 1 <=? 56).
  - destruct (T h0 _ 1) as [h1|]; reflexivity.
  - destruct (T h0 _ 1) as [h1|]; cbn [mbind option_bind]; [|reflexivity].
    destruct (T h1 _ 1) as [h2|]; reflexivity.
Qed.

Lemma sha1_raw_reference (sw sb : nat → Z) (memory : list Z) :
  size memory < 2 ^ 31 → sha1 false sw sb memory = sha1_reference memory.
Proof.
  intros Hsmall. pose proof (size_nonneg memory) as H0.
  assert (0 ≤ size memory mod 64 < 64) as Hrem by (apply Z.mod_pos_bound; lia).
  assert (size memory mod 64 ≤ size memory) as Hle by (apply Z.mod_le; lia).
  unfold sha1. rewrite sha1_below_2GiB by exact Hsmall.
  rewrite (hash_blocks_sha1_pad sw). rewrite transform_one_at_a_time.
  destruct (blocks_one_at_a_time sw (Z.to_nat (size memory / 64)) sha1_init memory)
    as [h0|]; cbn [mbind option_bind]; [|reflexivity].
  unfold pad_single, pad_first, pad_second. rewrite length_drop.
  replace (55 - (length memory - Z.to_nat (size memory - size memory mod 64)))%nat
    with (Z.to_nat (55 - size memory mod 64)) by (unfold size in *; lia).
  replace (63 - (length memory - Z.to_nat (size memory - size memory mod 64)))%nat
    with (Z.to_nat (63 - size memory mod 64)) by (unfold size in *; lia).
  destruct (size memory mod 64 + 1 <=? 56).
  - rewrite transform_one_at_a_time. change (Z.to_nat 1) with 1%nat.
    destruct (blocks_one_at_a_time sw 1 h0 _) as [h1|]; reflexivity.
  - rewrite transform_one_at_a_time. change (Z.to_nat 1) with 1%nat.
    destruct (blocks_one_at_a_time sw 1 h0 _) as [h1|]; cbn [mbind option_bind];
      [|reflexivity].
    rewrite transform_one_at_a_time. change (Z.to_nat 1) with 1%nat.
    destruct (blocks_one_at_a_time sw 1 h1 _) as [h2|]; reflexivity.
Qed.

Lemma u32_below_2GiB (memory : list Z) :
  size memory < 2 ^ 31 → u32 (size memory) < 2 ^ 31.
Proof.
  intros Hsmall. pose proof (size_nonneg memory). unfold u32.
  rewrite Z.mod_small; [exact Hsmall|].
  change (2 ^ 31) with 2147483648 in *. change (2 ^ 32) with 4294967296. lia.
Qed.

(** X1. Below 2 GiB [sha1] computes SHA-1: the state it encodes is the one
    the compression function reaches from the initial state over the blocks
    of the padded message, in order, and the twenty bytes of the returned
    digest are that state, each word most significant byte first. *)
Theorem sha1_is_sha1_reference (le : bool) (sw sb : nat → Z) (memory : list Z) :
  size memory < 2 ^ 31 →
  is_Some (sha1_reference memory) ∧
  sha1 le sw sb memory = (sha1_encode le <$> sha1_reference memory) ∧
  (digest_bytes le <$> sha1 le sw sb memory) = (state_bytes_be <$> sha1_reference memory).
Proof.
  intros Hsmall.
  pose proof (sha1_raw_reference sw sb memory Hsmall) as Hraw.
  destruct (sha1_total false sw sb memory (u32_below_2GiB memory Hsmall)) as [h Hh].
  change (sha1_encode false h) with h in Hh.
  destruct (sha1_returns_encoded le sw sb memory h Hh) as [Hok Henc].
  rewrite <- Hraw, Hh, Henc. cbn [fmap option_fmap option_map].
  split; [eauto|]. split; [reflexivity|].
  f_equal. apply digest_bytes_encode. exact Hok.
Qed.

Lemma sha1_is_sha1_reference_abc :
  size (bytes_of_string "abc") < 2 ^ 31 ∧
  is_Some (sha1_reference (bytes_of_string "abc")).
Proof.
  split; [reflexivity|].
  exact (proj1 (sha1_is_sha1_reference true (λ _, 0) (λ _, 0) (bytes_of_string "abc")
                  eq_refl)).
Defined.

(** X2. A call of the generic backend returns a state exactly when the block
    count is not positive or [block_count * 64] bytes lie behind [data]: with
    fewer bytes a read of the last block leaves the buffer. *)
Theorem transform_defined_iff (stale : nat → Z) (digest : SHA1) (data : list Z) (blocks : Z) :
  is_Some (generic_sha1_transform stale digest data blocks) ↔
  blocks ≤ 0 ∨ 64 * blocks ≤ Z.of_nat (length data).
Proof.
  rewrite transform_one_at_a_time. split.
  - intros [h Hh].
    destruct (Z_le_gt_dec (64 * blocks) (Z.of_nat (length data))) as [Hle|Hgt]; [tauto|].
    destruct (Z_le_gt_dec blocks 0) as [H0|H0]; [tauto|].
    rewrite blocks_short_None in Hh by lia. discriminate.
  - intros [H0|Hle].
    + replace (Z.to_nat blocks) with 0%nat by lia. cbn [blocks_one_at_a_time]. eauto.
    + apply blocks_is_Some. lia.
Qed.

(** * The Intel SHA extensions backend computes what the generic one does *)

(** ** Bytes and lanes *)

Lemma byte_high_bits (b n : Z) : 0 ≤ b < 256 → 8 ≤ n → Z.testbit b n = false.
Proof.
  intros Hb Hn. rewrite <- (Z.mod_small b (2 ^ 8)) by (change (2 ^ 8) with 256; lia).
  apply Z.mod_pow2_bits_high. lia.
Qed.

Lemma le_bytes_le_combine (b0 b1 b2 b3 : Z) :
  0 ≤ b0 < 256 → 0 ≤ b1 < 256 → 0 ≤ b2 < 256 → 0 ≤ b3 < 256 →
  le_bytes (le_combine b0 b1 b2 b3) = [b0; b1; b2; b3].
Proof.
  intros H0 H1 H2 H3. unfold le_bytes, le_combine.
  f_equal; [|f_equal; [|f_equal; [|f_equal]]].
  all: apply Z.bits_inj'; intros n Hn; rewrite testbit_low_byte by lia.
  all: destruct (Z.ltb_spec n 8) as [Hlt|Hge];
    [rewrite Bool.andb_true_r | rewrite Bool.andb_false_r; symmetry;
     apply byte_high_bits; assumption].
  all: rewrite ?Z.shiftr_spec by lia.
  all: rewrite !Z.lor_spec, !Z.shiftl_spec by lia.
  - rewrite (Z.testbit_neg_r b3), (Z.testbit_neg_r b2), (Z.testbit_neg_r b1) by lia.
    reflexivity.
  - rewrite (Z.testbit_neg_r b3), (Z.testbit_neg_r b2) by lia.
    rewrite (byte_high_bits b0) by (assumption || lia).
    replace (n + 8 - 8) with n by lia.
    rewrite Bool.orb_false_r. reflexivity.
  - rewrite (Z.testbit_neg_r b3) by lia.
    rewrite (byte_high_bits b0), (byte_high_bits b1) by (assumption || lia).
    replace (n + 16 - 16) with n by lia.
    rewrite !Bool.orb_false_r. reflexivity.
  - rewrite (byte_high_bits b0), (byte_high_bits b1), (byte_high_bits b2)
      by (assumption || lia).
    replace (n + 24 - 24) with n by lia.
    rewrite !Bool.orb_false_r. reflexivity.
Qed.

Lemma uload32be_le_combine (data : list Z) (off : nat) (b0 b1 b2 b3 : Z) :
  data !! off = Some b0 → data !! (off + 1)%nat = Some b1 →
  data !! (off + 2)%nat = Some b2 → data !! (off + 3)%nat = Some b3 →
  uload32be data off = Some (le_combine b3 b2 b1 b0).
Proof. intros H0 H1 H2 H3. unfold uload32be. rewrite H0, H1, H2, H3. reflexivity. Qed.

(** An unaligned 16-byte load followed by the byte reversal of [shuf_mask]
    holds the four big-endian words of those bytes, the first in lane 3. *)
Lemma loadu_shuffle (data : list Z) (off : nat) (v : m128i) :
  bytes_ok data → _mm_loadu_si128 data off = Some v →
  ∃ x0 x1 x2 x3,
    uload32be data off = Some x0 ∧ uload32be data (off + 4) = Some x1 ∧
    uload32be data (off + 8) = Some x2 ∧ uload32be data (off + 12) = Some x3 ∧
    _mm_shuffle_epi8 v shuf_mask = V4 x3 x2 x1 x0.
Proof.
  intros Hbytes. unfold _mm_loadu_si128. case_decide as Hlen; [|discriminate].
  intros [= <-].
  assert (length (take 16 (drop off data)) = 16%nat) as Hl
    by (rewrite length_take, length_drop; lia).
  assert (∀ k b, take 16 (drop off data) !! k = Some b →
                 data !! (off + k)%nat = Some b ∧ 0 ≤ b < 256) as Hk.
  { intros k b Hb. assert (k < 16)%nat as Hlt.
    { apply lookup_lt_Some in Hb. lia. }
    rewrite lookup_take_lt, lookup_drop in Hb by exact Hlt.
    split; [exact Hb|]. exact (proj1 (Forall_lookup _ _) Hbytes _ _ Hb). }
  destruct (take 16 (drop off data))
    as [|b0 [|b1 [|b2 [|b3 [|b4 [|b5 [|b6 [|b7 [|b8 [|b9 [|b10 [|b11 [|b12 [|b13 [|b14
        [|b15 [|]]]]]]]]]]]]]]]]]; try discriminate.
  destruct (Hk 0%nat b0 eq_refl) as [L0 R0]. destruct (Hk 1%nat b1 eq_refl) as [L1 R1].
  destruct (Hk 2%nat b2 eq_refl) as [L2 R2]. destruct (Hk 3%nat b3 eq_refl) as [L3 R3].
  destruct (Hk 4%nat b4 eq_refl) as [L4 R4]. destruct (Hk 5%nat b5 eq_refl) as [L5 R5].
  destruct (Hk 6%nat b6 eq_refl) as [L6 R6]. destruct (Hk 7%nat b7 eq_refl) as [L7 R7].
  destruct (Hk 8%nat b8 eq_refl) as [L8 R8]. destruct (Hk 9%nat b9 eq_refl) as [L9 R9].
  destruct (Hk 10%nat b10 eq_refl) as [L10 R10].
  destruct (Hk 11%nat b11 eq_refl) as [L11 R11].
  destruct (Hk 12%nat b12 eq_refl) as [L12 R12].
  destruct (Hk 13%nat b13 eq_refl) as [L13 R13].
  destruct (Hk 14%nat b14 eq_refl) as [L14 R14].
  destruct (Hk 15%nat b15 eq_refl) as [L15 R15].
  rewrite Nat.add_0_r in L0.
  exists (le_combine b3 b2 b1 b0), (le_combine b7 b6 b5 b4),
         (le_combine b11 b10 b9 b8), (le_combine b15 b14 b13 b12).
  split; [apply uload32be_le_combine; assumption|].
  split.
  { apply uload32be_le_combine; [exact L4| | |].
    - replace (off + 4 + 1)%nat with (off + 5)%nat by lia. exact L5.
    - replace (off + 4 + 2)%nat with (off + 6)%nat by lia. exact L6.
    - replace (off + 4 + 3)%nat with (off + 7)%nat by lia. exact L7. }
  split.
  { apply uload32be_le_combine; [exact L8| | |].
    - replace (off + 8 + 1)%nat with (off + 9)%nat by lia. exact L9.
    - replace (off + 8 + 2)%nat with (off + 10)%nat by lia. exact L10.
    - replace (off + 8 + 3)%nat with (off + 11)%nat by lia. exact L11. }
  split.
  { apply uload32be_le_combine; [exact L12| | |].
    - replace (off + 12 + 1)%nat with (off + 13)%nat by lia. exact L13.
    - replace (off + 12 + 2)%nat with (off + 14)%nat by lia. exact L14.
    - replace (off + 12 + 3)%nat with (off + 15)%nat by lia. exact L15. }
  unfold _mm_shuffle_epi8.
  assert (m128i_bytes (m128i_of_bytes
            [b0; b1; b2; b3; b4; b5; b6; b7; b8; b9; b10; b11; b12; b13; b14; b15]) =
          [b0; b1; b2; b3; b4; b5; b6; b7; b8; b9; b10; b11; b12; b13; b14; b15]) as ->.
  { unfold m128i_bytes, m128i_of_bytes.
    cbn [lane0 lane1 lane2 lane3 lookup_total list_lookup_total].
    rewrite !le_bytes_le_combine by assumption. reflexivity. }
  change (m128i_bytes shuf_mask)
    with [15; 14; 13; 12; 11; 10; 9; 8; 7; 6; 5; 4; 3; 2; 1; 0].
  reflexivity.
Qed.

(** ** Four rounds *)

Lemma sha1rnds4_f_round_F (func : nat) (B C D : Z) :
  (func < 4)%nat → u32_range D →
  sha1rnds4_f (Z.land (Z.of_nat func) 3) B C D = round_F (20 * func) B C D.
Proof.
  intros Hf HD.
  destruct func as [|[|[|[|]]]]; try lia.
  - change (round_F (20 * 0)) with f_choose.
    change (sha1rnds4_f (Z.land (Z.of_nat 0) 3) B C D)
      with (Z.lxor (Z.land B C) (Z.land (u32_not B) D)).
    unfold f_choose, u32_not.
    apply Z.bits_inj'. intros n Hn.
    rewrite Z.lxor_spec, Z.lor_spec, !Z.land_spec, Z.lxor_spec.
    destruct (Z_lt_le_dec n 32) as [Hlt|Hge].
    + change 0xFFFFFFFF with (Z.ones 32). rewrite Z.ones_spec_low by lia.
      destruct (Z.testbit B n), (Z.testbit C n), (Z.testbit D n); reflexivity.
    + rewrite (u32_range_high D n HD Hge).
      rewrite !Bool.andb_false_r, Bool.xorb_false_r, Bool.orb_false_r. reflexivity.
  - reflexivity.
  - change (round_F (20 * 2)) with f_majority.
    change (sha1rnds4_f (Z.land (Z.of_nat 2) 3) B C D)
      with (Z.lxor (Z.lxor (Z.land B C) (Z.land B D)) (Z.land C D)).
    unfold f_majority.
    apply Z.bits_inj'. intros n Hn.
    rewrite !Z.lxor_spec, !Z.lor_spec, !Z.land_spec.
    destruct (Z.testbit B n), (Z.testbit C n), (Z.testbit D n); reflexivity.
  - reflexivity.
Qed.

Lemma sha1rnds4_K_round_K (func : nat) :
  (func < 4)%nat → sha1rnds4_K (Z.land (Z.of_nat func) 3) = round_K (20 * func).
Proof.
  intros Hf. destruct func as [|[|[|[|]]]]; try lia; reflexivity.
Qed.

Lemma u32_sum_first (F R W K E m : Z) :
  u32 W = u32 (E + m) →
  u32 (u32 (u32 (F + R) + W) + K) = u32 (E + F + m + K + R).
Proof.
  unfold u32. change (2 ^ 32) with 4294967296. intros H.
  Z.div_mod_to_equations. lia.
Qed.

Lemma u32_sum_next (F R W K E m : Z) :
  u32 W = u32 m →
  u32 (u32 (u32 (u32 (F + R) + W) + E) + K) = u32 (E + F + m + K + R).
Proof.
  unfold u32. change (2 ^ 32) with 4294967296. intros H.
  Z.div_mod_to_equations. lia.
Qed.

Lemma round_step_ok (f : Z → Z → Z → Z) (K : Z) (r : regs) (m : Z) :
  regs_ok r → regs_ok (round_step f K r m).
Proof.
  intros (HA & HB & HC & HD & HE). unfold round_step, regs_ok. cbn [rA rB rC rD rE].
  split; [apply u32_range_u32|]. split; [exact HA|].
  split; [apply u32_rol_range; [exact HB | lia]|]. split; assumption.
Qed.

Lemma round4_ok (func : nat) (r : regs) (m0 m1 m2 m3 : Z) :
  regs_ok r → regs_ok (round4 func r m0 m1 m2 m3).
Proof. intros Hr. unfold round4. do 4 apply round_step_ok. exact Hr. Qed.

(** Four rounds later E is the old A rotated left by 30. *)
Lemma round4_rE (func : nat) (r : regs) (m0 m1 m2 m3 : Z) :
  rE (round4 func r m0 m1 m2 m3) = u32_rol (rA r) 30.
Proof. reflexivity. Qed.

(** [_mm_sha1rnds4_epu32] on A, B, C, D of [r], with E of [r] folded into the
    first message word, is four canonical rounds. *)
Lemma sha1rnds4_round4 (func : nat) (r : regs) (x0 x1 x2 x3 m0 m1 m2 m3 : Z) :
  (func < 4)%nat → regs_ok r →
  u32 x0 = u32 (rE r + m0) → u32 x1 = u32 m1 → u32 x2 = u32 m2 → u32 x3 = u32 m3 →
  _mm_sha1rnds4_epu32 (vabcd r) (V4 x3 x2 x1 x0) (Z.of_nat func) =
  vabcd (round4 func r m0 m1 m2 m3).
Proof.
  intros Hf Hr H0 H1 H2 H3.
  pose proof (round_step_ok (round_F (20 * func)) (round_K (20 * func)) r m0 Hr) as Hr1.
  set (r1 := round_step (round_F (20 * func)) (round_K (20 * func)) r m0) in *.
  pose proof (round_step_ok (round_F (20 * func)) (round_K (20 * func)) r1 m1 Hr1) as Hr2.
  set (r2 := round_step (round_F (20 * func)) (round_K (20 * func)) r1 m1) in *.
  pose proof (round_step_ok (round_F (20 * func)) (round_K (20 * func)) r2 m2 Hr2) as Hr3.
  set (r3 := round_step (round_F (20 * func)) (round_K (20 * func)) r2 m2) in *.
  assert (u32 (u32 (u32 (sha1rnds4_f (Z.land (Z.of_nat func) 3) (rB r) (rC r) (rD r)
                         + u32_rol (rA r) 5) + x0)
               + sha1rnds4_K (Z.land (Z.of_nat func) 3)) = rA r1) as E1.
  { rewrite sha1rnds4_f_round_F, sha1rnds4_K_round_K by (assumption || apply Hr).
    apply u32_sum_first. exact H0. }
  assert (∀ rr x m, regs_ok rr → u32 x = u32 m →
            u32 (u32 (u32 (u32 (sha1rnds4_f (Z.land (Z.of_nat func) 3) (rB rr) (rC rr) (rD rr)
                                + u32_rol (rA rr) 5) + x) + rE rr)
                     + sha1rnds4_K (Z.land (Z.of_nat func) 3)) =
            rA (round_step (round_F (20 * func)) (round_K (20 * func)) rr m)) as Enext.
  { intros rr x m Hrr Hx.
    rewrite sha1rnds4_f_round_F, sha1rnds4_K_round_K by (assumption || apply Hrr).
    apply u32_sum_next. exact Hx. }
  unfold _mm_sha1rnds4_epu32, vabcd. cbn [lane0 lane1 lane2 lane3]. cbv zeta.
  rewrite E1.
  change (rA r) with (rB r1). change (u32_rol (rB r) 30) with (rC r1).
  change (rC r) with (rD r1). change (rD r) with (rE r1).
  rewrite (Enext r1 x1 m1 Hr1 H1). fold r2.
  change (rA r1) with (rB r2). change (u32_rol (rB r1) 30) with (rC r2).
  change (rC r1) with (rD r2). change (rD r1) with (rE r2).
  rewrite (Enext r2 x2 m2 Hr2 H2). fold r3.
  change (rA r2) with (rB r3). change (u32_rol (rB r2) 30) with (rC r3).
  change (rC r2) with (rD r3). change (rD r2) with (rE r3).
  rewrite (Enext r3 x3 m3 Hr3 H3).
  unfold round4. fold r1. fold r2. fold r3. reflexivity.
Qed.

(** ** The message schedule, four words at a time *)

Lemma lxor_perm (a b c d : Z) :
  Z.lxor (Z.lxor (Z.lxor c d) b) a = Z.lxor (Z.lxor (Z.lxor a b) c) d.
Proof.
  apply Z.bits_inj'. intros n Hn. rewrite !Z.lxor_spec.
  destruct (Z.testbit a n), (Z.testbit b n), (Z.testbit c n), (Z.testbit d n); reflexivity.
Qed.

(** [sha1msg1], the xor and [sha1msg2] on four consecutive groups of a
    schedule give the next group. *)
Lemma sha1msg_next (w : list Z) (g : nat) :
  (∀ i, (16 ≤ i < 80)%nat → w !!! i = schedule_word w i) →
  (g + 4 < 20)%nat →
  _mm_sha1msg2_epu32
    (_mm_xor_si128 (_mm_sha1msg1_epu32 (Wv w g) (Wv w (g + 1))) (Wv w (g + 2)))
    (Wv w (g + 3)) = Wv w (g + 4).
Proof.
  intros Hrec Hg.
  unfold _mm_sha1msg2_epu32, _mm_xor_si128, _mm_sha1msg1_epu32, Wv.
  cbn [lane0 lane1 lane2 lane3]. cbv zeta.
  match goal with
  | |- V4 _ _ _ ?t = _ => assert (t = w !!! (4 * (g + 4))%nat) as ->
  end.
  { rewrite (Hrec (4 * (g + 4))%nat) by lia. unfold schedule_word.
    rewrite lxor_perm. repeat (f_equal; try lia). }
  f_equal.
  - rewrite (Hrec (4 * (g + 4) + 3)%nat) by lia. unfold schedule_word.
    rewrite lxor_perm. repeat (f_equal; try lia).
  - rewrite (Hrec (4 * (g + 4) + 2)%nat) by lia. unfold schedule_word.
    rewrite lxor_perm. repeat (f_equal; try lia).
  - rewrite (Hrec (4 * (g + 4) + 1)%nat) by lia. unfold schedule_word.
    rewrite lxor_perm. repeat (f_equal; try lia).
Qed.

(** ** Twenty groups of four rounds *)

Lemma spec_round_ok (w : list Z) (r : regs) (i : nat) :
  regs_ok r → regs_ok (spec_round w r i).
Proof. apply (round_step_ok (round_F i) (round_K i) r (w !!! i)). Qed.

Lemma foldl_spec_round_ok (w : list Z) (l : list nat) :
  ∀ r, regs_ok r → regs_ok (foldl (spec_round w) r l).
Proof.
  induction l as [|i l IH]; intros r Hr; cbn [foldl]; [exact Hr|].
  apply IH, spec_round_ok, Hr.
Qed.

Lemma rounds_upto_ok (w : list Z) (r : regs) (k : nat) :
  regs_ok r → regs_ok (rounds_upto w r k).
Proof. apply foldl_spec_round_ok. Qed.

Lemma group_round4 (w : list Z) (r : regs) (k : nat) :
  (k < 20)%nat →
  foldl (spec_round w) r (seq (4 * k) 4) =
  round4 (k / 5) r (w !!! (4 * k)%nat) (w !!! (4 * k + 1)%nat) (w !!! (4 * k + 2)%nat)
         (w !!! (4 * k + 3)%nat).
Proof.
  intros Hk. do 20 (destruct k as [|k]; [reflexivity|]). lia.
Qed.

Lemma rounds_upto_S (w : list Z) (r : regs) (k : nat) :
  (k < 20)%nat →
  rounds_upto w r (S k) =
  round4 (k / 5) (rounds_upto w r k) (w !!! (4 * k)%nat) (w !!! (4 * k + 1)%nat)
         (w !!! (4 * k + 2)%nat) (w !!! (4 * k + 3)%nat).
Proof.
  intros Hk. rewrite <- group_round4 by exact Hk. unfold rounds_upto.
  replace (4 * S k)%nat with (4 * k + 4)%nat by lia.
  rewrite seq_app, foldl_app. reflexivity.
Qed.

Lemma rounds_upto_rE (w : list Z) (r : regs) (k : nat) :
  (k < 20)%nat → rE (rounds_upto w r (S k)) = u32_rol (rA (rounds_upto w r k)) 30.
Proof. intros Hk. rewrite rounds_upto_S by exact Hk. apply round4_rE. Qed.

Lemma u32_u32_add_comm (a b : Z) : u32 (u32 (a + b)) = u32 (b + a).
Proof. unfold u32. rewrite Z.mod_mod by discriminate. f_equal. lia. Qed.

Lemma u32_u32_zero_add (a : Z) : u32 (u32 (0 + a)) = u32 a.
Proof. unfold u32. rewrite Z.mod_mod by discriminate. reflexivity. Qed.

(** Rounds 0-3: E is added to the first word by [_mm_add_epi32]. *)
Lemma intel_group_first (w : list Z) (r : regs) :
  regs_ok r →
  _mm_sha1rnds4_epu32 (vabcd r) (_mm_add_epi32 (V4 0 0 0 (rE r)) (Wv w 0)) 0 =
  vabcd (rounds_upto w r 1).
Proof.
  intros Hr. rewrite rounds_upto_S by lia.
  unfold _mm_add_epi32, Wv. cbn [lane0 lane1 lane2 lane3].
  change (rounds_upto w r 0) with r.
  apply (sha1rnds4_round4 0 r); try exact Hr; try lia.
  - rewrite u32_u32_add_comm. f_equal. lia.
  - apply u32_u32_zero_add.
  - apply u32_u32_zero_add.
  - apply u32_u32_zero_add.
Qed.

(** Every later group: E comes from the [abcd] of the group before through
    [_mm_sha1nexte_epu32]. *)
Lemma intel_group (w : list Z) (r : regs) (j : nat) (func : Z) :
  regs_ok r → (S j < 20)%nat → func = Z.of_nat (S j / 5) →
  _mm_sha1rnds4_epu32 (vabcd (rounds_upto w r (S j)))
    (_mm_sha1nexte_epu32 (vabcd (rounds_upto w r j)) (Wv w (S j))) func =
  vabcd (rounds_upto w r (S (S j))).
Proof.
  intros Hr Hj ->. rewrite (rounds_upto_S w r (S j)) by exact Hj.
  unfold _mm_sha1nexte_epu32, Wv. cbn [lane0 lane1 lane2 lane3].
  apply sha1rnds4_round4.
  - apply Nat.Div0.div_lt_upper_bound. lia.
  - apply rounds_upto_ok, Hr.
  - rewrite rounds_upto_rE by lia. unfold vabcd. cbn [lane3].
    rewrite u32_u32_add_comm. reflexivity.
  - reflexivity.
  - reflexivity.
  - reflexivity.
Qed.

Lemma sha1msg_next_S (w : list Z) (g : nat) :
  (∀ i, (16 ≤ i < 80)%nat → w !!! i = schedule_word w i) →
  (g < 16)%nat →
  _mm_sha1msg2_epu32
    (_mm_xor_si128 (_mm_sha1msg1_epu32 (Wv w g) (Wv w (S g))) (Wv w (S (S g))))
    (Wv w (S (S (S g)))) = Wv w (S (S (S (S g)))).
Proof.
  intros Hrec Hg. pose proof (sha1msg_next w g Hrec ltac:(lia)) as H.
  replace (g + 1)%nat with (S g) in H by lia.
  replace (g + 2)%nat with (S (S g)) in H by lia.
  replace (g + 3)%nat with (S (S (S g))) in H by lia.
  replace (g + 4)%nat with (S (S (S (S g)))) in H by lia. exact H.
Qed.

(** ** One block *)

Lemma schedule_spec_facts (data w : list Z) :
  schedule_spec data = Some w →
  (64 ≤ length data)%nat ∧
  (∀ i, (i < 16)%nat → uload32be data (i * 4) = Some (w !!! i)) ∧
  (∀ i, (16 ≤ i < 80)%nat → w !!! i = schedule_word w i).
Proof.
  intros Hw. change (foldl (step_append data) (Some []) (seq 0 80) = Some w) in Hw.
  destruct (spec_prefix_words _ _ _ Hw) as [Hl Hrec].
  split; [|split].
  - assert (is_Some (uload32be data (15 * 4))) as Hs by (rewrite Hl by lia; eauto).
    apply uload32be_is_Some in Hs. lia.
  - intros i Hi. apply Hl; lia.
  - exact Hrec.
Qed.

(** The four loads of a block and their byte shuffles give the first sixteen
    words of the schedule. *)
Lemma intel_loads (data w : list Z) (k : nat) :
  bytes_ok data → schedule_spec data = Some w → (k < 4)%nat →
  ∃ v, _mm_loadu_si128 data (16 * k) = Some v ∧ _mm_shuffle_epi8 v shuf_mask = Wv w k.
Proof.
  intros Hb Hw Hk. destruct (schedule_spec_facts data w Hw) as (Hlen & Hl & _).
  destruct (_mm_loadu_si128 data (16 * k)) as [v|] eqn:Ev.
  - exists v. split; [reflexivity|].
    destruct (loadu_shuffle data (16 * k) v Hb Ev) as (x0 & x1 & x2 & x3 & E0 & E1 & E2 & E3 & ->).
    unfold Wv.
    pose proof (Hl (4 * k)%nat ltac:(lia)) as H0.
    pose proof (Hl (4 * k + 1)%nat ltac:(lia)) as H1.
    pose proof (Hl (4 * k + 2)%nat ltac:(lia)) as H2.
    pose proof (Hl (4 * k + 3)%nat ltac:(lia)) as H3.
    replace (4 * k * 4)%nat with (16 * k)%nat in H0 by lia.
    replace ((4 * k + 1) * 4)%nat with (16 * k + 4)%nat in H1 by lia.
    replace ((4 * k + 2) * 4)%nat with (16 * k + 8)%nat in H2 by lia.
    replace ((4 * k + 3) * 4)%nat with (16 * k + 12)%nat in H3 by lia.
    congruence.
  - exfalso. unfold _mm_loadu_si128 in Ev.
    destruct (decide (16 * k + 16 ≤ length data)%nat); [discriminate|lia].
Qed.

Ltac intel_step stanza :=
  unfold stanza; cbv beta iota zeta;
  repeat match goal with
         | H : _mm_shuffle_epi8 _ shuf_mask = Wv _ _ |- _ => rewrite !H
         end;
  rewrite ?sha1msg_next_S by first [assumption | lia];
  rewrite intel_group by first [assumption | lia | reflexivity].

(** The eighty rounds of the Intel loop body on a shuffled block are the
    eighty canonical rounds; [e0] ends as the state one group earlier. *)
Lemma intel_rounds_chain (w : list Z) (r : regs) (m0 m1 m2 m3 : m128i) :
  regs_ok r →
  (∀ i, (16 ≤ i < 80)%nat → w !!! i = schedule_word w i) →
  _mm_shuffle_epi8 m0 shuf_mask = Wv w 0 →
  _mm_shuffle_epi8 m1 shuf_mask = Wv w 1 →
  _mm_shuffle_epi8 m2 shuf_mask = Wv w 2 →
  _mm_shuffle_epi8 m3 shuf_mask = Wv w 3 →
  ∃ e1 x0 x1 x2 x3,
    intel_rounds_76_79 (intel_rounds_72_75 (intel_rounds_68_71 (intel_rounds_64_67
    (intel_rounds_60_63 (intel_rounds_56_59 (intel_rounds_52_55 (intel_rounds_48_51
    (intel_rounds_44_47 (intel_rounds_40_43 (intel_rounds_36_39 (intel_rounds_32_35
    (intel_rounds_28_31 (intel_rounds_24_27 (intel_rounds_20_23 (intel_rounds_16_19
    (intel_rounds_12_15 (intel_rounds_8_11 (intel_rounds_4_7
    (intel_rounds_0_3 (vabcd r) (V4 0 0 0 (rE r)) m0 m1 m2 m3))))))))))))))))))) =
    IntelVars (vabcd (rounds_upto w r 20)) (vabcd (rounds_upto w r 19)) e1 x0 x1 x2 x3.
Proof.
  intros Hr Hrec S0 S1 S2 S3.
  unfold intel_rounds_0_3. cbv beta iota zeta.
  rewrite S0, intel_group_first by exact Hr.
  change (vabcd r) with (vabcd (rounds_upto w r 0)).
  intel_step intel_rounds_4_7.
  intel_step intel_rounds_8_11.
  intel_step intel_rounds_12_15.
  intel_step intel_rounds_16_19.
  intel_step intel_rounds_20_23.
  intel_step intel_rounds_24_27.
  intel_step intel_rounds_28_31.
  intel_step intel_rounds_32_35.
  intel_step intel_rounds_36_39.
  intel_step intel_rounds_40_43.
  intel_step intel_rounds_44_47.
  intel_step intel_rounds_48_51.
  intel_step intel_rounds_52_55.
  intel_step intel_rounds_56_59.
  intel_step intel_rounds_60_63.
  intel_step intel_rounds_64_67.
  intel_step intel_rounds_68_71.
  intel_step intel_rounds_72_75.
  intel_step intel_rounds_76_79.
  eauto 10.
Qed.

Lemma rounds_upto_20 (w : list Z) (r : regs) : rounds_upto w r 20 = spec_rounds w r.
Proof. unfold rounds_upto, spec_rounds. change (4 * 20)%nat with 80%nat. reflexivity. Qed.

Lemma intel_block_compress (h : SHA1) (data : list Z) :
  bytes_ok data → digest_ok h →
  intel_block (vabcd (regs_of h)) (V4 0 0 0 (data4 h)) data =
  (h' ← compress h data; Some (vabcd (regs_of h'), V4 0 0 0 (data4 h'), drop 64 data)).
Proof.
  intros Hb Hh. unfold compress.
  destruct (schedule_spec data) as [w|] eqn:Hw; cbn [mbind option_bind].
  - destruct (schedule_spec_facts data w Hw) as (_ & _ & Hrec).
    destruct (intel_loads data w 0 Hb Hw ltac:(lia)) as (m0 & L0 & S0).
    destruct (intel_loads data w 1 Hb Hw ltac:(lia)) as (m1 & L1 & S1).
    destruct (intel_loads data w 2 Hb Hw ltac:(lia)) as (m2 & L2 & S2).
    destruct (intel_loads data w 3 Hb Hw ltac:(lia)) as (m3 & L3 & S3).
    change (16 * 0)%nat with 0%nat in L0. change (16 * 1)%nat with 16%nat in L1.
    change (16 * 2)%nat with 32%nat in L2. change (16 * 3)%nat with 48%nat in L3.
    unfold intel_block. cbv zeta.
    rewrite L0. cbn [mbind option_bind]. rewrite L1. cbn [mbind option_bind].
    rewrite L2. cbn [mbind option_bind]. rewrite L3. cbn [mbind option_bind].
    destruct (intel_rounds_chain w (regs_of h) m0 m1 m2 m3 Hh Hrec S0 S1 S2 S3)
      as (e1 & x0 & x1 & x2 & x3 & Hchain).
    change (data4 h) with (rE (regs_of h)) at 1 2.
    rewrite Hchain. cbn [iv_abcd iv_e0].
    pose proof (rounds_upto_rE w (regs_of h) 19 ltac:(lia)) as HE.
    rewrite rounds_upto_20 in *.
    unfold _mm_sha1nexte_epu32, _mm_add_epi32, vabcd, feed_forward, regs_of.
    cbn [lane0 lane1 lane2 lane3 rA rB rC rD rE data0 data1 data2 data3 data4].
    unfold vabcd in HE. cbn [rA rB rC rD rE] in HE. fold (regs_of h). rewrite <- HE.
    rewrite (Z.add_comm (rD _)), (Z.add_comm (rC _)), (Z.add_comm (rB _)),
      (Z.add_comm (rA _)). reflexivity.
  - assert (¬ (64 ≤ length data)%nat) as Hshort.
    { intros Hlen. destruct (proj2 (schedule_is_Some (λ _, 0) data) Hlen) as [w Hs].
      rewrite schedule_is_spec in Hs. congruence. }
    unfold intel_block. cbv zeta.
    destruct (_mm_loadu_si128 data 0); cbn [mbind option_bind]; [|reflexivity].
    destruct (_mm_loadu_si128 data 16); cbn [mbind option_bind]; [|reflexivity].
    destruct (_mm_loadu_si128 data 32); cbn [mbind option_bind]; [|reflexivity].
    unfold _mm_loadu_si128.
    destruct (decide (48 + 16 ≤ length data)%nat); [lia|reflexivity].
Qed.

Lemma intel_loop_blocks (stale : nat → Z) (n : nat) :
  ∀ (h : SHA1) (data : list Z),
    bytes_ok data → digest_ok h →
    intel_loop n (vabcd (regs_of h)) (V4 0 0 0 (data4 h)) data =
    (h' ← blocks_one_at_a_time stale n h data;
     Some (vabcd (regs_of h'), V4 0 0 0 (data4 h'), drop (64 * n) data)).
Proof.
  induction n as [|n IH]; intros h data Hb Hh; cbn [intel_loop blocks_one_at_a_time].
  - reflexivity.
  - rewrite intel_block_compress by assumption.
    rewrite one_block_take, (one_block_compress stale) by exact Hh.
    destruct (compress h data) as [h1|] eqn:E1; cbn [mbind option_bind]; [|reflexivity].
    assert (digest_ok h1) as Hh1.
    { apply (one_block_digest_ok stale h h1 data). rewrite one_block_compress by exact Hh.
      exact E1. }
    rewrite IH by (try exact Hh1; apply Forall_drop, Hb).
    rewrite drop_drop. replace (64 + 64 * n)%nat with (64 * S n)%nat by lia. reflexivity.
Qed.

Lemma intel_prologue (h : SHA1) :
  digest_ok h →
  _mm_shuffle_epi32 (V4 (data0 h) (data1 h) (data2 h) (data3 h)) 0x1b = vabcd (regs_of h) ∧
  _mm_and_si128 (_mm_insert_epi32_3 _mm_setzero_si128 (data4 h)) e_mask = V4 0 0 0 (data4 h).
Proof.
  intros (_ & _ & _ & _ & H4). split; [reflexivity|].
  unfold _mm_and_si128, _mm_insert_epi32_3, _mm_setzero_si128.
  cbn [lane0 lane1 lane2 lane3].
  change (lane3 e_mask) with (Z.ones 32). rewrite Z.land_ones by lia.
  unfold u32_range in H4. unfold u32. rewrite (Z.mod_small (data4 h)) by exact H4.
  rewrite (Z.mod_small (data4 h)) by exact H4. reflexivity.
Qed.

Lemma intel_transform_blocks (stale : nat → Z) (digest_addr : Z) (digest : SHA1)
    (data : list Z) (blocks : Z) :
  bytes_ok data → digest_ok digest →
  intel_sha1_transform digest_addr digest data blocks =
  (if decide (digest_addr mod 16 = 0)
   then blocks_one_at_a_time stale (Z.to_nat blocks) digest data else None).
Proof.
  intros Hb Hh. unfold intel_sha1_transform. cbv zeta.
  destruct (intel_prologue digest Hh) as [-> ->].
  rewrite (intel_loop_blocks stale) by assumption. unfold _mm_store_si128.
  destruct (blocks_one_at_a_time stale (Z.to_nat blocks) digest data) as [h'|];
    cbn [mbind option_bind]; destruct (decide (digest_addr mod 16 = 0));
    cbn [mbind option_bind]; try reflexivity.
  destruct h'. reflexivity.
Qed.

(** X3. On bytes and 32-bit state words the transform written with the Intel
    SHA extensions, given a [digest] pointer that is a multiple of 16, returns
    what the portable transform returns, for every block count, and fails
    with it on a buffer shorter than the blocks asked for.  Given any other
    [digest] pointer it faults at its aligned store, for every block count,
    where the portable transform returns. *)
Theorem intel_is_generic (stale : nat → Z) (digest_addr : Z) (digest : SHA1)
    (data : list Z) (blocks : Z) :
  bytes_ok data → digest_ok digest →
  intel_sha1_transform digest_addr digest data blocks =
  (if decide (digest_addr mod 16 = 0)
   then generic_sha1_transform stale digest data blocks else None).
Proof.
  intros Hb Hh. rewrite transform_one_at_a_time.
  apply intel_transform_blocks; assumption.
Qed.

Lemma bytes_ok_replicate (n : nat) (b : Z) : 0 ≤ b < 256 → bytes_ok (replicate n b).
Proof. intros H. apply Forall_replicate. exact H. Qed.

Lemma intel_is_generic_two_blocks :
  bytes_ok (replicate 128 97) ∧ digest_ok sha1_init ∧
  intel_sha1_transform 64 sha1_init (replicate 128 97) 2 =
    generic_sha1_transform (λ _, 0) sha1_init (replicate 128 97) 2 ∧
  intel_sha1_transform 68 sha1_init (replicate 128 97) 2 = None.
Proof.
  split; [apply bytes_ok_replicate; lia|]. split; [exact digest_ok_init|].
  split.
  - exact (intel_is_generic (λ _, 0) 64 sha1_init (replicate 128 97) 2
             (bytes_ok_replicate 128 97 ltac:(lia)) digest_ok_init).
  - exact (intel_is_generic (λ _, 0) 68 sha1_init (replicate 128 97) 2
             (bytes_ok_replicate 128 97 ltac:(lia)) digest_ok_init).
Defined.

(** * The ARMv8 Crypto transform against the portable one *)

Lemma le_combine_range (b0 b1 b2 b3 : Z) :
  0 ≤ b0 < 256 → 0 ≤ b1 < 256 → 0 ≤ b2 < 256 → 0 ≤ b3 < 256 →
  u32_range (le_combine b0 b1 b2 b3).
Proof.
  intros H0 H1 H2 H3. unfold le_combine. apply u32_range_bits.
  - repeat (apply Z.lor_nonneg; split); try apply Z.shiftl_nonneg; lia.
  - intros n Hn. rewrite !Z.lor_spec, !Z.shiftl_spec by lia.
    rewrite (byte_high_bits b3), (byte_high_bits b2), (byte_high_bits b1),
      (byte_high_bits b0) by lia.
    reflexivity.
Qed.

Lemma u32_range_lxor (a b : Z) : u32_range a → u32_range b → u32_range (Z.lxor a b).
Proof.
  intros Ha Hb. apply u32_range_bits.
  - apply Z.lxor_nonneg. unfold u32_range in *. lia.
  - intros n Hn. rewrite Z.lxor_spec, (u32_range_high a n Ha Hn), (u32_range_high b n Hb Hn).
    reflexivity.
Qed.

Lemma testbit_u32_rol (x c n : Z) :
  u32_range x → 0 < c < 32 → 0 ≤ n →
  Z.testbit (u32_rol x c) n =
  if n <? c then Z.testbit x (n + 32 - c)
  else if n <? 32 then Z.testbit x (n - c) else false.
Proof.
  intros Hx Hc Hn. unfold u32_rol.
  rewrite Z.lor_spec, testbit_u32, Z.shiftr_spec, Z.shiftl_spec by lia.
  replace (n + (32 - c)) with (n + 32 - c) by lia.
  destruct (Z.ltb_spec n c) as [H1|H1].
  - rewrite (Z.testbit_neg_r x (n - c)) by lia.
    rewrite Bool.andb_false_r. reflexivity.
  - rewrite (u32_range_high x (n + 32 - c) Hx) by lia. rewrite Bool.orb_false_r.
    destruct (Z.ltb_spec n 32); reflexivity.
Qed.

Lemma u32_rol_lxor (a b c : Z) :
  u32_range a → u32_range b → 0 < c < 32 →
  u32_rol (Z.lxor a b) c = Z.lxor (u32_rol a c) (u32_rol b c).
Proof.
  intros Ha Hb Hc. apply Z.bits_inj'. intros n Hn.
  rewrite Z.lxor_spec, !testbit_u32_rol by (try apply u32_range_lxor; assumption).
  destruct (n <? c); [apply Z.lxor_spec|].
  destruct (n <? 32); [apply Z.lxor_spec|reflexivity].
Qed.

Lemma u32_rol_1_1 (x : Z) : u32_range x → u32_rol (u32_rol x 1) 1 = u32_rol x 2.
Proof.
  intros Hx. apply Z.bits_inj'. intros n Hn.
  rewrite (testbit_u32_rol (u32_rol x 1)) by (try apply u32_rol_range; try assumption; lia).
  rewrite (testbit_u32_rol x 2) by (assumption || lia).
  destruct (Z.ltb_spec n 1) as [H1|H1].
  - rewrite testbit_u32_rol by (assumption || lia).
    assert (n = 0) as -> by lia. reflexivity.
  - destruct (Z.ltb_spec n 32) as [H2|H2].
    + rewrite testbit_u32_rol by (assumption || lia).
      destruct (Z.ltb_spec (n - 1) 1) as [H3|H3].
      * assert (n = 1) as -> by lia. reflexivity.
      * destruct (Z.ltb_spec (n - 1) 32); [|lia].
        destruct (Z.ltb_spec n 2); [lia|]. f_equal. lia.
    + destruct (Z.ltb_spec n 2); [lia|reflexivity].
Qed.

(** ** The logic functions *)

Lemma SHAchoose_ok (B C D : Z) : u32_range D → SHAchoose B C D = f_choose B C D.
Proof.
  intros HD. unfold SHAchoose, f_choose, u32_not.
  apply Z.bits_inj'. intros n Hn.
  rewrite !Z.lxor_spec, Z.lor_spec, !Z.land_spec, !Z.lxor_spec.
  destruct (Z_lt_le_dec n 32) as [Hlt|Hge].
  - change 0xFFFFFFFF with (Z.ones 32). rewrite Z.ones_spec_low by lia.
    destruct (Z.testbit B n), (Z.testbit C n), (Z.testbit D n); reflexivity.
  - rewrite (u32_range_high D n HD Hge).
    destruct (Z.testbit B n), (Z.testbit C n), (Z.testbit 0xFFFFFFFF n); reflexivity.
Qed.

Lemma SHAparity_ok (B C D : Z) : u32_range D → SHAparity B C D = f_parity B C D.
Proof. reflexivity. Qed.

Lemma SHAmajority_ok (B C D : Z) : u32_range D → SHAmajority B C D = f_majority B C D.
Proof.
  intros _. unfold SHAmajority, f_majority.
  apply Z.bits_inj'. intros n Hn.
  rewrite !Z.lor_spec, !Z.land_spec, !Z.lor_spec.
  destruct (Z.testbit B n), (Z.testbit C n), (Z.testbit D n); reflexivity.
Qed.

(** ** Four rounds *)

Lemma u32_sum_arm (E R F m K : Z) :
  u32 (E + R + F + u32 (m + u32 K)) = u32 (E + F + m + K + R).
Proof.
  unfold u32. change (2 ^ 32) with 4294967296. Z.div_mod_to_equations. lia.
Qed.

Lemma sha1_hash_step_ok (f F : Z → Z → Z → Z) (K : Z) (r : regs) (m : Z) :
  (∀ B C D, u32_range D → f B C D = F B C D) → regs_ok r →
  sha1_hash_step f (qabcd r, rE r) (u32 (m + u32 K)) =
  (qabcd (round_step F K r m), rE (round_step F K r m)).
Proof.
  intros Hf Hr. unfold sha1_hash_step, qabcd, round_step.
  cbn [q0 q1 q2 q3 rA rB rC rD rE].
  rewrite Hf by apply Hr. rewrite u32_sum_arm. reflexivity.
Qed.

(** [vsha1cq_u32], [vsha1pq_u32] and [vsha1mq_u32] on the state [r] and four
    words with the round constant added are four canonical rounds. *)
Lemma sha1_hash_round4 (f : Z → Z → Z → Z) (func : nat) (K : Z) (r : regs)
    (m0 m1 m2 m3 : Z) :
  (∀ B C D, u32_range D → f B C D = round_F (20 * func) B C D) →
  K = round_K (20 * func) → regs_ok r →
  sha1_hash f (qabcd r) (rE r) (vaddq_u32 (Q4 m0 m1 m2 m3) (vdupq_n_u32 K)) =
  qabcd (round4 func r m0 m1 m2 m3).
Proof.
  intros Hf -> Hr. unfold sha1_hash, vaddq_u32, vdupq_n_u32, round4.
  cbn [q0 q1 q2 q3].
  rewrite (sha1_hash_step_ok f _ _ r m0 Hf Hr).
  rewrite (sha1_hash_step_ok f _ _ _ m1 Hf) by (apply round_step_ok, Hr).
  rewrite (sha1_hash_step_ok f _ _ _ m2 Hf) by (do 2 apply round_step_ok; exact Hr).
  rewrite (sha1_hash_step_ok f _ _ _ m3 Hf) by (do 3 apply round_step_ok; exact Hr).
  reflexivity.
Qed.

Lemma arm_group_first (f : Z → Z → Z → Z) (K : Z) (w : list Z) (r : regs) :
  (∀ B C D, u32_range D → f B C D = round_F (20 * (0 / 5)) B C D) →
  K = round_K (20 * (0 / 5)) → regs_ok r →
  sha1_hash f (qabcd r) (rE r) (vaddq_u32 (Wq w 0) (vdupq_n_u32 K)) =
  qabcd (rounds_upto w r 1).
Proof.
  intros Hf HK Hr. rewrite rounds_upto_S by lia.
  change (rounds_upto w r 0) with r. unfold Wq.
  apply sha1_hash_round4; assumption.
Qed.

Lemma arm_group (f : Z → Z → Z → Z) (K : Z) (w : list Z) (r : regs) (j : nat) :
  (∀ B C D, u32_range D → f B C D = round_F (20 * (S j / 5)) B C D) →
  K = round_K (20 * (S j / 5)) → regs_ok r → (S j < 20)%nat →
  sha1_hash f (qabcd (rounds_upto w r (S j)))
    (vsha1h_u32 (vgetq_lane_u32 (qabcd (rounds_upto w r j)) 0))
    (vaddq_u32 (Wq w (S j)) (vdupq_n_u32 K)) =
  qabcd (rounds_upto w r (S (S j))).
Proof.
  intros Hf HK Hr Hj. rewrite (rounds_upto_S w r (S j)) by exact Hj.
  change (vsha1h_u32 (vgetq_lane_u32 (qabcd (rounds_upto w r j)) 0))
    with (u32_rol (rA (rounds_upto w r j)) 30).
  rewrite <- rounds_upto_rE by lia. unfold Wq.
  apply sha1_hash_round4; [assumption|assumption|]. apply rounds_upto_ok, Hr.
Qed.

(** ** The message schedule, four words at a time *)

Lemma sha1su_word3 (X w11 w5 w3 : Z) :
  u32_range X → u32_range w11 → u32_range w5 → u32_range w3 →
  Z.lxor (u32_rol (Z.lxor (Z.lxor (Z.lxor w5 w3) w11) 0) 1) (u32_rol X 2) =
  u32_rol (Z.lxor (Z.lxor (Z.lxor (u32_rol X 1) w11) w5) w3) 1.
Proof.
  intros HX H11 H5 H3. rewrite Z.lxor_0_r.
  replace (Z.lxor (Z.lxor (Z.lxor (u32_rol X 1) w11) w5) w3)
    with (Z.lxor (u32_rol X 1) (Z.lxor (Z.lxor w5 w3) w11)).
  2:{ apply Z.bits_inj'. intros n Hn. rewrite !Z.lxor_spec.
      destruct (Z.testbit (u32_rol X 1) n), (Z.testbit w11 n), (Z.testbit w5 n),
        (Z.testbit w3 n); reflexivity. }
  rewrite (u32_rol_lxor (u32_rol X 1)).
  - rewrite u32_rol_1_1 by exact HX. apply Z.lxor_comm.
  - apply u32_rol_range; [exact HX|lia].
  - repeat apply u32_range_lxor; assumption.
  - lia.
Qed.

(** [vsha1su0q_u32] and [vsha1su1q_u32] on four consecutive groups of a
    schedule of 32-bit words give the next group. *)
Lemma sha1su_next (w : list Z) (g : nat) :
  (∀ i, (16 ≤ i < 80)%nat → w !!! i = schedule_word w i) →
  (∀ i, (i < 80)%nat → u32_range (w !!! i)) →
  (g < 16)%nat →
  vsha1su1q_u32 (vsha1su0q_u32 (Wq w g) (Wq w (S g)) (Wq w (S (S g))))
                (Wq w (S (S (S g)))) = Wq w (S (S (S (S g)))).
Proof.
  intros Hrec Hrng Hg.
  unfold vsha1su1q_u32, vsha1su0q_u32, Wq. cbn [q0 q1 q2 q3]. cbv zeta.
  assert (∀ a b c d e : nat,
            (16 ≤ e < 80)%nat → d = (e - 3)%nat → c = (e - 8)%nat → a = (e - 14)%nat →
            b = (e - 16)%nat →
            Z.lxor (Z.lxor (Z.lxor (w !!! a) (w !!! b)) (w !!! c)) (w !!! d) =
            Z.lxor (Z.lxor (Z.lxor (w !!! (e - 3)%nat) (w !!! (e - 8)%nat))
                           (w !!! (e - 14)%nat)) (w !!! (e - 16)%nat)) as Hx.
  { intros a b c d e He -> -> -> ->. apply lxor_perm. }
  f_equal.
  - rewrite (Hrec (4 * S (S (S (S g))))%nat) by lia. unfold schedule_word.
    f_equal. apply Hx; lia.
  - rewrite (Hrec (4 * S (S (S (S g))) + 1)%nat) by lia. unfold schedule_word.
    f_equal. apply Hx; lia.
  - rewrite (Hrec (4 * S (S (S (S g))) + 2)%nat) by lia. unfold schedule_word.
    f_equal. apply Hx; lia.
  - rewrite (Hrec (4 * S (S (S (S g))) + 3)%nat) by lia. unfold schedule_word.
    rewrite (Hx _ _ _ _ (4 * S (S (S (S g))))%nat) by lia.
    rewrite sha1su_word3 by (try apply Hrng; try (repeat apply u32_range_lxor; apply Hrng); lia).
    f_equal. replace (4 * S (S (S (S g))) + 3 - 3)%nat with (4 * S (S (S (S g))))%nat by lia.
    rewrite (Hrec (4 * S (S (S (S g))))%nat) by lia. unfold schedule_word.
    repeat (f_equal; try lia).
Qed.

(** ** One block *)

Lemma take16_bytes (data : list Z) (off : nat) :
  bytes_ok data → (off + 16 ≤ length data)%nat →
  ∃ b0 b1 b2 b3 b4 b5 b6 b7 b8 b9 b10 b11 b12 b13 b14 b15,
    take 16 (drop off data) =
      [b0; b1; b2; b3; b4; b5; b6; b7; b8; b9; b10; b11; b12; b13; b14; b15] ∧
    bytes_ok [b0; b1; b2; b3; b4; b5; b6; b7; b8; b9; b10; b11; b12; b13; b14; b15] ∧
    uload32be data off = Some (le_combine b3 b2 b1 b0) ∧
    uload32be data (off + 4) = Some (le_combine b7 b6 b5 b4) ∧
    uload32be data (off + 8) = Some (le_combine b11 b10 b9 b8) ∧
    uload32be data (off + 12) = Some (le_combine b15 b14 b13 b12).
Proof.
  intros Hbytes Hlen.
  assert (length (take 16 (drop off data)) = 16%nat) as Hl
    by (rewrite length_take, length_drop; lia).
  assert (bytes_ok (take 16 (drop off data))) as Hok
    by (apply Forall_take, Forall_drop, Hbytes).
  assert (∀ k b, take 16 (drop off data) !! k = Some b →
                 data !! (off + k)%nat = Some b) as Hk.
  { intros k b Hb. assert (k < 16)%nat as Hlt.
    { apply lookup_lt_Some in Hb. lia. }
    rewrite lookup_take_lt, lookup_drop in Hb by exact Hlt. exact Hb. }
  destruct (take 16 (drop off data))
    as [|b0 [|b1 [|b2 [|b3 [|b4 [|b5 [|b6 [|b7 [|b8 [|b9 [|b10 [|b11 [|b12 [|b13 [|b14
        [|b15 [|]]]]]]]]]]]]]]]]]; try discriminate.
  exists b0, b1, b2, b3, b4, b5, b6, b7, b8, b9, b10, b11, b12, b13, b14, b15.
  split; [reflexivity|]. split; [exact Hok|].
  pose proof (Hk 0%nat b0 eq_refl) as L0. rewrite Nat.add_0_r in L0.
  split; [|split; [|split]]; apply uload32be_le_combine.
  - exact L0.
  - apply (Hk 1%nat). reflexivity.
  - apply (Hk 2%nat). reflexivity.
  - apply (Hk 3%nat). reflexivity.
  - apply (Hk 4%nat). reflexivity.
  - replace (off + 4 + 1)%nat with (off + 5)%nat by lia. apply (Hk 5%nat). reflexivity.
  - replace (off + 4 + 2)%nat with (off + 6)%nat by lia. apply (Hk 6%nat). reflexivity.
  - replace (off + 4 + 3)%nat with (off + 7)%nat by lia. apply (Hk 7%nat). reflexivity.
  - apply (Hk 8%nat). reflexivity.
  - replace (off + 8 + 1)%nat with (off + 9)%nat by lia. apply (Hk 9%nat). reflexivity.
  - replace (off + 8 + 2)%nat with (off + 10)%nat by lia. apply (Hk 10%nat). reflexivity.
  - replace (off + 8 + 3)%nat with (off + 11)%nat by lia. apply (Hk 11%nat). reflexivity.
  - apply (Hk 12%nat). reflexivity.
  - replace (off + 12 + 1)%nat with (off + 13)%nat by lia. apply (Hk 13%nat). reflexivity.
  - replace (off + 12 + 2)%nat with (off + 14)%nat by lia. apply (Hk 14%nat). reflexivity.
  - replace (off + 12 + 3)%nat with (off + 15)%nat by lia. apply (Hk 15%nat). reflexivity.
Qed.

(** A load of four host-order words, reversed on a little-endian host, holds
    the four big-endian words of those sixteen bytes, the first in lane 0. *)
Lemma vld1q_reverse (le : bool) (data : list Z) (off : nat) :
  bytes_ok data → (off + 16 ≤ length data)%nat →
  ∃ v x0 x1 x2 x3,
    vld1q_u32 le data off = Some v ∧
    uload32be data off = Some x0 ∧ uload32be data (off + 4) = Some x1 ∧
    uload32be data (off + 8) = Some x2 ∧ uload32be data (off + 12) = Some x3 ∧
    u32_range x0 ∧ u32_range x1 ∧ u32_range x2 ∧ u32_range x3 ∧
    arm_reverse le v = Q4 x0 x1 x2 x3.
Proof.
  intros Hbytes Hlen.
  destruct (take16_bytes data off Hbytes Hlen)
    as (b0 & b1 & b2 & b3 & b4 & b5 & b6 & b7 & b8 & b9 & b10 & b11 & b12 & b13 & b14 & b15
        & Ht & Hok & E0 & E1 & E2 & E3).
  unfold vld1q_u32. destruct (decide (off + 16 ≤ length data)%nat); [|lia].
  rewrite Ht. cbv zeta. cbn [lookup_total list_lookup_total].
  pose proof (proj1 (Forall_lookup _ _) Hok) as Hr.
  pose proof (Hr 0%nat b0 eq_refl) as R0. pose proof (Hr 1%nat b1 eq_refl) as R1.
  pose proof (Hr 2%nat b2 eq_refl) as R2. pose proof (Hr 3%nat b3 eq_refl) as R3.
  pose proof (Hr 4%nat b4 eq_refl) as R4. pose proof (Hr 5%nat b5 eq_refl) as R5.
  pose proof (Hr 6%nat b6 eq_refl) as R6. pose proof (Hr 7%nat b7 eq_refl) as R7.
  pose proof (Hr 8%nat b8 eq_refl) as R8. pose proof (Hr 9%nat b9 eq_refl) as R9.
  pose proof (Hr 10%nat b10 eq_refl) as R10. pose proof (Hr 11%nat b11 eq_refl) as R11.
  pose proof (Hr 12%nat b12 eq_refl) as R12. pose proof (Hr 13%nat b13 eq_refl) as R13.
  pose proof (Hr 14%nat b14 eq_refl) as R14. pose proof (Hr 15%nat b15 eq_refl) as R15.
  cbv beta in R0, R1, R2, R3, R4, R5, R6, R7, R8, R9, R10, R11, R12, R13, R14, R15.
  eexists. exists (le_combine b3 b2 b1 b0), (le_combine b7 b6 b5 b4),
    (le_combine b11 b10 b9 b8), (le_combine b15 b14 b13 b12).
  split; [reflexivity|].
  split; [exact E0|]. split; [exact E1|]. split; [exact E2|]. split; [exact E3|].
  split; [apply le_combine_range; assumption|].
  split; [apply le_combine_range; assumption|].
  split; [apply le_combine_range; assumption|].
  split; [apply le_combine_range; assumption|].
  destruct le; [|reflexivity].
  unfold arm_reverse, vreinterpretq_u8_u32, host_combine. cbn [q0 q1 q2 q3].
  rewrite !le_bytes_le_combine by assumption. reflexivity.
Qed.

(** The words of a schedule of bytes are 32-bit values. *)
Lemma schedule_spec_range (data w : list Z) :
  bytes_ok data → schedule_spec data = Some w → ∀ i, (i < 80)%nat → u32_range (w !!! i).
Proof.
  intros Hbytes Hw. destruct (schedule_spec_facts data w Hw) as (Hlen & Hl & Hrec).
  intros i. induction i as [i IH] using lt_wf_ind. intros Hi.
  destruct (Nat.lt_ge_cases i 16) as [Hlt|Hge].
  - pose proof (Nat.div_mod_eq i 4) as Hdm.
    pose proof (Nat.mod_upper_bound i 4 ltac:(lia)) as Hm.
    set (q := (i / 4)%nat) in *. set (m := (i mod 4)%nat) in *.
    clearbody q m. clear IH.
    pose proof (Hl (4 * q)%nat ltac:(lia)) as H0.
    pose proof (Hl (4 * q + 1)%nat ltac:(lia)) as H1.
    pose proof (Hl (4 * q + 2)%nat ltac:(lia)) as H2.
    pose proof (Hl (4 * q + 3)%nat ltac:(lia)) as H3.
    destruct (vld1q_reverse false data (16 * q) Hbytes ltac:(lia))
      as (v & x0 & x1 & x2 & x3 & _ & E0 & E1 & E2 & E3 & R0 & R1 & R2 & R3 & _).
    replace (4 * q * 4)%nat with (16 * q)%nat in H0 by lia.
    replace ((4 * q + 1) * 4)%nat with (16 * q + 4)%nat in H1 by lia.
    replace ((4 * q + 2) * 4)%nat with (16 * q + 8)%nat in H2 by lia.
    replace ((4 * q + 3) * 4)%nat with (16 * q + 12)%nat in H3 by lia.
    assert (i = 4 * q ∨ i = 4 * q + 1 ∨ i = 4 * q + 2 ∨
            i = 4 * q + 3)%nat as Hcase by lia.
    destruct Hcase as [-> | [-> | [-> | ->]]]; congruence.
  - rewrite Hrec by lia. unfold schedule_word.
    apply u32_rol_range; [|lia].
    repeat apply u32_range_lxor; apply IH; lia.
Qed.

Lemma arm_loads (le : bool) (data w : list Z) (k : nat) :
  bytes_ok data → schedule_spec data = Some w → (k < 4)%nat →
  ∃ v, vld1q_u32 le data (16 * k) = Some v ∧ arm_reverse le v = Wq w k.
Proof.
  intros Hb Hw Hk. destruct (schedule_spec_facts data w Hw) as (Hlen & Hl & _).
  destruct (vld1q_reverse le data (16 * k) Hb ltac:(lia))
    as (v & x0 & x1 & x2 & x3 & Ev & E0 & E1 & E2 & E3 & _ & _ & _ & _ & Er).
  exists v. split; [exact Ev|]. rewrite Er. unfold Wq.
  pose proof (Hl (4 * k)%nat ltac:(lia)) as H0.
  pose proof (Hl (4 * k + 1)%nat ltac:(lia)) as H1.
  pose proof (Hl (4 * k + 2)%nat ltac:(lia)) as H2.
  pose proof (Hl (4 * k + 3)%nat ltac:(lia)) as H3.
  replace (4 * k * 4)%nat with (16 * k)%nat in H0 by lia.
  replace ((4 * k + 1) * 4)%nat with (16 * k + 4)%nat in H1 by lia.
  replace ((4 * k + 2) * 4)%nat with (16 * k + 8)%nat in H2 by lia.
  replace ((4 * k + 3) * 4)%nat with (16 * k + 12)%nat in H3 by lia.
  congruence.
Qed.

Ltac arm_step stanza :=
  unfold stanza; cbv beta iota zeta;
  unfold vsha1cq_u32, vsha1pq_u32, vsha1mq_u32;
  rewrite ?sha1su_next by first [assumption | lia];
  rewrite arm_group
    by first [assumption | lia | reflexivity
             | exact SHAchoose_ok | exact SHAparity_ok | exact SHAmajority_ok].

(** The eighty rounds of the ARM loop body on a reversed block are the
    eighty canonical rounds; [E0] ends as E of the final registers. *)
Lemma arm_rounds_chain (w : list Z) (r : regs) :
  regs_ok r →
  (∀ i, (16 ≤ i < 80)%nat → w !!! i = schedule_word w i) →
  (∀ i, (i < 80)%nat → u32_range (w !!! i)) →
  ∃ e1 t0 t1 x0 x1 x2 x3,
    arm_rounds_76_79 (arm_rounds_72_75 (arm_rounds_68_71 (arm_rounds_64_67
    (arm_rounds_60_63 (arm_rounds_56_59 (arm_rounds_52_55 (arm_rounds_48_51
    (arm_rounds_44_47 (arm_rounds_40_43 (arm_rounds_36_39 (arm_rounds_32_35
    (arm_rounds_28_31 (arm_rounds_24_27 (arm_rounds_20_23 (arm_rounds_16_19
    (arm_rounds_12_15 (arm_rounds_8_11 (arm_rounds_4_7
    (arm_rounds_0_3 (qabcd r) (rE r)
       (vaddq_u32 (Wq w 0) (vdupq_n_u32 K1)) (vaddq_u32 (Wq w 1) (vdupq_n_u32 K1))
       (Wq w 0) (Wq w 1) (Wq w 2) (Wq w 3)))))))))))))))))))) =
    ArmVars (qabcd (rounds_upto w r 20))
            (vsha1h_u32 (vgetq_lane_u32 (qabcd (rounds_upto w r 19)) 0))
            e1 t0 t1 x0 x1 x2 x3.
Proof.
  intros Hr Hrec Hrng.
  unfold arm_rounds_0_3. cbv beta iota zeta. unfold vsha1cq_u32.
  rewrite arm_group_first by first [assumption | reflexivity | exact SHAchoose_ok].
  change (vgetq_lane_u32 (qabcd r) 0)
    with (vgetq_lane_u32 (qabcd (rounds_upto w r 0)) 0).
  arm_step arm_rounds_4_7.
  arm_step arm_rounds_8_11.
  arm_step arm_rounds_12_15.
  arm_step arm_rounds_16_19.
  arm_step arm_rounds_20_23.
  arm_step arm_rounds_24_27.
  arm_step arm_rounds_28_31.
  arm_step arm_rounds_32_35.
  arm_step arm_rounds_36_39.
  arm_step arm_rounds_40_43.
  arm_step arm_rounds_44_47.
  arm_step arm_rounds_48_51.
  arm_step arm_rounds_52_55.
  arm_step arm_rounds_56_59.
  arm_step arm_rounds_60_63.
  arm_step arm_rounds_64_67.
  arm_step arm_rounds_68_71.
  arm_step arm_rounds_72_75.
  arm_step arm_rounds_76_79.
  eauto 10.
Qed.

Lemma arm_block_compress (le : bool) (h : SHA1) (data : list Z) :
  bytes_ok data → digest_ok h →
  arm_block le (qabcd (regs_of h)) (data4 h) data =
  (h' ← compress h data; Some (qabcd (regs_of h'), data4 h', drop 64 data)).
Proof.
  intros Hb Hh. unfold compress.
  destruct (schedule_spec data) as [w|] eqn:Hw; cbn [mbind option_bind].
  - destruct (schedule_spec_facts data w Hw) as (_ & _ & Hrec).
    pose proof (schedule_spec_range data w Hb Hw) as Hrng.
    destruct (arm_loads le data w 0 Hb Hw ltac:(lia)) as (m0 & L0 & S0).
    destruct (arm_loads le data w 1 Hb Hw ltac:(lia)) as (m1 & L1 & S1).
    destruct (arm_loads le data w 2 Hb Hw ltac:(lia)) as (m2 & L2 & S2).
    destruct (arm_loads le data w 3 Hb Hw ltac:(lia)) as (m3 & L3 & S3).
    change (16 * 0)%nat with 0%nat in L0. change (16 * 1)%nat with 16%nat in L1.
    change (16 * 2)%nat with 32%nat in L2. change (16 * 3)%nat with 48%nat in L3.
    unfold arm_block. cbv zeta.
    rewrite L0. cbn [mbind option_bind]. rewrite L1. cbn [mbind option_bind].
    rewrite L2. cbn [mbind option_bind]. rewrite L3. cbn [mbind option_bind].
    rewrite S0, S1, S2, S3.
    destruct (arm_rounds_chain w (regs_of h) Hh Hrec Hrng)
      as (e1 & t0 & t1 & x0 & x1 & x2 & x3 & Hchain).
    change (data4 h) with (rE (regs_of h)) at 1 2.
    rewrite Hchain. cbn [av_ABCD av_E0].
    pose proof (rounds_upto_rE w (regs_of h) 19 ltac:(lia)) as HE.
    rewrite rounds_upto_20 in *.
    change (vsha1h_u32 (vgetq_lane_u32 (qabcd (rounds_upto w (regs_of h) 19)) 0))
      with (u32_rol (rA (rounds_upto w (regs_of h) 19)) 30).
    rewrite <- HE.
    unfold vaddq_u32, qabcd, feed_forward, regs_of.
    cbn [q0 q1 q2 q3 rA rB rC rD rE data0 data1 data2 data3 data4].
    fold (regs_of h). rewrite (Z.add_comm (rE _)). reflexivity.
  - assert (¬ (64 ≤ length data)%nat) as Hshort.
    { intros Hlen. destruct (proj2 (schedule_is_Some (λ _, 0) data) Hlen) as [w Hs].
      rewrite schedule_is_spec in Hs. congruence. }
    unfold arm_block. cbv zeta.
    destruct (vld1q_u32 le data 0); cbn [mbind option_bind]; [|reflexivity].
    destruct (vld1q_u32 le data 16); cbn [mbind option_bind]; [|reflexivity].
    destruct (vld1q_u32 le data 32); cbn [mbind option_bind]; [|reflexivity].
    unfold vld1q_u32.
    destruct (decide (48 + 16 ≤ length data)%nat); [lia|reflexivity].
Qed.

Lemma arm_loop_blocks (le : bool) (stale : nat → Z) (n : nat) :
  ∀ (h : SHA1) (data : list Z),
    bytes_ok data → digest_ok h →
    arm_loop le n (qabcd (regs_of h)) (data4 h) data =
    (h' ← blocks_one_at_a_time stale n h data;
     Some (qabcd (regs_of h'), data4 h', drop (64 * n) data)).
Proof.
  induction n as [|n IH]; intros h data Hb Hh; cbn [arm_loop blocks_one_at_a_time].
  - reflexivity.
  - rewrite arm_block_compress by assumption.
    rewrite one_block_take, (one_block_compress stale) by exact Hh.
    destruct (compress h data) as [h1|] eqn:E1; cbn [mbind option_bind]; [|reflexivity].
    assert (digest_ok h1) as Hh1.
    { apply (one_block_digest_ok stale h h1 data). rewrite one_block_compress by exact Hh.
      exact E1. }
    rewrite IH by (try exact Hh1; apply Forall_drop, Hb).
    rewrite drop_drop. replace (64 + 64 * n)%nat with (64 * S n)%nat by lia. reflexivity.
Qed.

Lemma arm_transform_blocks (le : bool) (stale : nat → Z) (state : SHA1) (data : list Z)
    (blocks : Z) :
  bytes_ok data → digest_ok state →
  arm_sha1_transform le state data blocks =
  blocks_one_at_a_time stale (Z.to_nat blocks) state data.
Proof.
  intros Hb Hh. unfold arm_sha1_transform. cbv zeta.
  change (Q4 (data0 state) (data1 state) (data2 state) (data3 state))
    with (qabcd (regs_of state)).
  rewrite (arm_loop_blocks le stale) by assumption.
  destruct (blocks_one_at_a_time stale (Z.to_nat blocks) state data) as [h'|];
    cbn [mbind option_bind]; [|reflexivity].
  destruct h'. reflexivity.
Qed.

(** X4. On bytes and 32-bit state words the transform written with the ARMv8
    SHA-1 instructions returns what the portable transform returns, on a
    little-endian and on a big-endian host, for every block count, and fails
    on the same inputs. *)
Theorem arm_is_generic (le : bool) (stale : nat → Z) (state : SHA1) (data : list Z)
    (blocks : Z) :
  bytes_ok data → digest_ok state →
  arm_sha1_transform le state data blocks = generic_sha1_transform stale state data blocks.
Proof.
  intros Hb Hh. rewrite transform_one_at_a_time.
  apply arm_transform_blocks; assumption.
Qed.

Lemma arm_is_generic_two_blocks :
  bytes_ok (replicate 128 97) ∧ digest_ok sha1_init ∧
  arm_sha1_transform true sha1_init (replicate 128 97) 2 =
  generic_sha1_transform (λ _, 0) sha1_init (replicate 128 97) 2.
Proof.
  split; [apply bytes_ok_replicate; lia|]. split; [exact digest_ok_init|].
  exact (arm_is_generic true (λ _, 0) sha1_init (replicate 128 97) 2
           (bytes_ok_replicate 128 97 ltac:(lia)) digest_ok_init).
Defined.

(** * The selected backend, and the bytes [sha1] reads *)

Lemma low_byte_range (x : Z) : 0 ≤ Z.land x 0xFF < 256.
Proof.
  change 0xFF with (Z.ones 8). rewrite Z.land_ones by lia.
  apply Z.mod_pos_bound. reflexivity.
Qed.

Lemma bytes_ok_be64_bytes (v : Z) : bytes_ok (be64_bytes v).
Proof. unfold bytes_ok, be64_bytes. repeat constructor; apply low_byte_range. Qed.

Lemma bytes_ok_sha1_tail (memory : list Z) : bytes_ok memory → bytes_ok (sha1_tail memory).
Proof. intros H. unfold sha1_tail. apply Forall_take, Forall_drop, H. Qed.

Lemma bytes_ok_pad_single (tail : list Z) (v : Z) :
  bytes_ok tail → bytes_ok (pad_single tail v).
Proof.
  intros H. unfold pad_single, bytes_ok. repeat apply Forall_app_2.
  - exact H.
  - repeat constructor; lia.
  - apply Forall_replicate. lia.
  - apply bytes_ok_be64_bytes.
Qed.

Lemma bytes_ok_pad_first (tail : list Z) : bytes_ok tail → bytes_ok (pad_first tail).
Proof.
  intros H. unfold pad_first, bytes_ok. repeat apply Forall_app_2.
  - exact H.
  - repeat constructor; lia.
  - apply Forall_replicate. lia.
Qed.

Lemma bytes_ok_pad_second (v : Z) : bytes_ok (pad_second v).
Proof.
  unfold pad_second, bytes_ok. apply Forall_app_2.
  - apply Forall_replicate. lia.
  - apply bytes_ok_be64_bytes.
Qed.

Lemma bytes_ok_bytes_of_string (s : string) : bytes_ok (bytes_of_string s).
Proof.
  induction s as [|c s IH]; cbn [bytes_of_string]; constructor; [|exact IH].
  pose proof (nat_ascii_bounded c). lia.
Qed.

(** A backend that agrees with the portable transform on bytes and 32-bit
    state words gives the digest of the portable one. *)
Lemma sha1_with_backend (le : bool) (T : transform_fn) (sw sb : nat → Z) (memory : list Z) :
  (∀ d data blocks, bytes_ok data → digest_ok d →
     T d data blocks = blocks_one_at_a_time sw (Z.to_nat blocks) d data) →
  bytes_ok memory → sha1_with le T sb memory = sha1 le sw sb memory.
Proof.
  intros HT Hb. unfold sha1. rewrite !sha1_with_unfold.
  rewrite HT by (exact Hb || exact digest_ok_init). rewrite transform_one_at_a_time.
  destruct (blocks_one_at_a_time sw (Z.to_nat (u32 (size memory) / 64)) sha1_init memory)
    as [h0|] eqn:E0; cbn [mbind option_bind]; [|reflexivity].
  pose proof (blocks_digest_ok sw _ _ _ _ digest_ok_init E0) as Hh0.
  destruct (int_mul (u32 (size memory) / 64) 64) as [off|]; cbn [mbind option_bind];
    [|reflexivity].
  destruct (size memory mod 64 + 1 <=? 56).
  - rewrite HT by (try exact Hh0; apply bytes_ok_pad_single, bytes_ok_sha1_tail, Hb).
    rewrite transform_one_at_a_time. reflexivity.
  - rewrite HT by (try exact Hh0; apply bytes_ok_pad_first, bytes_ok_sha1_tail, Hb).
    rewrite transform_one_at_a_time.
    destruct (blocks_one_at_a_time sw (Z.to_nat 1) h0 (pad_first (sha1_tail memory)))
      as [h1|] eqn:E1; cbn [mbind option_bind]; [|reflexivity].
    pose proof (blocks_digest_ok sw _ _ _ _ Hh0 E1) as Hh1.
    rewrite HT by (try exact Hh1; apply bytes_ok_pad_second).
    rewrite transform_one_at_a_time. reflexivity.
Qed.

(** The first call of the transform failing, [sha1] fails. *)
Lemma sha1_with_first_None (le : bool) (T : transform_fn) (sb : nat → Z) (memory : list Z) :
  T sha1_init memory (u32 (size memory) / 64) = None → sha1_with le T sb memory = None.
Proof. intros H. rewrite sha1_with_unfold, H. reflexivity. Qed.

(** X5. On a buffer of bytes [sha1] returns the same digest, or fails alike,
    whichever backend the build and the CPU flags make it select, with one
    exception: when it selects the Intel one and [hash.data] is not at a
    multiple of 16, it faults at the aligned store of the first transform
    call, where the other selections return the digest. *)
Theorem sha1_backend_independent (ARM_FEATURE_CRYPTO MANGO_ENABLE_SHA le : bool)
    (cpu_flags ARM_SHA1 INTEL_SHA hash_addr : Z) (sw sb : nat → Z) (memory : list Z) :
  bytes_ok memory →
  sha1_selected ARM_FEATURE_CRYPTO MANGO_ENABLE_SHA le cpu_flags ARM_SHA1 INTEL_SHA
                hash_addr sw sb memory =
  (if intel_selected ARM_FEATURE_CRYPTO MANGO_ENABLE_SHA cpu_flags INTEL_SHA
      && negb (hash_addr mod 16 =? 0)
   then None else sha1 le sw sb memory).
Proof.
  intros Hb. unfold sha1_selected, select_transform, intel_selected. cbv zeta.
  destruct ARM_FEATURE_CRYPTO; cbn [negb andb].
  - destruct (negb (Z.land cpu_flags ARM_SHA1 =? 0)); [|reflexivity].
    apply sha1_with_backend; [|exact Hb].
    intros d data blocks Hd Hh. apply arm_transform_blocks; assumption.
  - destruct MANGO_ENABLE_SHA; cbn [negb andb]; [|reflexivity].
    destruct (negb (Z.land cpu_flags INTEL_SHA =? 0)); cbn [negb andb]; [|reflexivity].
    destruct (Z.eqb_spec (hash_addr mod 16) 0) as [Ha|Ha]; cbn [negb].
    + apply sha1_with_backend; [|exact Hb].
      intros d data blocks Hd Hh. rewrite (intel_transform_blocks sw) by assumption.
      destruct (decide (hash_addr mod 16 = 0)); [reflexivity|contradiction].
    + apply sha1_with_first_None.
      rewrite (intel_transform_blocks sw) by (exact Hb || exact digest_ok_init).
      destruct (decide (hash_addr mod 16 = 0)); [contradiction|reflexivity].
Qed.

Lemma sha1_backend_independent_abc :
  bytes_ok (bytes_of_string "abc") ∧
  sha1_selected false true true 1 0 1 64 (λ _, 0) (λ _, 0) (bytes_of_string "abc") =
    sha1 true (λ _, 0) (λ _, 0) (bytes_of_string "abc") ∧
  sha1_selected false true true 1 0 1 68 (λ _, 0) (λ _, 0) (bytes_of_string "abc") = None.
Proof.
  split; [apply bytes_ok_bytes_of_string|]. split.
  - exact (sha1_backend_independent false true true 1 0 1 64 (λ _, 0) (λ _, 0)
             (bytes_of_string "abc") (bytes_ok_bytes_of_string "abc")).
  - exact (sha1_backend_independent false true true 1 0 1 68 (λ _, 0) (λ _, 0)
             (bytes_of_string "abc") (bytes_ok_bytes_of_string "abc")).
Defined.

(** ** The bytes [sha1] reads *)

Lemma tail_of_prefix (m : list Z) (o r k : nat) :
  (o + r ≤ k)%nat → take r (drop o m) = take r (drop o (take k m)).
Proof.
  intros H. rewrite !take_drop_commute, take_take. f_equal. f_equal. lia.
Qed.

(** X6. [sha1] reads the size of its buffer and the first [size mod 2^32]
    bytes only: buffers of one size that agree on those bytes get the same
    digest. *)
Theorem sha1_reads_low_size (le : bool) (sw sb : nat → Z) (m1 m2 : list Z) :
  size m1 = size m2 →
  take (Z.to_nat (u32 (size m1))) m1 = take (Z.to_nat (u32 (size m1))) m2 →
  sha1 le sw sb m1 = sha1 le sw sb m2.
Proof.
  intros Hs Ht. unfold sha1. rewrite !sha1_with_unfold. rewrite <- Hs.
  destruct (sha1_sizes (size m1) (size_nonneg m1)) as (Hbc & Hle & Hrem & Hrng).
  assert (0 ≤ u32 (size m1)) as Hu by (apply u32_range_u32).
  assert (u32 (size m1) / 64 * 64 + size m1 mod 64 ≤ u32 (size m1)) as Hin.
  { revert Hrem. unfold u32. change (2 ^ 32) with 4294967296.
    intros _. Z.div_mod_to_equations. lia. }
  assert (sha1_tail m1 = sha1_tail m2) as Htail.
  { unfold sha1_tail. rewrite <- Hs.
    rewrite (tail_of_prefix m1 _ _ (Z.to_nat (u32 (size m1)))) by lia.
    rewrite (tail_of_prefix m2 _ _ (Z.to_nat (u32 (size m1)))) by lia.
    rewrite Ht. reflexivity. }
  assert (generic_sha1_transform sw sha1_init m1 (u32 (size m1) / 64) =
          generic_sha1_transform sw sha1_init m2 (u32 (size m1) / 64)) as Hfirst.
  { rewrite !transform_one_at_a_time.
    rewrite <- (blocks_take sw _ sha1_init m1 (Z.to_nat (u32 (size m1)))) by lia.
    rewrite <- (blocks_take sw _ sha1_init m2 (Z.to_nat (u32 (size m1)))) by lia.
    rewrite Ht. reflexivity. }
  rewrite Hfirst, Htail. reflexivity.
Qed.

Lemma size_four_GiB_ones : size four_GiB_ones = 2 ^ 32.
Proof.
  unfold size, four_GiB_ones. rewrite length_replicate. apply Z2Nat.id. discriminate.
Qed.

Lemma sha1_reads_low_size_4GiB :
  size four_GiB_zeros = size four_GiB_ones ∧
  sha1 true (λ _, 0) (λ _, 0) four_GiB_zeros = sha1 true (λ _, 0) (λ _, 0) four_GiB_ones.
Proof.
  assert (size four_GiB_zeros = size four_GiB_ones) as Hs
    by (rewrite size_four_GiB_zeros, size_four_GiB_ones; reflexivity).
  split; [exact Hs|].
  apply (sha1_reads_low_size true (λ _, 0) (λ _, 0) four_GiB_zeros four_GiB_ones Hs).
  rewrite size_four_GiB_zeros. change (Z.to_nat (u32 (2 ^ 32))) with 0%nat.
  rewrite !take_0. reflexivity.
Defined.

(** ** Where [sha1] is defined *)

(** X8. [sha1] runs without a read or write outside an object and without an
    overflow of [int] exactly when the size of the buffer modulo 2^32 is
    below 2^31. *)
Theorem sha1_defined_iff (le : bool) (sw sb : nat → Z) (memory : list Z) :
  is_Some (sha1 le sw sb memory) ↔ u32 (size memory) < 2 ^ 31.
Proof.
  split.
  - intros [h Hh].
    destruct (Z_lt_le_dec (u32 (size memory)) (2 ^ 31)) as [Hlt|Hbig]; [exact Hlt|].
    exfalso. unfold sha1 in Hh. rewrite sha1_with_unfold in Hh.
    destruct (generic_sha1_transform sw sha1_init memory (u32 (size memory) / 64));
      cbn [mbind option_bind] in Hh; [|discriminate].
    rewrite (int_mul_blocks_overflow (size memory) (size_nonneg memory) Hbig) in Hh.
    discriminate.
  - intros Hsafe. destruct (sha1_total le sw sb memory Hsafe) as [h Hh].
    rewrite Hh. eauto.
Qed.
